(** * Response normalisation and prompt construction of the QA test-case generator

    A shallow embedding of the generation service (the three versions of it
    found in the repository) and of the export code of the application
    component, with the properties of the specification proved or refuted
    on it.

    JavaScript strings are sequences of UTF-16 code units; they are modelled
    as lists of [N].  The platform functions the service calls
    ([String.prototype.trim], [slice], [substring], [indexOf], [lastIndexOf],
    [startsWith], [endsWith], [includes] and [JSON.parse]) are modelled after
    ECMA-262. *)

From Stdlib Require Import String Ascii Bool ZArith NArith Lia List.
Import ListNotations.

Set Implicit Arguments.
Set Warnings "-register-all".

(* ===================================================================== *)
(** ** JavaScript strings                                                  *)
(* ===================================================================== *)

Definition char16 := N.
Definition jsstring := list char16.

(** An ASCII literal as a JavaScript string. *)
Definition str (s : string) : jsstring :=
  map N_of_ascii (list_ascii_of_string s).

Definition chLF : char16 := 10%N.
Definition chQuote : char16 := 34%N.       (* the double quote *)
Definition chComma : char16 := 44%N.
Definition chLBracket : char16 := 91%N.
Definition chBackslash : char16 := 92%N.
Definition chRBracket : char16 := 93%N.
Definition chLBrace : char16 := 123%N.
Definition chRBrace : char16 := 125%N.
Definition chColon : char16 := 58%N.

Definition dq : jsstring := [chQuote].
Definition nl : jsstring := [chLF].

(** WhiteSpace and LineTerminator code points of ECMA-262, the characters
    [String.prototype.trim] removes. *)
Definition isWhiteSpace (c : char16) : bool :=
  ((9 <=? c) && (c <=? 13) || (c =? 32) || (c =? 160) || (c =? 5760)
   || (8192 <=? c) && (c <=? 8202) || (c =? 8232) || (c =? 8233)
   || (c =? 8239) || (c =? 8287) || (c =? 12288) || (c =? 65279))%N.

Fixpoint trimStart (s : jsstring) : jsstring :=
  match s with
  | [] => []
  | c :: r => if isWhiteSpace c then trimStart r else s
  end.

Definition trimEnd (s : jsstring) : jsstring := rev (trimStart (rev s)).

Definition trim (s : jsstring) : jsstring := trimEnd (trimStart s).

Fixpoint startsWith (s p : jsstring) {struct p} : bool :=
  match p with
  | [] => true
  | a :: p' =>
      match s with
      | [] => false
      | b :: s' => (a =? b)%N && startsWith s' p'
      end
  end.

Definition endsWith (s p : jsstring) : bool := startsWith (rev s) (rev p).

Definition len (s : jsstring) : Z := Z.of_nat (length s).

(** Relative index of [slice]: negative positions count from the end. *)
Definition relIndex (n k : Z) : Z :=
  if (k <? 0)%Z then Z.max (n + k) 0 else Z.min k n.

(** [s.slice(start, end)]; [end_ = None] is the argument [undefined]. *)
Definition slice (s : jsstring) (start : Z) (end_ : option Z) : jsstring :=
  let n := len s in
  let from := relIndex n start in
  let to := match end_ with None => n | Some e => relIndex n e end in
  firstn (Z.to_nat (to - from)) (skipn (Z.to_nat from) s).

Definition clampIndex (n k : Z) : Z := Z.min (Z.max k 0) n.

(** [s.substring(start, end)]: both ends clamped, swapped when out of order. *)
Definition substring (s : jsstring) (start end_ : Z) : jsstring :=
  let n := len s in
  let a := clampIndex n start in
  let b := clampIndex n end_ in
  let from := Z.min a b in
  let to := Z.max a b in
  firstn (Z.to_nat (to - from)) (skipn (Z.to_nat from) s).

Fixpoint indexOfFrom (s p : jsstring) (i : Z) : Z :=
  if startsWith s p then i
  else match s with
       | [] => (-1)%Z
       | _ :: r => indexOfFrom r p (i + 1)
       end.

Definition indexOf (s p : jsstring) : Z := indexOfFrom s p 0.

Fixpoint lastIndexOfFrom (s p : jsstring) (i best : Z) : Z :=
  let best' := if startsWith s p then i else best in
  match s with
  | [] => best'
  | _ :: r => lastIndexOfFrom r p (i + 1) best'
  end.

Definition lastIndexOf (s p : jsstring) : Z := lastIndexOfFrom s p 0 (-1).

Definition includes (s p : jsstring) : bool := (0 <=? indexOf s p)%Z.

(** [s.split(',')]: the pieces between the separators. *)
Fixpoint splitOn (sep : char16) (s cur : jsstring) : list jsstring :=
  match s with
  | [] => [rev cur]
  | c :: r => if (c =? sep)%N then rev cur :: splitOn sep r []
              else splitOn sep r (c :: cur)
  end.

(** Decimal rendering of a non-negative integer, as template literals and
    [String(n)] produce it. *)
Fixpoint digitsOf (fuel : nat) (n : N) (acc : jsstring) : jsstring :=
  match fuel with
  | O => acc
  | S f =>
      let acc' := (48 + n mod 10)%N :: acc in
      if (n / 10 =? 0)%N then acc' else digitsOf f (n / 10)%N acc'
  end.

Definition numberToString (n : N) : jsstring :=
  digitsOf (S (N.to_nat (N.log2 n))) n [].

(** Number of positions of [s] at which [p] occurs. *)
Fixpoint countOcc (p s : jsstring) : nat :=
  match s with
  | [] => if startsWith [] p then 1 else 0
  | _ :: r => (if startsWith s p then 1 else 0) + countOcc p r
  end.

(* ===================================================================== *)
(** ** JSON values and [JSON.parse]                                        *)
(* ===================================================================== *)

(** A parsed value.  A number is kept as the decimal it denotes,
    [(-1)^neg * m * 10^e]; the engine rounds it to the nearest double.
    An object keeps its members in source order, duplicates included:
    a later member of the same name overrides an earlier one ([getProp]). *)
Inductive json : Type :=
| JNull
| JBool (b : bool)
| JNumber (neg : bool) (m : N) (e : Z)
| JString (s : jsstring)
| JArray (items : list json)
| JObject (members : list (jsstring * json)).

Definition jsstring_eqb (a b : jsstring) : bool :=
  (length a =? length b)%nat && startsWith a b.

(** JSONWhiteSpace: tab, line feed, carriage return, space. *)
Definition isJsonWs (c : char16) : bool :=
  ((c =? 9) || (c =? 10) || (c =? 13) || (c =? 32))%N.

Fixpoint skip_ws (s : jsstring) : jsstring :=
  match s with
  | [] => []
  | c :: r => if isJsonWs c then skip_ws r else s
  end.

Definition isDigit (c : char16) : bool := ((48 <=? c) && (c <=? 57))%N.

Definition hexVal (c : char16) : option N :=
  if isDigit c then Some (c - 48)%N
  else if ((97 <=? c) && (c <=? 102))%N then Some (c - 87)%N
  else if ((65 <=? c) && (c <=? 70))%N then Some (c - 55)%N
  else None.

Definition hex4 (a b c d : char16) : option char16 :=
  match hexVal a, hexVal b, hexVal c, hexVal d with
  | Some x, Some y, Some z, Some w => Some (((x * 16 + y) * 16 + z) * 16 + w)%N
  | _, _, _, _ => None
  end.

(** The character a single-character escape stands for. *)
Definition escapeChar (c : char16) : option char16 :=
  if (c =? 34)%N then Some 34%N            (* quote *)
  else if (c =? 47)%N then Some 47%N       (* solidus *)
  else if (c =? 92)%N then Some 92%N       (* backslash *)
  else if (c =? 98)%N then Some 8%N        (* b *)
  else if (c =? 102)%N then Some 12%N      (* f *)
  else if (c =? 110)%N then Some 10%N      (* n *)
  else if (c =? 114)%N then Some 13%N      (* r *)
  else if (c =? 116)%N then Some 9%N       (* t *)
  else None.

Definition consChar (c : char16) (r : option (jsstring * jsstring))
  : option (jsstring * jsstring) :=
  match r with
  | Some (body, rest) => Some (c :: body, rest)
  | None => None
  end.

(** The characters of a string literal after its opening quote, up to and
    including the closing quote. *)
Fixpoint parse_chars (s : jsstring) : option (jsstring * jsstring) :=
  match s with
  | [] => None
  | c :: r =>
      if (c =? chQuote)%N then Some ([], r)
      else if (c =? chBackslash)%N then
        match r with
        | [] => None
        | e :: r1 =>
            if (e =? 117)%N then
              match r1 with
              | h1 :: h2 :: h3 :: h4 :: r2 =>
                  match hex4 h1 h2 h3 h4 with
                  | Some u => consChar u (parse_chars r2)
                  | None => None
                  end
              | _ => None
              end
            else
              match escapeChar e with
              | Some x => consChar x (parse_chars r1)
              | None => None
              end
        end
      else if (c <? 32)%N then None
      else consChar c (parse_chars r)
  end.

(** A run of decimal digits: the value accumulated, the number of digits
    read and the rest of the input. *)
Fixpoint parse_digits (s : jsstring) (acc : N) (count : nat)
  : N * nat * jsstring :=
  match s with
  | [] => (acc, count, [])
  | c :: r =>
      if isDigit c then parse_digits r (acc * 10 + (c - 48))%N (S count)
      else (acc, count, s)
  end.

(** JSONNumber: [-]? int frac? exp?, with no leading zero in [int] and at
    least one digit after [.] and after the exponent mark. *)
Definition parse_int (s : jsstring) : option (N * jsstring) :=
  match s with
  | [] => None
  | c :: r =>
      if (c =? 48)%N then Some (0%N, r)
      else if isDigit c then
        let '(m, _, r') := parse_digits r (c - 48)%N 1 in Some (m, r')
      else None
  end.

Definition parse_frac (m : N) (s : jsstring) : option (N * nat * jsstring) :=
  match s with
  | c :: r =>
      if (c =? 46)%N then
        let '(m', k, r') := parse_digits r m 0 in
        match k with O => None | S _ => Some (m', k, r') end
      else Some (m, O, s)
  | [] => Some (m, O, s)
  end.

Definition parse_exp (s : jsstring) : option (Z * jsstring) :=
  match s with
  | c :: r =>
      if ((c =? 101) || (c =? 69))%N then
        let '(sgn, r0) :=
          match r with
          | d :: r' => if (d =? 45)%N then ((-1)%Z, r')
                       else if (d =? 43)%N then (1%Z, r')
                       else (1%Z, r)
          | [] => (1%Z, r)
          end in
        let '(x, k, r1) := parse_digits r0 0%N 0 in
        match k with O => None | S _ => Some ((sgn * Z.of_N x)%Z, r1) end
      else Some (0%Z, s)
  | [] => Some (0%Z, s)
  end.

Definition parse_number (s : jsstring) : option (json * jsstring) :=
  let '(neg, s0) :=
    match s with
    | c :: r => if (c =? 45)%N then (true, r) else (false, s)
    | [] => (false, s)
    end in
  match parse_int s0 with
  | None => None
  | Some (m, s1) =>
      match parse_frac m s1 with
      | None => None
      | Some (m', k, s2) =>
          match parse_exp s2 with
          | None => None
          | Some (x, s3) => Some (JNumber neg m' (x - Z.of_nat k), s3)
          end
      end
  end.

Definition parse_literal (s : jsstring) : option (json * jsstring) :=
  if startsWith s (str "true") then Some (JBool true, skipn 4 s)
  else if startsWith s (str "false") then Some (JBool false, skipn 5 s)
  else if startsWith s (str "null") then Some (JNull, skipn 4 s)
  else None.

(** Recursive descent on the JSON grammar.  [parse_value] expects its input
    at the first character of a value; [parse_elements] at the first element
    of a non-empty array, [parse_members] at the first member name of a
    non-empty object.  Every call spends one unit of [fuel]. *)
Fixpoint parse_value (fuel : nat) (s : jsstring) {struct fuel}
  : option (json * jsstring) :=
  match fuel with
  | O => None
  | S f =>
      match s with
      | [] => None
      | c :: r =>
          if (c =? chLBracket)%N then
            match skip_ws r with
            | d :: r' =>
                if (d =? chRBracket)%N then Some (JArray [], r')
                else match parse_elements f (d :: r') with
                     | Some (vs, rest) => Some (JArray vs, rest)
                     | None => None
                     end
            | [] => None
            end
          else if (c =? chLBrace)%N then
            match skip_ws r with
            | d :: r' =>
                if (d =? chRBrace)%N then Some (JObject [], r')
                else match parse_members f (d :: r') with
                     | Some (ms, rest) => Some (JObject ms, rest)
                     | None => None
                     end
            | [] => None
            end
          else if (c =? chQuote)%N then
            match parse_chars r with
            | Some (body, rest) => Some (JString body, rest)
            | None => None
            end
          else if ((c =? 45) || isDigit c)%N then parse_number s
          else parse_literal s
      end
  end

with parse_elements (fuel : nat) (s : jsstring) {struct fuel}
  : option (list json * jsstring) :=
  match fuel with
  | O => None
  | S f =>
      match parse_value f s with
      | None => None
      | Some (v, r) =>
          match skip_ws r with
          | c :: r' =>
              if (c =? chComma)%N then
                match parse_elements f (skip_ws r') with
                | Some (vs, rest) => Some (v :: vs, rest)
                | None => None
                end
              else if (c =? chRBracket)%N then Some ([v], r')
              else None
          | [] => None
          end
      end
  end

with parse_members (fuel : nat) (s : jsstring) {struct fuel}
  : option (list (jsstring * json) * jsstring) :=
  match fuel with
  | O => None
  | S f =>
      match s with
      | q :: r0 =>
          if (q =? chQuote)%N then
            match parse_chars r0 with
            | None => None
            | Some (key, r1) =>
                match skip_ws r1 with
                | c :: r2 =>
                    if (c =? chColon)%N then
                      match parse_value f (skip_ws r2) with
                      | None => None
                      | Some (v, r3) =>
                          match skip_ws r3 with
                          | d :: r4 =>
                              if (d =? chComma)%N then
                                match parse_members f (skip_ws r4) with
                                | Some (ms, rest) => Some ((key, v) :: ms, rest)
                                | None => None
                                end
                              else if (d =? chRBrace)%N then Some ([(key, v)], r4)
                              else None
                          | [] => None
                          end
                      end
                    else None
                | [] => None
                end
            end
          else None
      | [] => None
      end
  end.

(** Fuel that suffices for an input (see [parse_value_fuel]). *)
Definition parseFuel (s : jsstring) : nat := 2 * length s + 2.

(** [JSON.parse(text)]: one value between optional white space; [None] is
    the [SyntaxError]. *)
Definition JSON_parse (text : jsstring) : option json :=
  match parse_value (parseFuel text) (skip_ws text) with
  | Some (v, rest) =>
      match skip_ws rest with
      | [] => Some v
      | _ :: _ => None
      end
  | None => None
  end.

Definition isArray (v : json) : bool :=
  match v with JArray _ => true | _ => false end.

(** The value of the property [k] of an object built by [JSON.parse] or
    by an object literal: the last member of that name; [None] is
    [undefined]. *)
Fixpoint getMember (k : jsstring) (ms : list (jsstring * json)) : option json :=
  match ms with
  | [] => None
  | (k', v) :: r =>
      match getMember k r with
      | Some w => Some w
      | None => if jsstring_eqb k' k then Some v else None
      end
  end.

(** Whether a double is zero after rounding the decimal [m * 10^e]:
    it is when [m * 10^e <= 2^-1075] (ties to even). *)
Definition roundsToZero (m : N) (e : Z) : bool :=
  (m =? 0)%N
  || ((e <? 0)%Z && (Z.of_N m * 2 ^ 1075 <=? 10 ^ (- e))%Z).

(** ToBoolean. *)
Definition truthy (v : option json) : bool :=
  match v with
  | None => false
  | Some JNull => false
  | Some (JBool b) => b
  | Some (JNumber _ m e) => negb (roundsToZero m e)
  | Some (JString s) => match s with [] => false | _ => true end
  | Some (JArray _) => true
  | Some (JObject _) => true
  end.

(** [a || b] on values. *)
Definition orElse (a : option json) (b : json) : json :=
  match a with
  | Some v => if truthy a then v else b
  | None => b
  end.


(* ===================================================================== *)
(** ** Thrown values, external calls and the service's state               *)
(* ===================================================================== *)

(** What a [throw] carries: an instance of [Error] (identified with its
    message) or any other value. *)
Inductive thrown : Type :=
| ErrorObj (message : jsstring)
| NonError (v : json).

Inductive result (A : Type) : Type :=
| Ok (a : A)
| Throw (t : thrown).
Arguments Ok {A} a.
Arguments Throw {A} t.

(** A browser [File]: its size in bytes, its MIME type and the data URL
    [FileReader.readAsDataURL] yields for it. *)
Record File : Type := mkFile {
  fileSize : N;
  fileType : jsstring;
  fileDataURL : jsstring
}.

(** A content part of the generation request. *)
Inductive Part : Type :=
| TextPart (text : jsstring)
| InlinePart (data : option jsstring) (mimeType : jsstring).

(** The calls that leave the service. *)
Inductive event : Type :=
| EvEncode (f : File)
| EvGenerate (parts : list Part).

(** Module state: whether the lazily created client [aiInstance] exists,
    and the external calls issued so far, oldest first. *)
Record world : Type := mkWorld {
  aiInstance : bool;
  calls : list event
}.

Definition M (A : Type) : Type := world -> result A * world.

Definition ret {A} (a : A) : M A := fun w => (Ok a, w).

Definition bind {A B} (m : M A) (k : A -> M B) : M B :=
  fun w => match m w with
           | (Ok a, w') => k a w'
           | (Throw t, w') => (Throw t, w')
           end.

Definition throw {A} (t : thrown) : M A := fun w => (Throw t, w).

Definition tryCatch {A} (m : M A) (handler : thrown -> M A) : M A :=
  fun w => match m w with
           | (Ok a, w') => (Ok a, w')
           | (Throw t, w') => handler t w'
           end.

Definition liftResult {A} (r : result A) : M A := fun w => (r, w).

Definition emit (e : event) : M unit :=
  fun w => (Ok tt, mkWorld (aiInstance w) (calls w ++ [e])).

Definition setAiInstance : M unit :=
  fun w => (Ok tt, mkWorld true (calls w)).

Definition getWorld : M world := fun w => (Ok w, w).

Notation "x <- m ;; k" := (bind m (fun x => k))
  (at level 61, m at next level, right associativity).
Notation "m ;;; k" := (bind m (fun _ => k))
  (at level 61, right associativity).

(** [throw new Error(msg)]. *)
Definition throwError {A} (msg : jsstring) : M A := throw (ErrorObj msg).

(** [fileToGenerativePart]: the file is read as a data URL and the piece
    after the first comma is the payload ([split(',')[1]]). *)
Definition inlinePartOf (file : File) : Part :=
  InlinePart (nth_error (splitOn chComma (fileDataURL file) []) 1)
             (fileType file).

Definition fileToGenerativePart (file : File) : M Part :=
  emit (EvEncode file) ;;; ret (inlinePartOf file).

(** The inline-data limit of the single-image versions: [4 * 1024 * 1024]. *)
Definition maxImageSize : N := (4 * 1024 * 1024)%N.

Definition sigInvalidKey : jsstring := str "API key not valid".
Definition msgInvalidKey : jsstring :=
  str "The configured API key is invalid. Please check your environment variables.".
Definition msgKeyMissing : jsstring :=
  str "API_KEY is not configured. Please set the API_KEY environment variable in your hosting provider's settings.".
Definition msgNoInput : jsstring :=
  str "Please provide at least one input: PRD text, a Figma link, or an image.".
Definition msgImageTooLarge : jsstring :=
  str "Image file size exceeds the 4MB limit. Please upload a smaller image.".
Definition msgEmptyResponse : jsstring :=
  str "Received an empty response from the AI. The model may have refused to answer.".

(** A string used as a condition: the empty string is falsy. *)
Definition nonEmpty (s : jsstring) : bool :=
  match s with [] => false | _ :: _ => true end.

(** [getAiInstance] of the second and third versions: the client is created
    on first use and needs a non-empty [process.env.API_KEY]. *)
Definition getAiInstance (API_KEY : option jsstring) : M unit :=
  w <- getWorld ;;
  if aiInstance w then ret tt
  else match API_KEY with
       | Some (_ :: _) => setAiInstance
       | _ => throwError msgKeyMissing
       end.

(** The client exists already or can be created. *)
Definition clientAvailable (API_KEY : option jsstring) (w : world) : bool :=
  aiInstance w || match API_KEY with Some (_ :: _) => true | _ => false end.

(** A text between markdown code fences, the opening fence followed by
    the language [tag] (possibly empty). *)
Definition fenced (tag s : jsstring) : jsstring :=
  str "```" ++ tag ++ nl ++ s ++ nl ++ str "```".

(** A literal between double quotes, for writing JSON texts. *)
Definition quoted (s : string) : jsstring := dq ++ str s ++ dq.

(* ===================================================================== *)
(** ** First version of the service (services/geminiService.ts)            *)
(* ===================================================================== *)

Module V1.

Definition promptIntro : jsstring :=
  nl
  ++ str "You are an exceptionally meticulous and detail-oriented Senior QA Engineer. Your primary directive is to create the most exhaustive and comprehensive test suite possible from the provided materials." ++ nl
  ++ nl
  ++ str "**Your Mission:**" ++ nl
  ++ str "Scrutinize every line, word, and detail of the provided inputs to identify every possible test scenario. Your goal is to maximize the number of high-quality, relevant test cases to ensure zero defects escape to production." ++ nl
  ++ nl
  ++ str "**Analyze the following inputs with extreme care:**" ++ nl
  ++ nl
  ++ str "**1. Product Requirements Document (PRD) Content:**" ++ nl
  ++ str "---" ++ nl.

Definition promptFigma : jsstring :=
  nl
  ++ str "---" ++ nl
  ++ nl
  ++ str "**2. Figma Design Link (for UI/UX reference):**" ++ nl.

Definition promptTask : jsstring :=
  nl
  ++ nl
  ++ str "**Your Task:**" ++ nl
  ++ str "1.  **Read Carefully:** Perform a line-by-line analysis of the PRD. Extract every explicit and implicit requirement, user flow, and constraint." ++ nl
  ++ str "2.  **Generate Exhaustively:** Create a comprehensive list of functional test cases that covers every single feature mentioned. Think about all possible user interactions." ++ nl
  ++ str "3.  **Categorize Thoroughly:** For each feature, generate a full spectrum of tests:" ++ nl
  ++ str "    *   **Positive Test Cases:** Verify the functionality works as expected with valid inputs." ++ nl
  ++ str "    *   **Negative Test Cases:** Verify the system handles invalid inputs and error conditions gracefully." ++ nl
  ++ str "    *   **Edge/Boundary Cases:** Test the limits and boundaries of input fields and system constraints." ++ nl
  ++ str "4.  **Be Specific:** For each test case, you must provide all the fields defined in the schema. 'Test Steps' must be a clear, precise, and easy-to-follow sequence of actions, separated by newlines. 'Expected Result' must be unambiguous." ++ nl
  ++ str "5.  **Ensure Uniqueness:** The 'Test Case ID' for each case must be unique (e.g., TC-FUNC-001, TC-ERR-001)." ++ nl
  ++ nl
  ++ str "Return the output as a JSON array of objects, strictly conforming to the provided JSON schema. Do not include any additional text, explanations, or markdown formatting outside of the JSON array. Your response should be nothing but the JSON." ++ nl
  ++ str "  ".

Definition imageGiven : jsstring :=
  str "**3. Uploaded Image (for UI/UX and functional reference):**" ++ nl
  ++ str "An image has been provided. Analyze it in conjunction with the PRD and Figma link to understand the UI, layout, and functionality.".

Definition noFigma : jsstring :=
  str "No Figma link provided. Focus solely on the PRD's functional requirements.".

Definition createPrompt (prdText figmaLink : jsstring) (imageProvided : bool)
  : jsstring :=
  let imageInstruction := if imageProvided then imageGiven else [] in
  promptIntro ++ prdText ++ promptFigma
  ++ (if nonEmpty figmaLink then figmaLink else noFigma)
  ++ nl ++ nl ++ imageInstruction ++ promptTask.

Definition msgNoPrd : jsstring := str "PRD content cannot be empty.".
Definition msgFailed : jsstring :=
  str "Failed to generate test cases. Please check the console for details.".

Section Service.
(** The hosted model: the text of its response ([None] when absent), or
    what the call throws. *)
Variable generateContent : list Part -> result (option jsstring).
(** The message of the [SyntaxError] the engine's [JSON.parse] throws. *)
Variable syntaxErrorMessage : jsstring -> jsstring.

(** The [try] block around the generation call. *)
Definition tryBlock (parts : list Part) : M json :=
  emit (EvGenerate parts) ;;;
  responseText <- liftResult (generateContent parts) ;;
  match responseText with
  | Some (c :: t) =>
      match JSON_parse (c :: t) with
      | Some parsedJson => ret parsedJson
      | None => throwError (syntaxErrorMessage (c :: t))
      end
  | _ => throwError msgEmptyResponse
  end.

(** The [catch] clause. *)
Definition catchClause (error : thrown) : M json :=
  match error with
  | ErrorObj message =>
      if includes message sigInvalidKey then throwError msgInvalidKey
      else throwError msgFailed
  | NonError _ => throwError msgFailed
  end.

Definition generateTestCases (prdText figmaLink : jsstring)
    (imageFile : option File) : M json :=
  if negb (nonEmpty (trim prdText)) then throwError msgNoPrd
  else
    let prompt := createPrompt prdText figmaLink
                    (match imageFile with Some _ => true | None => false end) in
    parts <- match imageFile with
             | Some f =>
                 if (maxImageSize <? fileSize f)%N
                 then throwError msgImageTooLarge
                 else (imagePart <- fileToGenerativePart f ;;
                       ret [TextPart prompt; imagePart])
             | None => ret [TextPart prompt]
             end ;;
    tryCatch (tryBlock parts) catchClause.
End Service.

End V1.

(* ===================================================================== *)
(** ** Second version: lazy client, repair of truncated arrays             *)
(* ===================================================================== *)

Module V2.

Definition promptIntro : jsstring :=
  nl
  ++ str "You are an exceptionally meticulous and detail-oriented Senior QA Engineer. Your primary directive is to create the most exhaustive and comprehensive test suite possible from the provided materials." ++ nl
  ++ nl
  ++ str "**Your Mission:**" ++ nl
  ++ str "Scrutinize every line, word, and detail of the provided inputs to identify every possible test scenario. Your goal is to maximize the number of high-quality, relevant test cases to ensure zero defects escape to production." ++ nl
  ++ nl
  ++ str "**Analyze the following inputs with extreme care. Generate test cases based on the information that has been provided:**" ++ nl
  ++ nl.

Definition promptTask : jsstring :=
  nl
  ++ nl
  ++ str "**Your Task:**" ++ nl
  ++ str "1.  **Read Carefully:** Perform a line-by-line analysis of the provided materials. Extract every explicit and implicit requirement, user flow, and constraint from the available inputs." ++ nl
  ++ str "2.  **Generate Exhaustively:** Create a comprehensive list of functional and UI/UX test cases that covers every single feature mentioned or inferred. Think about all possible user interactions." ++ nl
  ++ str "3.  **Categorize by Type:** For each feature, generate a full spectrum of tests:" ++ nl
  ++ str "    *   **Positive Test Cases:** Verify the functionality works as expected with valid inputs." ++ nl
  ++ str "    *   **Negative Test Cases:** Verify the system handles invalid inputs and error conditions gracefully." ++ nl
  ++ str "    *   **Edge/Boundary Cases:** Test the limits and boundaries of input fields and system constraints." ++ nl
  ++ str "4.  **Categorize by Domain:** Classify each test case into one of two domains:" ++ nl
  ++ str "    *   **Functional:** Focuses on the underlying logic, business rules, calculations, and functionality described in the PRD. (e.g., " ++ dq ++ str "Verify user login with correct credentials" ++ dq ++ str ")." ++ nl
  ++ str "    *   **UI/UX:** Focuses on visual elements, layout, responsiveness, and user interaction based on the Figma design or image. (e.g., " ++ dq ++ str "Verify the login button is blue and in the top-right corner" ++ dq ++ str ")." ++ nl
  ++ str "5.  **Categorize by Suite Type:** Assign each test case to a test suite type:" ++ nl
  ++ str "    *   **Smoke:** Critical, high-level tests that ensure the main functionalities work. These are the most important tests." ++ nl
  ++ str "    *   **Sanity:** Tests that focus on a specific, recently changed, or new area of functionality to ensure it works as expected." ++ nl
  ++ str "    *   **Regression:** Comprehensive tests covering existing features to ensure they were not broken by new changes. Most test cases will fall into this category." ++ nl
  ++ str "6.  **Be Specific:** For each test case, you must provide all the fields defined in the schema, including 'domain' and 'suiteType'. 'Test Steps' must be a clear, precise, and easy-to-follow sequence of actions, separated by newlines. 'Expected Result' must be unambiguous." ++ nl
  ++ str "7.  **Ensure Uniqueness:** The 'testCaseId' for each case must be a simple, unique identifier following the format 'TC_XXX', starting from 'TC_001' and incrementing for each subsequent test case (e.g., TC_001, TC_002, TC_003)." ++ nl
  ++ nl
  ++ str "**Crucial Formatting Rule:** When generating string values for any JSON field, you MUST properly escape all double quotes (" ++ dq ++ str ") with a backslash (e.g., " ++ dq ++ str "The user sees a message saying \" ++ dq ++ str "Success!\" ++ dq ++ str "." ++ dq ++ str "). This is absolutely critical for the output to be valid JSON." ++ nl
  ++ nl
  ++ str "Return the output as a JSON array of objects, strictly conforming to the provided JSON schema. Do not include any additional text, explanations, or markdown formatting outside of the JSON array. Your response must be only the raw JSON." ++ nl
  ++ str "  ".

Definition imageGiven : jsstring :=
  str "**3. Uploaded Image (for UI/UX and functional reference):**" ++ nl
  ++ str "An image has been provided. Analyze it in conjunction with other provided materials to understand the UI, layout, and functionality.".

Definition headPrd : jsstring :=
  str "**1. Product Requirements Document (PRD) Content:**".
Definition headFigma : jsstring :=
  str "**2. Figma Design Link (for UI/UX reference):**".
Definition headImageNone : jsstring :=
  str "**3. Uploaded Image (for UI/UX and functional reference):**".
Definition notProvided : jsstring := str "Not provided.".
Definition fence : jsstring := str "```".

Definition createPrompt (prdText figmaLink : jsstring) (imageProvided : bool)
  : jsstring :=
  let prdSection :=
    if nonEmpty prdText
    then headPrd ++ nl ++ fence ++ nl ++ prdText ++ nl ++ fence
    else headPrd ++ nl ++ notProvided in
  let figmaSection :=
    if nonEmpty figmaLink
    then headFigma ++ nl ++ figmaLink
    else headFigma ++ nl ++ notProvided in
  let imageSection :=
    if imageProvided then imageGiven
    else headImageNone ++ nl ++ notProvided in
  promptIntro ++ prdSection ++ nl ++ nl ++ figmaSection ++ nl ++ nl
  ++ imageSection ++ promptTask.

Definition msgMalformed : jsstring :=
  str "The AI returned a malformed response that could not be parsed. Please check the console for the raw output and try simplifying your request.".
Definition msgNotArray : jsstring :=
  str "The AI response was not a valid JSON array.".
Definition msgUnknown : jsstring :=
  str "An unknown error occurred during test case generation.".

(** The text after the fences are removed (no trimming inside the fence). *)
Definition stripFences (jsonString : jsstring) : jsstring :=
  let text := trim jsonString in
  if startsWith text (str "```json") then
    let text := slice text 7 None in
    if endsWith text fence then slice text 0 (Some (-3)%Z) else text
  else if startsWith text fence then
    let text := slice text 3 None in
    if endsWith text fence then slice text 0 (Some (-3)%Z) else text
  else text.

Definition robustJsonParse (jsonString : jsstring) : result json :=
  let text := stripFences jsonString in
  match JSON_parse text with
  | Some v => Ok v
  | None =>
      let lastComma := lastIndexOf text (str ",") in
      let lastBrace := lastIndexOf text (str "}") in
      let text :=
        if (lastComma <? lastBrace)%Z
        then substring text 0 (lastBrace + 1) ++ str "]"
        else substring text 0 lastComma ++ str "]" in
      match JSON_parse text with
      | Some parsedJson => Ok parsedJson
      | None => Throw (ErrorObj msgMalformed)
      end
  end.

Section Service.
Variable API_KEY : option jsstring.
Variable generateContent : list Part -> result (option jsstring).

(** The [try] block around the generation call. *)
Definition tryBlock (parts : list Part) : M json :=
  emit (EvGenerate parts) ;;;
  responseText <- liftResult (generateContent parts) ;;
  match responseText with
  | Some (c :: t) =>
      parsedJson <- liftResult (robustJsonParse (c :: t)) ;;
      if isArray parsedJson then ret parsedJson
      else throwError msgNotArray
  | _ => throwError msgEmptyResponse
  end.

(** The [catch] clause. *)
Definition catchClause (error : thrown) : M json :=
  match error with
  | ErrorObj message =>
      if includes message sigInvalidKey then throwError msgInvalidKey
      else throw error
  | NonError _ => throwError msgUnknown
  end.

Definition generateTestCases (prdText figmaLink : jsstring)
    (imageFile : option File) : M json :=
  getAiInstance API_KEY ;;;
  if negb (nonEmpty (trim prdText)) && negb (nonEmpty (trim figmaLink))
     && (match imageFile with Some _ => false | None => true end)
  then throwError msgNoInput
  else
    let prompt := createPrompt prdText figmaLink
                    (match imageFile with Some _ => true | None => false end) in
    parts <- match imageFile with
             | Some f =>
                 if (maxImageSize <? fileSize f)%N
                 then throwError msgImageTooLarge
                 else (imagePart <- fileToGenerativePart f ;;
                       ret [TextPart prompt; imagePart])
             | None => ret [TextPart prompt]
             end ;;
    tryCatch (tryBlock parts) catchClause.
End Service.

End V2.

(* ===================================================================== *)
(** ** Third version: several images, focus hint, boundary-based repair    *)
(* ===================================================================== *)

Module V3.

Definition promptIntro : jsstring :=
  nl
  ++ str "You are an exceptionally meticulous and detail-oriented Senior QA Engineer. Your primary directive is to create the most exhaustive and comprehensive test suite possible from the provided materials." ++ nl
  ++ nl
  ++ str "**Your Mission:**" ++ nl
  ++ str "Scrutinize every line, word, and detail of the provided inputs to identify every possible test scenario. Your goal is to maximize the number of high-quality, relevant test cases to ensure zero defects escape to production." ++ nl
  ++ nl.

Definition promptAnalyze : jsstring :=
  nl
  ++ nl
  ++ str "**Analyze the following inputs with extreme care. Generate test cases based on the information that has been provided:**" ++ nl
  ++ nl.

Definition promptTask : jsstring :=
  nl
  ++ nl
  ++ str "**Your Task:**" ++ nl
  ++ str "1.  **Read Carefully:** Perform a line-by-line analysis of the provided materials. Extract every explicit and implicit requirement, user flow, and constraint from the available inputs." ++ nl
  ++ str "2.  **Generate Exhaustively:** Create a comprehensive list of functional and UI/UX test cases that covers every single feature mentioned or inferred. Think about all possible user interactions." ++ nl
  ++ str "3.  **Categorize by Type:** For each feature, generate a full spectrum of tests:" ++ nl
  ++ str "    *   **Positive Test Cases:** Verify the functionality works as expected with valid inputs." ++ nl
  ++ str "    *   **Negative Test Cases:** Verify the system handles invalid inputs and error conditions gracefully." ++ nl
  ++ str "    *   **Edge/Boundary Cases:** Test the limits and boundaries of input fields and system constraints." ++ nl
  ++ str "4.  **Categorize by Domain:** Classify each test case into one of two domains:" ++ nl
  ++ str "    *   **Functional:** Focuses on the underlying logic, business rules, calculations, and functionality described in the PRD. (e.g., " ++ dq ++ str "Verify user login with correct credentials" ++ dq ++ str ")." ++ nl
  ++ str "    *   **UI/UX:** Focuses on visual elements, layout, responsiveness, and user interaction based on the Figma design or image. (e.g., " ++ dq ++ str "Verify the login button is blue and in the top-right corner" ++ dq ++ str ")." ++ nl
  ++ str "5.  **Categorize by Suite Type:** Assign each test case to a test suite type:" ++ nl
  ++ str "    *   **Smoke:** Critical, high-level tests that ensure the main functionalities work. These are the most important tests." ++ nl
  ++ str "    *   **Sanity:** Tests that focus on a specific, recently changed, or new area of functionality to ensure it works as expected." ++ nl
  ++ str "    *   **Regression:** Comprehensive tests covering existing features to ensure they were not broken by new changes. Most test cases will fall into this category." ++ nl
  ++ str "6.  **Be Specific:** For each test case, you must provide all the fields defined in the schema, including 'domain' and 'suiteType'. 'Test Steps' must be a clear, precise, and easy-to-follow sequence of actions, separated by newlines. 'Expected Result' must be unambiguous." ++ nl
  ++ str "7.  **Ensure Uniqueness:** The 'Test Case ID' for each case must be a simple, unique identifier following the format 'TC_XXX', starting from 'TC_001' and incrementing for each subsequent test case (e.g., TC_001, TC_002, TC_003). Do not include extra information like domain or type in the ID." ++ nl
  ++ nl
  ++ str "**Crucial Formatting Rule:** When generating string values for any JSON field, you MUST properly escape all double quotes (" ++ dq ++ str ") with a backslash (e.g., " ++ dq ++ str "The user sees a message saying \" ++ dq ++ str "Success!\" ++ dq ++ str "." ++ dq ++ str "). This is absolutely critical for the output to be valid JSON." ++ nl
  ++ nl
  ++ str "Return the output as a JSON array of objects, strictly conforming to the provided JSON schema. Do not include any additional text, explanations, or markdown formatting outside of the JSON array. Your response must be only the raw JSON." ++ nl
  ++ str "  ".

Definition imagesGivenTail : jsstring :=
  str " (for UI/UX and functional reference):**" ++ nl
  ++ str "Images have been provided. Analyze them in conjunction with other provided materials to understand the UI, layout, and functionality.".

Definition headPrd : jsstring :=
  str "**1. Product Requirements Document (PRD) Content:**".
Definition headFigma : jsstring :=
  str "**2. Figma Design Link (for UI/UX reference):**".
Definition headImages : jsstring := str "**3. Uploaded Images".
Definition headImagesNone : jsstring :=
  str "**3. Uploaded Images (for UI/UX and functional reference):**".
Definition headFocus : jsstring := str "**Primary Focus for this Generation:**".
Definition notProvided : jsstring := str "Not provided.".
Definition fence : jsstring := str "```".
Definition rule : jsstring := str "---".

Definition prdSection (prdText : jsstring) : jsstring :=
  if nonEmpty prdText
  then headPrd ++ nl ++ fence ++ nl ++ prdText ++ nl ++ fence
  else headPrd ++ nl ++ notProvided.

Definition figmaSection (figmaLink : jsstring) : jsstring :=
  if nonEmpty figmaLink
  then headFigma ++ nl ++ figmaLink
  else headFigma ++ nl ++ notProvided.

Definition imageSection (imageCount : N) : jsstring :=
  if (0 <? imageCount)%N
  then headImages ++ str " (" ++ numberToString imageCount ++ str ")"
       ++ imagesGivenTail
  else headImagesNone ++ nl ++ notProvided.

Definition focusSection (focusPrompt : jsstring) : jsstring :=
  if nonEmpty focusPrompt
  then headFocus ++ nl ++ rule ++ nl ++ focusPrompt ++ nl ++ rule ++ nl
  else [].

Definition createPrompt (prdText figmaLink : jsstring) (imageCount : N)
    (focusPrompt : jsstring) : jsstring :=
  promptIntro ++ focusSection focusPrompt ++ promptAnalyze
  ++ prdSection prdText ++ nl ++ nl ++ figmaSection figmaLink ++ nl ++ nl
  ++ imageSection imageCount ++ promptTask.

Definition msgNotArray : jsstring :=
  str "The AI returned a response that does not appear to be a JSON array.".
Definition msgMalformed : jsstring :=
  str "The AI returned a malformed response that could not be parsed. Please try simplifying your request or regenerating.".
Definition msgNotList : jsstring :=
  str "The AI response was not in the expected format (a list of test cases).".
Definition msgUnknown : jsstring :=
  str "An unknown error occurred while generating test cases. Please check the console for details.".

(** The first step of [robustJsonParse]: trim, remove one pair of fences,
    trim again. *)
Definition stripFences (jsonString : jsstring) : jsstring :=
  let text := trim jsonString in
  if startsWith text (str "```json") then
    trim (slice text 7 (if endsWith text fence then Some (-3)%Z else None))
  else if startsWith text fence then
    trim (slice text 3 (if endsWith text fence then Some (-3)%Z else None))
  else text.

(** [Array.isArray(parsed) ? parsed : [parsed]]. *)
Definition asArray (parsed : json) : json :=
  if isArray parsed then parsed else JArray [parsed].

(** The slice from the first bracket through the last brace. *)
Definition finalAttemptStr (text : jsstring) : jsstring :=
  substring text (indexOf text (str "[")) (lastIndexOf text (str "}") + 1).

(** The same slice with the array closed. *)
Definition potentialJson (text : jsstring) : jsstring :=
  finalAttemptStr text ++ str "]".

Definition robustJsonParse (jsonString : jsstring) : result json :=
  let text := stripFences jsonString in
  match JSON_parse text with
  | Some v => Ok v
  | None =>
      let startIndex := indexOf text (str "[") in
      if (startIndex =? -1)%Z then Throw (ErrorObj msgNotArray)
      else
        let lastBraceIndex := lastIndexOf text (str "}") in
        if (lastBraceIndex <? startIndex)%Z then Ok (JArray [])
        else
          match JSON_parse (potentialJson text) with
          | Some parsed => Ok (asArray parsed)
          | None =>
              match JSON_parse (finalAttemptStr text) with
              | Some parsed => Ok (asArray parsed)
              | None => Throw (ErrorObj msgMalformed)
              end
          end
  end.

(** The loop that encodes the images and pushes them on [parts]. *)
Fixpoint encodeImages (imageFiles : list File) (parts : list Part)
  : M (list Part) :=
  match imageFiles with
  | [] => ret parts
  | imageFile :: rest =>
      imagePart <- fileToGenerativePart imageFile ;;
      encodeImages rest (parts ++ [imagePart])
  end.

Section Service.
Variable API_KEY : option jsstring.
Variable generateContent : list Part -> result (option jsstring).

(** The [try] block around the generation call. *)
Definition tryBlock (parts : list Part) : M json :=
  emit (EvGenerate parts) ;;;
  responseText <- liftResult (generateContent parts) ;;
  match responseText with
  | Some (c :: t) =>
      parsedJson <- liftResult (robustJsonParse (c :: t)) ;;
      if isArray parsedJson then ret parsedJson
      else throwError msgNotList
  | _ => throwError msgEmptyResponse
  end.

(** The [catch] clause. *)
Definition catchClause (error : thrown) : M json :=
  match error with
  | ErrorObj message =>
      if includes message sigInvalidKey then throwError msgInvalidKey
      else throw error
  | NonError _ => throwError msgUnknown
  end.

Definition generateTestCases (prdText figmaLink : jsstring)
    (imageFiles : list File) (focusPrompt : jsstring) : M json :=
  getAiInstance API_KEY ;;;
  if negb (nonEmpty (trim prdText)) && negb (nonEmpty (trim figmaLink))
     && (length imageFiles =? 0)%nat
  then throwError msgNoInput
  else
    let prompt := createPrompt prdText figmaLink
                    (N.of_nat (length imageFiles)) focusPrompt in
    parts <- encodeImages imageFiles [TextPart prompt] ;;
    tryCatch (tryBlock parts) catchClause.
End Service.

End V3.

(* ===================================================================== *)
(** ** The application component: status, export rows                      *)
(* ===================================================================== *)

Module App.

(** The own enumerable properties an object spread copies. *)
Definition indexKeys {A} (f : A -> json) (l : list A) : list (jsstring * json) :=
  map (fun p => (numberToString (N.of_nat (fst p)), f (snd p)))
      (combine (seq 0 (length l)) l).

Definition spread (v : json) : list (jsstring * json) :=
  match v with
  | JObject ms => ms
  | JArray items => indexKeys (fun x => x) items
  | JString s => indexKeys (fun c => JString [c]) s
  | _ => []
  end.

(** [handleGenerate]: [results.map(tc => ({...tc, status: Untested}))]. *)
Definition withStatus (tc : json) : list (jsstring * json) :=
  spread tc ++ [(str "status", JString (str "Untested"))].

Definition resultsWithStatus (results : list json) : list (list (jsstring * json)) :=
  map withStatus results.

(** [handleDownloadExcel]: the worksheet row of one test case.  A property
    that is [undefined] is left out of the row object by the sheet writer;
    here it is kept as [None]. *)
Definition worksheetRow (tc : list (jsstring * json))
  : list (jsstring * option json) :=
  [ (str "TC_ID", getMember (str "testCaseId") tc);
    (str "Scenario", getMember (str "testScenario") tc);
    (str "pre-condition", getMember (str "preConditions") tc);
    (str "test steps", getMember (str "testSteps") tc);
    (str "test data", getMember (str "testData") tc);
    (str "expected result", getMember (str "expectedResult") tc);
    (str "domain", Some (orElse (getMember (str "domain") tc) (JString (str "Functional"))));
    (str "priority", getMember (str "priority") tc);
    (str "test suite type", Some (orElse (getMember (str "suiteType") tc) (JString (str "Regression"))));
    (str "type", Some (orElse (getMember (str "type") tc) (JString (str "Positive"))));
    (str "status", Some (orElse (getMember (str "status") tc) (JString (str "Untested")))) ].

Definition rowField (k : jsstring) (row : list (jsstring * option json))
  : option json :=
  match find (fun p => jsstring_eqb (fst p) k) row with
  | Some (_, v) => v
  | None => None
  end.

End App.

(* ===================================================================== *)
(** ** Vocabulary of the statements                                        *)
(* ===================================================================== *)

(** The content parts the third version hands to the model: the
    instruction text, then the images in the order given. *)
Definition requestParts (prdText figmaLink : jsstring) (imageFiles : list File)
    (focusPrompt : jsstring) : list Part :=
  TextPart (V3.createPrompt prdText figmaLink (N.of_nat (length imageFiles))
                            focusPrompt)
  :: map inlinePartOf imageFiles.

(** The test of [generateTestCases] that rejects a request: text and
    link blank, no image. *)
Definition noInput (prdText figmaLink : jsstring) (imageFiles : list File) : bool :=
  negb (nonEmpty (trim prdText)) && negb (nonEmpty (trim figmaLink))
  && (length imageFiles =? 0)%nat.

(** Strings made of the characters [trim] removes, and of JSON white space. *)
Definition allWhite (w : jsstring) : Prop :=
  Forall (fun c => isWhiteSpace c = true) w.
Definition allJsonWs (w : jsstring) : Prop :=
  Forall (fun c => isJsonWs c = true) w.

(** [r] is what a parser leaves of [s] after reading at least one character. *)
Definition Rest (s r : jsstring) : Prop := exists x c, s = x :: c ++ r.

(** What the three parsers leave: a value parser reads at least one
    character; the element and member loops end on the closing bracket. *)
Definition ValueRest (f : nat) : Prop :=
  forall s v r, parse_value f s = Some (v, r) -> Rest s r.
Definition ElementsRest (f : nat) : Prop :=
  forall s vs r, parse_elements f s = Some (vs, r) ->
                 exists c, s = c ++ chRBracket :: r.
Definition MembersRest (f : nat) : Prop :=
  forall s ms r, parse_members f s = Some (ms, r) ->
                 exists c, s = c ++ chRBrace :: r.

(** The result of the parsers does not depend on the fuel once there is
    enough of it. *)
Definition FuelEnough (f : nat) : Prop :=
  forall f' s,
    (2 * length s + 1 <= f -> 2 * length s + 1 <= f' ->
     parse_value f s = parse_value f' s) /\
    (2 * length s + 2 <= f -> 2 * length s + 2 <= f' ->
     parse_elements f s = parse_elements f' s) /\
    (2 * length s + 2 <= f -> 2 * length s + 2 <= f' ->
     parse_members f s = parse_members f' s).

(** The marker of an input that was not given. *)
Definition marker : jsstring := str "Not provided".

(* ===================================================================== *)
(** ** Sample inputs                                                       *)
(* ===================================================================== *)

Module Samples.

(** The text of one complete object, without its closing brace. *)
Definition firstBody : jsstring :=
  str "{" ++ quoted "testCaseId" ++ str ":" ++ quoted "TC_001" ++ str ","
  ++ quoted "testScenario" ++ str ":" ++ quoted "a".

(** The beginning of a second object, cut inside a member name. *)
Definition cutTail : jsstring :=
  str ",{" ++ quoted "testCaseId" ++ str ":" ++ quoted "TC_002" ++ str ","
  ++ dq ++ str "testSc".

(** An array cut after its first object. *)
Definition truncated : jsstring :=
  (chLBracket :: firstBody ++ [chRBrace]) ++ cutTail.

Definition firstRecord : json :=
  JObject [ (str "testCaseId", JString (str "TC_001"));
            (str "testScenario", JString (str "a")) ].

(** An array cut inside a second object that holds a complete nested
    object. *)
Definition nestedBody : jsstring := str "{" ++ quoted "a" ++ str ":1".
Definition nestedTail : jsstring :=
  str ",{" ++ quoted "b" ++ str ":{" ++ quoted "c" ++ str ":2},"
  ++ dq ++ str "d".
Definition nestedTruncated : jsstring :=
  (chLBracket :: nestedBody ++ [chRBrace]) ++ nestedTail.
Definition nestedRest : jsstring := dq ++ str ":3}]".

(** A batch of one record that has neither domain, suite type nor type. *)
Definition bareBatch : jsstring :=
  str "[{" ++ quoted "testCaseId" ++ str ":" ++ quoted "TC_001" ++ str "}]".
Definition bareRecord : json :=
  JObject [ (str "testCaseId", JString (str "TC_001")) ].

(** A single object instead of an array. *)
Definition singleObject : jsstring :=
  str "{" ++ quoted "testCaseId" ++ str ":" ++ quoted "TC_001" ++ str "}".

(** A response that is fenced already. *)
Definition fencedAlready : jsstring := str "```[1]```".

Definition someKey : option jsstring := Some (str "key").
Definition freshWorld : world := mkWorld false [].
Definition smallImage : File := mkFile 10 (str "image/png") (str "data:image/png;base64,AAAA").

(** The response of the end-to-end scenario: one record with a type and
    without domain and suite type. *)
Definition passwordResponse : jsstring :=
  str "[{" ++ quoted "testCaseId" ++ str ":" ++ quoted "TC_001" ++ str ","
  ++ quoted "testScenario" ++ str ":" ++ quoted "Password reset with valid email" ++ str ","
  ++ quoted "preConditions" ++ str ":" ++ quoted "User has an account" ++ str ","
  ++ quoted "testSteps" ++ str ":"
  ++ quoted "1. Navigate to login\n2. Click Forgot Password\n3. Enter valid email" ++ str ","
  ++ quoted "testData" ++ str ":" ++ quoted "user@example.com" ++ str ","
  ++ quoted "expectedResult" ++ str ":" ++ quoted "Reset email is sent" ++ str ","
  ++ quoted "priority" ++ str ":" ++ quoted "High" ++ str ","
  ++ quoted "type" ++ str ":" ++ quoted "Positive" ++ str "}]".

(** A text with a no-break space in front of an empty array. *)
Definition paddedEmpty : jsstring := 160%N :: str "[]".

(** A model that answers every request with the same text. *)
Definition answering (text : jsstring) : list Part -> result (option jsstring) :=
  fun _ => Ok (Some text).

(** A model whose call throws. *)
Definition failing (t : thrown) : list Part -> result (option jsstring) :=
  fun _ => Throw t.

End Samples.

(* ===================================================================== *)
(** ** Further vocabulary                                                  *)
(* ===================================================================== *)

(** The content parts of the single-image versions: the instruction text,
    then the image when there is one. *)
Definition singleParts (prompt : jsstring) (imageFile : option File) : list Part :=
  match imageFile with
  | Some f => [TextPart prompt; inlinePartOf f]
  | None => [TextPart prompt]
  end.

(* ===================================================================== *)
(** ** Further sample inputs                                               *)
(* ===================================================================== *)

Module Cases.

(** A valid array with white space around and inside it. *)
Definition paddedArray : jsstring :=
  str "  [ {" ++ quoted "a" ++ str ": 1} ]" ++ nl.
Definition paddedValue : json := JArray [JObject [(str "a", JNumber false 1 0)]].

(** The text of one complete object, without its closing brace. *)
Definition cutBody : jsstring := str "{" ++ quoted "a" ++ str ":1".

Definition exactImage : File :=
  mkFile maxImageSize (str "image/png") (str "data:image/png;base64,AAAA").

Definition readyWorld : world := mkWorld true [].

End Cases.

(* ===================================================================== *)
(** ** Files of the browser, with their names                              *)
(* ===================================================================== *)

(** A [File] as the components read it: the service reads size, type and
    content, the components also the name. *)
Record NamedFile : Type := mkNamedFile {
  fileName : jsstring;
  fileBody : File
}.

(* ===================================================================== *)
(** ** The application component: copying the table as TSV                 *)
(* ===================================================================== *)

Module Sheet.

Definition chTab : char16 := 9%N.
Definition tab : jsstring := [chTab].

(** A test case of the table: the members of its object. *)
Definition record : Type := list (jsstring * json).

(** [parts.join(sep)] on strings. *)
Fixpoint join (sep : jsstring) (parts : list jsstring) : jsstring :=
  match parts with
  | [] => []
  | [p] => p
  | p :: rest => p ++ sep ++ join sep rest
  end.

(** All results, or [None] as soon as one is missing (an exception). *)
Fixpoint traverse {A B} (f : A -> option B) (l : list A) : option (list B) :=
  match l with
  | [] => Some []
  | x :: r =>
      match f x, traverse f r with
      | Some y, Some ys => Some (y :: ys)
      | _, _ => None
      end
  end.

Definition hasOwn (k : jsstring) (ms : list (jsstring * json)) : bool :=
  match getMember k ms with Some _ => true | None => false end.

Section Tsv.

(** [Number.prototype.toString] of the double a decimal rounds to. *)
Variable numberToText : bool -> N -> Z -> jsstring.

(** [String(v)].  An array is the comma-joined text of its elements, [null]
    giving the empty text; an object is [[object Object]], unless it has a
    member [toString], which hides the inherited method and cannot be
    called: the conversion then throws ([None]). *)
Fixpoint toText (v : json) : option jsstring :=
  match v with
  | JNull => Some (str "null")
  | JBool true => Some (str "true")
  | JBool false => Some (str "false")
  | JNumber neg m e => Some (numberToText neg m e)
  | JString s => Some s
  | JArray items =>
      (fix elements (l : list json) : option jsstring :=
         match l with
         | [] => Some []
         | x :: rest =>
             match (match x with JNull => Some [] | _ => toText x end) with
             | None => None
             | Some t =>
                 match rest with
                 | [] => Some t
                 | _ :: _ =>
                     match elements rest with
                     | Some u => Some (t ++ str "," ++ u)
                     | None => None
                     end
                 end
             end
         end) items
  | JObject ms =>
      if hasOwn (str "toString") ms then None else Some (str "[object Object]")
  end.

(** [cell.replace(/\t/g, ' ')]. *)
Definition replaceTabs (cell : jsstring) : jsstring :=
  map (fun c => if (c =? chTab)%N then 32%N else c) cell.

(** The search of [formatCell] for a double quote or a line feed. *)
Definition needsQuotes (cell : jsstring) : bool :=
  existsb (fun c => (c =? chQuote)%N || (c =? chLF)%N) cell.

(** Every double quote of the cell is doubled. *)
Definition doubleQuotes (cell : jsstring) : jsstring :=
  flat_map (fun c => if (c =? chQuote)%N then [chQuote; chQuote] else [c]) cell.

Definition formatCell (cellData : option json) : option jsstring :=
  match toText (orElse cellData (JString [])) with
  | None => None
  | Some text =>
      let cell := replaceTabs text in
      if needsQuotes cell then Some (dq ++ doubleQuotes cell ++ dq)
      else Some cell
  end.

Definition headers : list jsstring :=
  [ str "TC_ID"; str "Scenario"; str "pre-condition"; str "test steps";
    str "test data"; str "expected result"; str "domain"; str "priority";
    str "test suite type"; str "type"; str "status" ].

Definition dataRow (tc : record) : list (option json) :=
  [ getMember (str "testCaseId") tc;
    getMember (str "testScenario") tc;
    getMember (str "preConditions") tc;
    getMember (str "testSteps") tc;
    getMember (str "testData") tc;
    getMember (str "expectedResult") tc;
    Some (orElse (getMember (str "domain") tc) (JString (str "Functional")));
    getMember (str "priority") tc;
    Some (orElse (getMember (str "suiteType") tc) (JString (str "Regression")));
    Some (orElse (getMember (str "type") tc) (JString (str "Positive")));
    Some (orElse (getMember (str "status") tc) (JString (str "Untested"))) ].

(** The text of one row: [row.map(formatCell).join('\t')]. *)
Definition formatRow (tc : record) : option jsstring :=
  match traverse formatCell (dataRow tc) with
  | Some cells => Some (join tab cells)
  | None => None
  end.

Definition formatTestCasesAsTsv (testCases : list record) : option jsstring :=
  match traverse formatRow testCases with
  | Some rows => Some (join nl (join tab headers :: rows))
  | None => None
  end.

End Tsv.

(** Every member of the record is a string. *)
Definition allStrings (tc : record) : Prop :=
  Forall (fun kv => exists s, snd kv = JString s) tc.

End Sheet.

(* ===================================================================== *)
(** ** The application component: test cases, history and storage          *)
(* ===================================================================== *)

Module Workspace.

Definition record : Type := Sheet.record.

(** The test cases are objects that the table and the history share: a
    case is held by its address in [objects]. *)
Definition ref : Type := nat.

(** An entry of the history ([HistoryEntry]) over cases of type [C]:
    addresses in the state of the component, values in [localStorage].
    [entryFocus] and [entryImages] are optional members; an image is kept
    as its data URL and its name. *)
Record HistoryEntry (C : Type) : Type := mkEntry {
  entryId : Z;
  entryPrd : jsstring;
  entryLink : jsstring;
  entryFocus : option jsstring;
  entryImages : option (list (jsstring * jsstring));
  entryCases : list C
}.

(** The operations of the component on [localStorage] that took effect:
    the history of a user set under its key, to the value handed to
    [JSON.stringify], or removed; the current user set or removed; the
    theme set. *)
Inductive storageOp : Type :=
| SetHistory (key : jsstring) (value : list (HistoryEntry record))
| RemoveHistory (key : jsstring)
| SetCurrentUser (email : jsstring)
| RemoveCurrentUser
| SetTheme (theme : jsstring).

(** What [localStorage.getItem] gives to code that parses it: nothing (or
    the empty text), a text that [JSON.parse] rejects, or the text of a
    value [a] as the component stores it.  A text that parses to a value of
    another shape is not covered. *)
Inductive item (A : Type) : Type :=
| NoItem
| Unparsable
| Item (a : A).

Arguments NoItem {A}.
Arguments Unparsable {A}.

(** The state of the component kept here, the objects it holds and the
    operations on [localStorage] so far, oldest first.  The side bar, the
    header, the loading message and the status of the Sheets button are
    left out: no handler below reads them. *)
Record AppState : Type := mkApp {
  currentUser : option jsstring;
  theme : jsstring;
  prdText : jsstring;
  figmaLink : jsstring;
  focusPrompt : jsstring;
  images : list NamedFile;
  testCases : list ref;
  isLoading : bool;
  error : option jsstring;
  exportStatus : jsstring;
  copyStatus : jsstring;
  showSheetsCopyMessage : bool;
  history : list (HistoryEntry ref);
  objects : list record;
  writes : list storageOp
}.

Definition deref (objs : list record) (r : ref) : record := nth r objs [].

(** The cases of the table and of an entry, as values. *)
Definition shownCases (st : AppState) : list record :=
  map (deref (objects st)) (testCases st).

Definition valueOfEntry (objs : list record) (e : HistoryEntry ref)
  : HistoryEntry record :=
  mkEntry (entryId e) (entryPrd e) (entryLink e) (entryFocus e)
          (entryImages e) (map (deref objs) (entryCases e)).

(** New objects: their addresses follow those in use. *)
Definition allocate (fresh objs : list record) : list ref * list record :=
  (seq (length objs) (length fresh), objs ++ fresh).

Definition historyKey (email : jsstring) : jsstring :=
  str "testCaseHistory_" ++ email.

(** [saveHistory] as the closure of a render holds it: [user] is the
    current user of that render.  [stored] is what [localStorage.setItem]
    does: it returns, or it throws when the storage refuses the item; the
    history of the component is set before. *)
Definition saveHistoryFor (user : option jsstring) (stored : result unit)
    (updatedHistory : list (HistoryEntry ref)) (st : AppState)
  : result unit * AppState :=
  match user with
  | None => (Ok tt, st)
  | Some email =>
      match stored with
      | Ok _ =>
          (Ok tt,
           mkApp (currentUser st) (theme st) (prdText st) (figmaLink st)
                 (focusPrompt st) (images st) (testCases st) (isLoading st)
                 (error st) (exportStatus st) (copyStatus st)
                 (showSheetsCopyMessage st) updatedHistory (objects st)
                 (writes st ++ [SetHistory (historyKey email)
                                  (map (valueOfEntry (objects st))
                                       updatedHistory)]))
      | Throw e =>
          (Throw e,
           mkApp (currentUser st) (theme st) (prdText st) (figmaLink st)
                 (focusPrompt st) (images st) (testCases st) (isLoading st)
                 (error st) (exportStatus st) (copyStatus st)
                 (showSheetsCopyMessage st) updatedHistory (objects st)
                 (writes st))
      end
  end.

(** [saveHistory] called in the state it was made in. *)
Definition saveHistory (stored : result unit)
    (updatedHistory : list (HistoryEntry ref)) (st : AppState)
  : result unit * AppState :=
  saveHistoryFor (currentUser st) stored updatedHistory st.

(** [handleLogin]: the user is set, then stored. *)
Definition handleLogin (email : jsstring) (stored : result unit) (st : AppState)
  : result unit * AppState :=
  match stored with
  | Ok _ =>
      (Ok tt,
       mkApp (Some email) (theme st) (prdText st) (figmaLink st) (focusPrompt st)
             (images st) (testCases st) (isLoading st) (error st)
             (exportStatus st) (copyStatus st) (showSheetsCopyMessage st)
             (history st) (objects st) (writes st ++ [SetCurrentUser email]))
  | Throw e =>
      (Throw e,
       mkApp (Some email) (theme st) (prdText st) (figmaLink st) (focusPrompt st)
             (images st) (testCases st) (isLoading st) (error st)
             (exportStatus st) (copyStatus st) (showSheetsCopyMessage st)
             (history st) (objects st) (writes st))
  end.

Definition handleLogout (st : AppState) : AppState :=
  mkApp None (theme st) [] [] [] [] [] (isLoading st) None
        (exportStatus st) (copyStatus st) (showSheetsCopyMessage st)
        [] (objects st) (writes st ++ [RemoveCurrentUser]).

Definition toggleTheme (st : AppState) : AppState :=
  mkApp (currentUser st)
        (if jsstring_eqb (theme st) (str "light") then str "dark" else str "light")
        (prdText st) (figmaLink st) (focusPrompt st) (images st) (testCases st)
        (isLoading st) (error st) (exportStatus st) (copyStatus st)
        (showSheetsCopyMessage st) (history st) (objects st) (writes st).

(** The effect run when the component is mounted: the stored user, when
    there is one, becomes the current user, and an item that does not
    parse is removed; the theme is the stored one or, for none, the one
    the system prefers. *)
Definition mountEffect (savedUser : item jsstring) (savedTheme : option jsstring)
    (prefersDark : bool) (st : AppState) : AppState :=
  mkApp (match savedUser with Item email => Some email | _ => currentUser st end)
        (match savedTheme with
         | Some (c :: t) => c :: t
         | _ => if prefersDark then str "dark" else str "light"
         end)
        (prdText st) (figmaLink st) (focusPrompt st) (images st) (testCases st)
        (isLoading st) (error st) (exportStatus st) (copyStatus st)
        (showSheetsCopyMessage st) (history st) (objects st)
        (match savedUser with
         | Unparsable => writes st ++ [RemoveCurrentUser]
         | _ => writes st
         end).

(** The effect run after the theme changed: the theme is stored.  When the
    storage refuses it the effect throws. *)
Definition themeEffect (stored : result unit) (st : AppState)
  : result unit * AppState :=
  match stored with
  | Ok _ =>
      (Ok tt,
       mkApp (currentUser st) (theme st) (prdText st) (figmaLink st)
             (focusPrompt st) (images st) (testCases st) (isLoading st)
             (error st) (exportStatus st) (copyStatus st)
             (showSheetsCopyMessage st) (history st) (objects st)
             (writes st ++ [SetTheme (theme st)]))
  | Throw e => (Throw e, st)
  end.

(** The objects of a stored history: every case of every entry is a new
    object. *)
Fixpoint loadEntries (saved : list (HistoryEntry record)) (objs : list record)
  : list (HistoryEntry ref) * list record :=
  match saved with
  | [] => ([], objs)
  | e :: rest =>
      let cases := allocate (entryCases e) objs in
      let more := loadEntries rest (snd cases) in
      (mkEntry (entryId e) (entryPrd e) (entryLink e) (entryFocus e)
               (entryImages e) (fst cases) :: fst more,
       snd more)
  end.

(** The effect run after the current user changed: with a user, the
    history stored under its key becomes the history, the empty one when
    there is none, and an item that does not parse is removed. *)
Definition loadEffect (saved : item (list (HistoryEntry record))) (st : AppState)
  : AppState :=
  match currentUser st with
  | None => st
  | Some email =>
      match saved with
      | NoItem =>
          mkApp (currentUser st) (theme st) (prdText st) (figmaLink st)
                (focusPrompt st) (images st) (testCases st) (isLoading st)
                (error st) (exportStatus st) (copyStatus st)
                (showSheetsCopyMessage st) [] (objects st) (writes st)
      | Item h =>
          let loaded := loadEntries h (objects st) in
          mkApp (currentUser st) (theme st) (prdText st) (figmaLink st)
                (focusPrompt st) (images st) (testCases st) (isLoading st)
                (error st) (exportStatus st) (copyStatus st)
                (showSheetsCopyMessage st) (fst loaded) (snd loaded) (writes st)
      | Unparsable =>
          mkApp (currentUser st) (theme st) (prdText st) (figmaLink st)
                (focusPrompt st) (images st) (testCases st) (isLoading st)
                (error st) (exportStatus st) (copyStatus st)
                (showSheetsCopyMessage st) (history st) (objects st)
                (writes st ++ [RemoveHistory (historyKey email)])
      end
  end.

Definition handleRefresh (st : AppState) : AppState :=
  mkApp (currentUser st) (theme st) [] [] [] [] [] (isLoading st) None [] []
        false (history st) (objects st) (writes st).

(** [confirmed] is the answer to [window.confirm]. *)
Definition handleClear (confirmed : bool) (st : AppState) : AppState :=
  if confirmed
  then mkApp (currentUser st) (theme st) (prdText st) (figmaLink st)
             (focusPrompt st) (images st) [] (isLoading st) (error st)
             (exportStatus st) (copyStatus st) false (history st) (objects st)
             (writes st)
  else st.

(** The result is what the handler throws, if anything: the write may be
    refused, and nothing catches it here. *)
Definition handleDeleteHistory (id : Z) (stored : result unit) (st : AppState)
  : result unit * AppState :=
  saveHistory stored
    (filter (fun item => negb (entryId item =? id)%Z) (history st)) st.

Definition handleClearHistory (confirmed : bool) (stored : result unit)
    (st : AppState) : result unit * AppState :=
  if confirmed then saveHistory stored [] st else (Ok tt, st).

(** The copy of a case with its status, or [Untested] for none. *)
Definition keepStatus (tc : record) : record :=
  tc ++ [(str "status",
          orElse (getMember (str "status") tc) (JString (str "Untested")))].

Section History.

(** [base64ToFile(base64, name)] of the utilities. *)
Variable base64ToFile : jsstring -> jsstring -> NamedFile.

Definition handleSelectHistory (id : Z) (st : AppState) : AppState :=
  match find (fun item => (entryId item =? id)%Z) (history st) with
  | Some entry =>
      let casesWithStatus :=
        allocate (map (fun r => keepStatus (deref (objects st) r))
                      (entryCases entry))
                 (objects st) in
      mkApp (currentUser st) (theme st) (entryPrd entry) (entryLink entry)
            (match entryFocus entry with
             | Some (c :: t) => c :: t
             | _ => []
             end)
            (match entryImages entry with
             | Some (i :: more) =>
                 map (fun imgData => base64ToFile (fst imgData) (snd imgData))
                     (i :: more)
             | _ => []
             end)
            (fst casesWithStatus)
            (isLoading st) None [] [] false (history st)
            (snd casesWithStatus) (writes st)
  | None => st
  end.

End History.

(** The assignment of the text [value] to the member [field] of an object:
    an own member gets the value; [__proto__], when it is not an own
    member, is the inherited accessor, which ignores a text; any other
    name becomes a new member. *)
Definition setText (field value : jsstring) (ms : record) : record :=
  if Sheet.hasOwn field ms
  then map (fun kv => if jsstring_eqb (fst kv) field
                      then (fst kv, JString value) else kv) ms
  else if jsstring_eqb field (str "__proto__") then ms
  else ms ++ [(field, JString value)].

Fixpoint updateObject (r : ref) (f : record -> record) (objs : list record)
  : list record :=
  match objs, r with
  | [], _ => []
  | o :: rest, O => f o :: rest
  | o :: rest, S r' => o :: updateObject r' f rest
  end.

(** [updateTestCase]: the new array holds the objects of the old one; the
    object at [index], when there is one, is changed in place. *)
Definition updateTestCase (index : nat) (field value : jsstring) (st : AppState)
  : AppState :=
  match nth_error (testCases st) index with
  | Some r =>
      mkApp (currentUser st) (theme st) (prdText st) (figmaLink st)
            (focusPrompt st) (images st) (testCases st) (isLoading st)
            (error st) (exportStatus st) (copyStatus st)
            (showSheetsCopyMessage st) (history st)
            (updateObject r (setText field value) (objects st))
            (writes st)
  | None => st
  end.

(** The message shown for a thrown value: its own message for an [Error],
    a fixed text otherwise. *)
Definition messageOf (err : thrown) : jsstring :=
  match err with
  | ErrorObj message => message
  | NonError _ => str "An unknown error occurred."
  end.

(** [Promise.all(images.map(...))] over [fileToBase64] of the utilities:
    the data of all images, or the rejection of one of them (here the
    first in the list). *)
Fixpoint readImages (fileToBase64 : NamedFile -> result jsstring)
    (files : list NamedFile) : result (list (jsstring * jsstring)) :=
  match files with
  | [] => Ok []
  | img :: rest =>
      match fileToBase64 img with
      | Throw e => Throw e
      | Ok base64 =>
          match readImages fileToBase64 rest with
          | Ok datas => Ok ((base64, fileName img) :: datas)
          | Throw e => Throw e
          end
      end
  end.

(** The entry [handleGenerate] makes: [inputs] is the state whose text,
    link, focus and images its closure holds. *)
Definition newEntryOf (now : Z) (inputs : AppState)
    (imageDatas : list (jsstring * jsstring)) (cases : list ref)
  : HistoryEntry ref :=
  mkEntry now (prdText inputs) (figmaLink inputs) (Some (focusPrompt inputs))
          (match imageDatas with
           | [] => None
           | _ :: _ => Some imageDatas
           end)
          cases.

Section Generate.

Variable API_KEY : option jsstring.
Variable generateContent : list Part -> result (option jsstring).
(** [fileToBase64] of the utilities and [Date.now()]. *)
Variable fileToBase64 : NamedFile -> result jsstring.
Variable now : Z.
(** The message of the [TypeError] of [results.map] on a value that is not
    an array. *)
Variable notIterable : jsstring.

Definition withError (err : thrown) (st : AppState) : AppState :=
  mkApp (currentUser st) (theme st) (prdText st) (figmaLink st) (focusPrompt st)
        (images st) (testCases st) false (Some (messageOf err))
        (exportStatus st) (copyStatus st) false
        (history st) (objects st) (writes st).

(** [handleGenerate], run to its end without another event in between: the
    state of the component and the state of the service afterwards.
    [stored] is what [localStorage.setItem] does in [saveHistory]. *)
Definition handleGenerate (st : AppState) (w : world) (stored : result unit)
  : AppState * world :=
  match V3.generateTestCases API_KEY generateContent (prdText st) (figmaLink st)
          (map fileBody (images st)) (focusPrompt st) w with
  | (Throw err, w') => (withError err st, w')
  | (Ok results, w') =>
      match results with
      | JArray items =>
          let resultsWithStatus :=
            allocate (map App.withStatus items) (objects st) in
          let shown :=
            mkApp (currentUser st) (theme st) (prdText st) (figmaLink st)
                  (focusPrompt st) (images st) (fst resultsWithStatus) false None
                  (exportStatus st) (copyStatus st) false
                  (history st) (snd resultsWithStatus) (writes st) in
          match readImages fileToBase64 (images st) with
          | Throw err => (withError err shown, w')
          | Ok imageDatas =>
              match saveHistory stored
                      (newEntryOf now st imageDatas (fst resultsWithStatus)
                       :: history st) shown with
              | (Ok _, saved) => (saved, w')
              | (Throw err, saved) => (withError err saved, w')
              end
          end
      | _ => (withError (ErrorObj notIterable) st, w')
      end
  end.

End Generate.

(** The addresses the state holds. *)
Definition heldBy (st : AppState) : list ref :=
  testCases st ++ flat_map (fun e => entryCases e) (history st).

(** The addresses the state holds are in use, and the cases of the table
    are distinct objects. *)
Definition wellFormed (st : AppState) : Prop :=
  Forall (fun r => r < length (objects st)) (heldBy st)
  /\ NoDup (testCases st).

(** *** The component over time

    [handleGenerate] waits for the service and for the images, and other
    events happen meanwhile; when it goes on it still holds the text, the
    images, the history and the user of the render it was called in. *)

(** A generation under way: the state [handleGenerate] was called in, what
    the service settles to, and the cases once they are shown. *)
Record Generation : Type := mkGeneration {
  startedIn : AppState;
  outcome : result json;
  shown : option (list ref)
}.

Record Session : Type := mkSession {
  component : AppState;
  pending : list Generation
}.

(** A generation under way holds addresses in use. *)
Definition holdsInUse (n : nat) (g : Generation) : Prop :=
  Forall (fun r => r < n)
         (flat_map (fun e => entryCases e) (history (startedIn g)))
  /\ match shown g with
     | Some refs => Forall (fun r => r < n) refs
     | None => True
     end.

Definition steady (ss : Session) : Prop :=
  wellFormed (component ss)
  /\ Forall (holdsInUse (length (objects (component ss)))) (pending ss).

(** The events: the effects, the handlers, the setters handed to the input
    area, the three steps of a generation, and the status texts and the
    Sheets message as the export and copy handlers and their timers set
    them.  Every event carries what the outside answers to it. *)
Inductive action : Type :=
| Mount (savedUser : item jsstring) (savedTheme : option jsstring)
        (prefersDark : bool)
| ThemeEffect (stored : result unit)
| ToggleTheme
| Login (email : jsstring) (stored : result unit)
| Logout
| LoadHistory (saved : item (list (HistoryEntry record)))
| SetPrdText (text : jsstring)
| SetFigmaLink (link : jsstring)
| SetFocusPrompt (prompt : jsstring)
| SetImages (files : list NamedFile)
| GenerateStart (generateContent : list Part -> result (option jsstring))
                (w : world)
| GenerateShow (k : nat)
| GenerateFinish (k : nat) (fileToBase64 : NamedFile -> result jsstring)
                 (now : Z) (stored : result unit)
| Refresh
| SelectHistory (id : Z)
| DeleteHistory (id : Z) (stored : result unit)
| ClearHistory (confirmed : bool) (stored : result unit)
| UpdateTestCase (index : nat) (field value : jsstring)
| Clear (confirmed : bool)
| SetExportStatus (status : jsstring)
| SetCopyStatus (status : jsstring)
| SetShowSheetsCopyMessage (show : bool).

(** The beginning of [handleGenerate], up to the call of the service. *)
Definition generateStart (st : AppState) : AppState :=
  mkApp (currentUser st) (theme st) (prdText st) (figmaLink st) (focusPrompt st)
        (images st) (testCases st) true None
        (exportStatus st) (copyStatus st) false
        (history st) (objects st) (writes st).

(** [setTestCases(resultsWithStatus)]. *)
Definition showResults (items : list json) (st : AppState)
  : list ref * AppState :=
  let resultsWithStatus := allocate (map App.withStatus items) (objects st) in
  (fst resultsWithStatus,
   mkApp (currentUser st) (theme st) (prdText st) (figmaLink st) (focusPrompt st)
         (images st) (fst resultsWithStatus) (isLoading st) (error st)
         (exportStatus st) (copyStatus st) (showSheetsCopyMessage st)
         (history st) (snd resultsWithStatus) (writes st)).

(** The [catch] and the [finally] of [handleGenerate]. *)
Definition failed (err : thrown) (st : AppState) : AppState :=
  mkApp (currentUser st) (theme st) (prdText st) (figmaLink st) (focusPrompt st)
        (images st) (testCases st) false (Some (messageOf err))
        (exportStatus st) (copyStatus st) (showSheetsCopyMessage st)
        (history st) (objects st) (writes st).

Definition loaded (st : AppState) : AppState :=
  mkApp (currentUser st) (theme st) (prdText st) (figmaLink st) (focusPrompt st)
        (images st) (testCases st) false (error st)
        (exportStatus st) (copyStatus st) (showSheetsCopyMessage st)
        (history st) (objects st) (writes st).

(** The end of a generation [g]: the cases are shown if they were not, the
    images are read, the entry is made and saved with the history and the
    user of the render the generation began in. *)
Definition generateFinish (notIterable : jsstring) (g : Generation)
    (fileToBase64 : NamedFile -> result jsstring) (now : Z)
    (stored : result unit) (st : AppState) : AppState :=
  match outcome g with
  | Throw err => failed err st
  | Ok (JArray items) =>
      let cases :=
        match shown g with
        | Some refs => (refs, st)
        | None => showResults items st
        end in
      match readImages fileToBase64 (images (startedIn g)) with
      | Throw err => failed err (snd cases)
      | Ok imageDatas =>
          match saveHistoryFor (currentUser (startedIn g)) stored
                  (newEntryOf now (startedIn g) imageDatas (fst cases)
                   :: history (startedIn g)) (snd cases) with
          | (Ok _, saved) => loaded saved
          | (Throw err, saved) => failed err saved
          end
      end
  | Ok _ => failed (ErrorObj notIterable) st
  end.

Fixpoint removeAt {A} (k : nat) (l : list A) : list A :=
  match l, k with
  | [], _ => []
  | _ :: rest, O => rest
  | x :: rest, S k' => x :: removeAt k' rest
  end.

Fixpoint replaceAt {A} (k : nat) (y : A) (l : list A) : list A :=
  match l, k with
  | [], _ => []
  | _ :: rest, O => y :: rest
  | x :: rest, S k' => x :: replaceAt k' y rest
  end.

Section Run.

Variable API_KEY : option jsstring.
Variable notIterable : jsstring.
Variable base64ToFile : jsstring -> jsstring -> NamedFile.

(** One event.  [GenerateStart] runs the beginning of [handleGenerate] and
    keeps the generation with the state it was called in; [GenerateShow k]
    is the arrival of the results of the generation [k], which are shown;
    [GenerateFinish k] is its end, which also shows the results when they
    were not yet shown (without images nothing happens in between).  An
    event that names no generation under way changes nothing. *)
Definition step (a : action) (ss : Session) : Session :=
  let st := component ss in
  match a with
  | Mount savedUser savedTheme prefersDark =>
      mkSession (mountEffect savedUser savedTheme prefersDark st) (pending ss)
  | ThemeEffect stored => mkSession (snd (themeEffect stored st)) (pending ss)
  | ToggleTheme => mkSession (toggleTheme st) (pending ss)
  | Login email stored =>
      mkSession (snd (handleLogin email stored st)) (pending ss)
  | Logout => mkSession (handleLogout st) (pending ss)
  | LoadHistory saved => mkSession (loadEffect saved st) (pending ss)
  | SetPrdText text =>
      mkSession
        (mkApp (currentUser st) (theme st) text (figmaLink st) (focusPrompt st)
               (images st) (testCases st) (isLoading st) (error st)
               (exportStatus st) (copyStatus st) (showSheetsCopyMessage st)
               (history st) (objects st) (writes st))
        (pending ss)
  | SetFigmaLink link =>
      mkSession
        (mkApp (currentUser st) (theme st) (prdText st) link (focusPrompt st)
               (images st) (testCases st) (isLoading st) (error st)
               (exportStatus st) (copyStatus st) (showSheetsCopyMessage st)
               (history st) (objects st) (writes st))
        (pending ss)
  | SetFocusPrompt prompt =>
      mkSession
        (mkApp (currentUser st) (theme st) (prdText st) (figmaLink st) prompt
               (images st) (testCases st) (isLoading st) (error st)
               (exportStatus st) (copyStatus st) (showSheetsCopyMessage st)
               (history st) (objects st) (writes st))
        (pending ss)
  | SetImages files =>
      mkSession
        (mkApp (currentUser st) (theme st) (prdText st) (figmaLink st)
               (focusPrompt st) files (testCases st) (isLoading st) (error st)
               (exportStatus st) (copyStatus st) (showSheetsCopyMessage st)
               (history st) (objects st) (writes st))
        (pending ss)
  | GenerateStart generateContent w =>
      mkSession (generateStart st)
        (pending ss
         ++ [mkGeneration st
               (fst (V3.generateTestCases API_KEY generateContent (prdText st)
                       (figmaLink st) (map fileBody (images st))
                       (focusPrompt st) w))
               None])
  | GenerateShow k =>
      match nth_error (pending ss) k with
      | Some (mkGeneration inputs (Ok (JArray items)) None) =>
          let cases := showResults items st in
          mkSession (snd cases)
            (replaceAt k (mkGeneration inputs (Ok (JArray items))
                                       (Some (fst cases)))
                       (pending ss))
      | _ => ss
      end
  | GenerateFinish k fileToBase64 now stored =>
      match nth_error (pending ss) k with
      | Some g =>
          mkSession (generateFinish notIterable g fileToBase64 now stored st)
                    (removeAt k (pending ss))
      | None => ss
      end
  | Refresh => mkSession (handleRefresh st) (pending ss)
  | SelectHistory id =>
      mkSession (handleSelectHistory base64ToFile id st) (pending ss)
  | DeleteHistory id stored =>
      mkSession (snd (handleDeleteHistory id stored st)) (pending ss)
  | ClearHistory confirmed stored =>
      mkSession (snd (handleClearHistory confirmed stored st)) (pending ss)
  | UpdateTestCase index field value =>
      mkSession (updateTestCase index field value st) (pending ss)
  | Clear confirmed => mkSession (handleClear confirmed st) (pending ss)
  | SetExportStatus status =>
      mkSession
        (mkApp (currentUser st) (theme st) (prdText st) (figmaLink st)
               (focusPrompt st) (images st) (testCases st) (isLoading st)
               (error st) status (copyStatus st) (showSheetsCopyMessage st)
               (history st) (objects st) (writes st))
        (pending ss)
  | SetCopyStatus status =>
      mkSession
        (mkApp (currentUser st) (theme st) (prdText st) (figmaLink st)
               (focusPrompt st) (images st) (testCases st) (isLoading st)
               (error st) (exportStatus st) status (showSheetsCopyMessage st)
               (history st) (objects st) (writes st))
        (pending ss)
  | SetShowSheetsCopyMessage show =>
      mkSession
        (mkApp (currentUser st) (theme st) (prdText st) (figmaLink st)
               (focusPrompt st) (images st) (testCases st) (isLoading st)
               (error st) (exportStatus st) (copyStatus st) show
               (history st) (objects st) (writes st))
        (pending ss)
  end.

(** The events in turn.  Every order is allowed, also after an effect
    threw, where the component is gone: the runs of the component are
    among these. *)
Definition run (actions : list action) (ss : Session) : Session :=
  fold_left (fun s a => step a s) actions ss.

(** The user whose closure an event writes the history with. *)
Definition writerOf (a : action) (ss : Session) : option jsstring :=
  match a with
  | GenerateFinish k _ _ _ =>
      match nth_error (pending ss) k with
      | Some g => currentUser (startedIn g)
      | None => None
      end
  | _ => currentUser (component ss)
  end.

End Run.

(** The state the component starts in. *)
Definition initial : AppState :=
  mkApp None (str "light") [] [] [] [] [] false None [] [] false [] [] [].

Definition start : Session := mkSession initial [].

End Workspace.

(* ===================================================================== *)
(** ** The input area: images and the generate button                      *)
(* ===================================================================== *)

Module Inputs.

Definition isImage (file : NamedFile) : bool :=
  startsWith (fileType (fileBody file)) (str "image/").

(** The test for a duplicate: the same name and the same size. *)
Definition sameFile (existingFile file : NamedFile) : bool :=
  jsstring_eqb (fileName existingFile) (fileName file)
  && (fileSize (fileBody existingFile) =? fileSize (fileBody file))%N.

(** The filter of [handleImageFiles]. *)
Definition accepted (images : list NamedFile) (file : NamedFile) : bool :=
  isImage file
  && negb (existsb (fun existingFile => sameFile existingFile file) images).

Definition unsupported (file : NamedFile) : jsstring :=
  str "Unsupported file type: " ++ fileName file
  ++ str ". Please upload PNG, JPEG, or WEBP files.".

(** The images after [handleImageFiles(files)] and the alerts shown. *)
Definition handleImageFiles (images files : list NamedFile)
  : list NamedFile * list jsstring :=
  (images ++ filter (accepted images) files,
   map unsupported (filter (fun file => negb (isImage file)) files)).

(** Whether the generate button can be used. *)
Definition canGenerate (prdText figmaLink : jsstring) (images : list NamedFile)
  : bool :=
  nonEmpty (trim prdText) || nonEmpty (trim figmaLink)
  || (0 <? length images)%nat.

End Inputs.

(* ===================================================================== *)
(** ** Sample states of the component                                      *)
(* ===================================================================== *)

Module Sessions.

Definition user : jsstring := str "qa@example.com".

(** A signed-in user with a document typed in. *)
Definition typed : Workspace.AppState :=
  Workspace.mkApp (Some user) (str "light") (str "doc") [] [] [] [] false None
                  [] [] false [] [] [].

(** An answer of the model with one test case. *)
Definition answer : jsstring := str "[" ++ Samples.firstBody ++ str "}]".

Definition encodes (file : NamedFile) : result jsstring :=
  Ok (fileDataURL (fileBody file)).

Definition decodes (base64 name : jsstring) : NamedFile :=
  mkNamedFile name (mkFile 0 [] base64).

(** A state with one entry in the history, its case being the object 0,
    and an empty table. *)
Definition earlier : Workspace.AppState :=
  Workspace.mkApp (Some user) (str "light") [] [] [] [] [] false None [] []
                  false [Workspace.mkEntry 7 (str "doc") [] None None [0]]
                  [[(str "testCaseId", JString (str "TC_001"))]] [].

(** A stored history of one entry with one case. *)
Definition storedHistory : list (Workspace.HistoryEntry Workspace.record) :=
  [Workspace.mkEntry 7 (str "old") [] None None
     [[(str "testCaseId", JString (str "TC_001"))]]].

(** A visit: the user signs in, the stored history is loaded, a document
    is typed, a generation is started, an entry of the history is chosen
    while the service works, and the generation ends. *)
Definition visit : list Workspace.action :=
  [ Workspace.Login user (Ok tt);
    Workspace.LoadHistory (Workspace.Item storedHistory);
    Workspace.SetPrdText (str "doc");
    Workspace.GenerateStart (Samples.answering answer) Samples.freshWorld;
    Workspace.SelectHistory 7;
    Workspace.GenerateFinish 0 encodes 1 (Ok tt) ].

(** A generation that ends after the user signed out. *)
Definition lateFinish : list Workspace.action :=
  [ Workspace.Login user (Ok tt);
    Workspace.SetPrdText (str "doc");
    Workspace.GenerateStart (Samples.answering answer) Samples.freshWorld;
    Workspace.Logout ].

End Sessions.

(* ===================================================================== *)
(** * Properties                                                           *)
(* ===================================================================== *)

(** ** Strings *)

Section StringFacts.

Implicit Types s p a b : jsstring.
Implicit Types c : char16.

Lemma len_app a b : len (a ++ b) = (len a + len b)%Z.
Proof. unfold len. rewrite length_app. lia. Qed.

Lemma len_nonneg s : (0 <= len s)%Z.
Proof. unfold len. lia. Qed.

Lemma startsWith_app p r : startsWith (p ++ r) p = true.
Proof.
  induction p as [|x p IH]; simpl; [reflexivity|].
  now rewrite N.eqb_refl.
Qed.

Lemma startsWith_split s p :
  startsWith s p = true -> exists r, s = p ++ r.
Proof.
  revert s; induction p as [|x p IH]; intros s H.
  - now exists s.
  - destruct s as [|y s]; simpl in H; [discriminate|].
    apply andb_prop in H as [E H]. apply N.eqb_eq in E. subst y.
    destruct (IH _ H) as [r ->]. now exists r.
Qed.

Lemma startsWith_char s c :
  startsWith s [c] = match s with [] => false | x :: _ => (c =? x)%N end.
Proof. destruct s; simpl; [reflexivity|]. now rewrite andb_true_r. Qed.

Lemma endsWith_app a p : endsWith (a ++ p) p = true.
Proof. unfold endsWith. rewrite rev_app_distr. apply startsWith_app. Qed.

Lemma endsWith_split s p :
  endsWith s p = true -> exists a, s = a ++ p.
Proof.
  unfold endsWith. intros H. apply startsWith_split in H as [r H].
  exists (rev r). apply (f_equal (@rev _)) in H.
  now rewrite rev_involutive, rev_app_distr, rev_involutive in H.
Qed.

(** *** [indexOf] and [lastIndexOf] of one character *)

Lemma indexOfFrom_absent s c i : ~ In c s -> indexOfFrom s [c] i = (-1)%Z.
Proof.
  revert i; induction s as [|x s IH]; intros i H; simpl; [reflexivity|].
  rewrite andb_true_r.
  destruct (N.eqb_spec c x) as [->|_]; [exfalso; apply H; now left|].
  apply IH. intros K; apply H; now right.
Qed.

Lemma indexOfFrom_first a c b i :
  ~ In c a -> indexOfFrom (a ++ c :: b) [c] i = (i + len a)%Z.
Proof.
  revert i; induction a as [|x a IH]; intros i H; simpl.
  - rewrite N.eqb_refl. unfold len; simpl; lia.
  - rewrite andb_true_r.
    destruct (N.eqb_spec c x) as [->|_]; [exfalso; apply H; now left|].
    rewrite IH by (intros K; apply H; now right).
    unfold len; simpl length. lia.
Qed.

Lemma in_split_first c s :
  In c s -> exists a b, s = a ++ c :: b /\ ~ In c a.
Proof.
  induction s as [|x s IH]; intros H; [destruct H|].
  destruct (N.eq_dec x c) as [->|N].
  - exists [], s. split; [reflexivity|intros []].
  - destruct H as [E|H]; [contradiction|].
    destruct (IH H) as (a & b & -> & Ha).
    exists (x :: a), b. split; [reflexivity|].
    intros [E|K]; [now apply N|now apply Ha].
Qed.

Lemma in_split_last c s :
  In c s -> exists a b, s = a ++ c :: b /\ ~ In c b.
Proof.
  intros H. apply in_rev in H. apply in_split_first in H as (a & b & E & Ha).
  exists (rev b), (rev a). split.
  - apply (f_equal (@rev _)) in E. rewrite rev_involutive in E. rewrite E.
    rewrite rev_app_distr. simpl. now rewrite <- app_assoc.
  - intros K. now apply in_rev in K.
Qed.

Lemma indexOf_absent s c : ~ In c s -> indexOf s [c] = (-1)%Z.
Proof. apply indexOfFrom_absent. Qed.

Lemma indexOf_first a c b :
  ~ In c a -> indexOf (a ++ c :: b) [c] = len a.
Proof. intros H. unfold indexOf. now rewrite indexOfFrom_first. Qed.

Lemma indexOf_present s c :
  indexOf s [c] <> (-1)%Z ->
  exists a b, s = a ++ c :: b /\ ~ In c a /\ indexOf s [c] = len a.
Proof.
  intros H. destruct (in_dec N.eq_dec c s) as [I|I].
  - destruct (in_split_first _ _ I) as (a & b & -> & Ha).
    exists a, b. repeat split; [assumption|now apply indexOf_first].
  - now rewrite indexOf_absent in H.
Qed.

Lemma indexOf_minus1 s c : indexOf s [c] = (-1)%Z <-> ~ In c s.
Proof.
  split; [|apply indexOf_absent].
  intros H I. destruct (in_split_first _ _ I) as (a & b & -> & Ha).
  rewrite indexOf_first in H by assumption. pose proof (len_nonneg a). lia.
Qed.

Lemma lastIndexOfFrom_absent s c i best :
  ~ In c s -> lastIndexOfFrom s [c] i best = best.
Proof.
  revert i best; induction s as [|x s IH]; intros i best H; simpl; [reflexivity|].
  rewrite andb_true_r.
  destruct (N.eqb_spec c x) as [->|_]; [exfalso; apply H; now left|].
  apply IH. intros K; apply H; now right.
Qed.

Lemma lastIndexOfFrom_last a c b i best :
  ~ In c b -> lastIndexOfFrom (a ++ c :: b) [c] i best = (i + len a)%Z.
Proof.
  revert i best; induction a as [|x a IH]; intros i best H; simpl.
  - rewrite N.eqb_refl. rewrite lastIndexOfFrom_absent by assumption.
    unfold len; simpl; lia.
  - rewrite andb_true_r. rewrite IH by assumption.
    unfold len; simpl length. lia.
Qed.

Lemma lastIndexOf_absent s c : ~ In c s -> lastIndexOf s [c] = (-1)%Z.
Proof. apply lastIndexOfFrom_absent. Qed.

Lemma lastIndexOf_last a c b :
  ~ In c b -> lastIndexOf (a ++ c :: b) [c] = len a.
Proof. intros H. unfold lastIndexOf. now rewrite lastIndexOfFrom_last. Qed.

Lemma lastIndexOf_present s c :
  lastIndexOf s [c] <> (-1)%Z ->
  exists a b, s = a ++ c :: b /\ ~ In c b /\ lastIndexOf s [c] = len a.
Proof.
  intros H. destruct (in_dec N.eq_dec c s) as [I|I].
  - destruct (in_split_last _ _ I) as (a & b & -> & Hb).
    exists a, b. repeat split; [assumption|now apply lastIndexOf_last].
  - now rewrite lastIndexOf_absent in H.
Qed.

(** *** [substring] and [slice] *)

Lemma substring_middle a m b :
  substring (a ++ m ++ b) (len a) (len a + len m) = m.
Proof.
  unfold substring, clampIndex. rewrite !len_app.
  pose proof (len_nonneg a). pose proof (len_nonneg m). pose proof (len_nonneg b).
  replace (Z.min (Z.max (len a) 0) (len a + (len m + len b))) with (len a) by lia.
  replace (Z.min (Z.max (len a + len m) 0) (len a + (len m + len b)))
    with (len a + len m)%Z by lia.
  replace (Z.min (len a) (len a + len m)) with (len a) by lia.
  replace (Z.max (len a) (len a + len m) - len a)%Z with (len m) by lia.
  unfold len. rewrite !Nat2Z.id.
  rewrite skipn_app, skipn_all, Nat.sub_diag. simpl.
  rewrite firstn_app, firstn_all, Nat.sub_diag. simpl. apply app_nil_r.
Qed.

Lemma slice_middle a m b :
  (0 < len b)%Z ->
  slice (a ++ m ++ b) (len a) (Some (- len b)%Z) = m.
Proof.
  intros Hb. unfold slice, relIndex. rewrite !len_app.
  pose proof (len_nonneg a). pose proof (len_nonneg m).
  destruct (Z.ltb_spec (len a) 0); [lia|].
  destruct (Z.ltb_spec (- len b) 0); [|lia].
  replace (Z.max (len a + (len m + len b) + - len b) 0
           - Z.min (len a) (len a + (len m + len b)))%Z with (len m) by lia.
  replace (Z.min (len a) (len a + (len m + len b))) with (len a) by lia.
  unfold len. rewrite !Nat2Z.id.
  rewrite skipn_app, skipn_all, Nat.sub_diag. simpl.
  rewrite firstn_app, firstn_all, Nat.sub_diag. simpl. apply app_nil_r.
Qed.

Lemma slice_between a m b i j :
  i = len a -> j = (- len b)%Z -> (0 < len b)%Z ->
  slice (a ++ m ++ b) i (Some j) = m.
Proof. intros -> -> H. now apply slice_middle. Qed.

(** *** [trim] *)

Lemma trimStart_white w s : allWhite w -> trimStart (w ++ s) = trimStart s.
Proof.
  induction 1 as [|x w Hx _ IH]; simpl; [reflexivity|]. now rewrite Hx.
Qed.

Lemma trimStart_head c s : isWhiteSpace c = false -> trimStart (c :: s) = c :: s.
Proof. intros H. simpl. now rewrite H. Qed.

Lemma allWhite_rev w : allWhite w -> allWhite (rev w).
Proof. apply Forall_rev. Qed.

Lemma trimEnd_white s w : allWhite w -> trimEnd (s ++ w) = trimEnd s.
Proof.
  intros H. unfold trimEnd. rewrite rev_app_distr.
  now rewrite trimStart_white by now apply allWhite_rev.
Qed.

Lemma trimEnd_last s c : isWhiteSpace c = false -> trimEnd (s ++ [c]) = s ++ [c].
Proof.
  intros H. unfold trimEnd. rewrite rev_app_distr. simpl. rewrite H.
  simpl. now rewrite rev_involutive.
Qed.

Lemma trimEnd_app_last a c b :
  isWhiteSpace c = false -> trimEnd (a ++ c :: b) = a ++ c :: trimEnd b.
Proof.
  intros H. unfold trimEnd.
  assert (G : forall r acc, trimStart (r ++ c :: acc) =
                            trimStart r ++ match trimStart r with
                                           | [] => c :: acc
                                           | _ => c :: acc end).
  { induction r as [|x r IH]; intros acc; simpl.
    - now rewrite H.
    - destruct (isWhiteSpace x); [apply IH|reflexivity]. }
  rewrite rev_app_distr. simpl. rewrite <- app_assoc. simpl.
  rewrite G. replace (match trimStart (rev b) with [] => c :: rev a | _ => c :: rev a end)
    with (c :: rev a) by now destruct (trimStart (rev b)).
  rewrite rev_app_distr. simpl. rewrite rev_involutive.
  now rewrite <- app_assoc.
Qed.

Lemma trimStart_decomp s : exists w, s = w ++ trimStart s /\ allWhite w.
Proof.
  induction s as [|x s (w & E & Hw)]; simpl.
  - exists []. split; [reflexivity|constructor].
  - destruct (isWhiteSpace x) eqn:Hx.
    + exists (x :: w). split; [simpl; now f_equal|now constructor].
    + exists []. split; [reflexivity|constructor].
Qed.

Lemma trimStart_nonwhite s x r : trimStart s = x :: r -> isWhiteSpace x = false.
Proof.
  induction s as [|y s IH]; simpl; [discriminate|].
  destruct (isWhiteSpace y) eqn:Hy; [assumption|].
  intros E. injection E as -> _. assumption.
Qed.

Lemma trimStart_allWhite w : allWhite w -> trimStart w = [].
Proof. induction 1 as [|x w Hx _ IH]; simpl; [reflexivity|]. now rewrite Hx. Qed.

Lemma trimEnd_prefix s : exists w, s = trimEnd s ++ w /\ allWhite w.
Proof.
  destruct (trimStart_decomp (rev s)) as (w & E & Hw).
  exists (rev w). split; [|now apply allWhite_rev].
  unfold trimEnd. apply (f_equal (@rev _)) in E.
  now rewrite rev_involutive, rev_app_distr in E.
Qed.

Lemma trim_white w1 s w2 :
  allWhite w1 -> allWhite w2 -> trim (w1 ++ s ++ w2) = trim s.
Proof.
  intros H1 H2. unfold trim. rewrite trimStart_white by assumption.
  destruct (trimStart_decomp s) as (w & E & Hw).
  rewrite E at 1. rewrite <- app_assoc, trimStart_white by assumption.
  destruct (trimStart s) as [|x r] eqn:T.
  - simpl. now rewrite trimStart_allWhite.
  - apply trimStart_nonwhite in T.
    change ((x :: r) ++ w2) with (x :: r ++ w2).
    rewrite trimStart_head by assumption.
    change (x :: r ++ w2) with ((x :: r) ++ w2). now apply trimEnd_white.
Qed.

Lemma trim_fixed c m d :
  isWhiteSpace c = false -> isWhiteSpace d = false ->
  trim (c :: m ++ [d]) = c :: m ++ [d].
Proof.
  intros Hc Hd. unfold trim. rewrite trimStart_head by assumption.
  change (c :: m ++ [d]) with ((c :: m) ++ [d]). now apply trimEnd_last.
Qed.

End StringFacts.

(** ** The parser *)

Section ParserFacts.

Implicit Types s r : jsstring.

Lemma skip_ws_decomp s : exists w, s = w ++ skip_ws s /\ allJsonWs w.
Proof.
  induction s as [|x s (w & E & Hw)]; simpl.
  - exists []. split; [reflexivity|constructor].
  - destruct (isJsonWs x) eqn:Hx.
    + exists (x :: w). split; [simpl; now f_equal|now constructor].
    + exists []. split; [reflexivity|constructor].
Qed.

Lemma skip_ws_nil s : skip_ws s = [] -> allJsonWs s.
Proof.
  intros E. destruct (skip_ws_decomp s) as (w & H & Hw).
  rewrite E, app_nil_r in H. now subst.
Qed.

Lemma skip_ws_head c s : isJsonWs c = false -> skip_ws (c :: s) = c :: s.
Proof. intros H. simpl. now rewrite H. Qed.

Lemma skip_ws_length s : length (skip_ws s) <= length s.
Proof.
  destruct (skip_ws_decomp s) as (w & E & _).
  rewrite E at 2. rewrite length_app. lia.
Qed.

Lemma skip_ws_cons_length s c r : skip_ws s = c :: r -> length r < length s.
Proof. intros E. pose proof (skip_ws_length s) as L. rewrite E in L. simpl in L. lia. Qed.

Lemma Rest_length s r : Rest s r -> length r < length s.
Proof. intros (x & c & ->). simpl. rewrite length_app. lia. Qed.

Lemma Rest_cons x s r : (exists c, s = c ++ r) -> Rest (x :: s) r.
Proof. intros (c & ->). now exists x, c. Qed.

Lemma Rest_weaken s r : Rest s r -> exists c, s = c ++ r.
Proof. intros (x & c & ->). now exists (x :: c). Qed.

Lemma Rest_skip_ws s r : Rest (skip_ws s) r -> Rest s r.
Proof.
  intros (x & c & E). destruct (skip_ws_decomp s) as (w & H & _).
  rewrite E in H. destruct w as [|y w]; simpl in H; subst s.
  - now exists x, c.
  - exists y, (w ++ x :: c). now rewrite <- app_assoc.
Qed.

Lemma Rest_trans s r t : Rest s r -> (exists c, r = c ++ t) -> Rest s t.
Proof.
  intros (x & c & ->) (d & ->). exists x, (c ++ d). now rewrite <- app_assoc.
Qed.

Lemma consChar_some c o body rest :
  consChar c o = Some (body, rest) ->
  exists b, o = Some (b, rest) /\ body = c :: b.
Proof.
  destruct o as [[b r]|]; simpl; [|discriminate].
  intros E. injection E as <- <-. now exists b.
Qed.

Lemma parse_chars_rest s body r : parse_chars s = Some (body, r) -> Rest s r.
Proof.
  remember (length s) as n eqn:Hn. revert s Hn body r.
  induction n as [n IH] using lt_wf_ind. intros s Hn body r.
  destruct s as [|c s]; simpl; [discriminate|].
  destruct (c =? chQuote)%N.
  { intros E. injection E as _ <-. now exists c, []. }
  destruct (c =? chBackslash)%N.
  { destruct s as [|e s]; [discriminate|].
    destruct (e =? 117)%N.
    - destruct s as [|h1 [|h2 [|h3 [|h4 s]]]]; try discriminate.
      destruct (hex4 h1 h2 h3 h4); [|discriminate].
      intros E. apply consChar_some in E as (b & E & _).
      apply (IH (length s)) in E; [|subst n; simpl; lia|reflexivity].
      apply Rest_weaken in E as (d & ->).
      exists c, (e :: h1 :: h2 :: h3 :: h4 :: d). reflexivity.
    - destruct (escapeChar e); [|discriminate].
      intros E. apply consChar_some in E as (b & E & _).
      apply (IH (length s)) in E; [|subst n; simpl; lia|reflexivity].
      apply Rest_weaken in E as (d & ->). now exists c, (e :: d). }
  destruct (c <? 32)%N; [discriminate|].
  intros E. apply consChar_some in E as (b & E & _).
  apply (IH (length s)) in E; [|subst n; simpl; lia|reflexivity].
  apply Rest_weaken in E as (d & ->). now exists c, d.
Qed.

Lemma parse_digits_rest s acc k m k' r :
  parse_digits s acc k = (m, k', r) -> exists c, s = c ++ r.
Proof.
  revert acc k; induction s as [|x s IH]; intros acc k; simpl.
  - intros E. injection E as _ _ <-. now exists [].
  - destruct (isDigit x).
    + intros E. apply IH in E as (c & ->). now exists (x :: c).
    + intros E. injection E as _ _ <-. now exists [].
Qed.

Lemma parse_int_rest s m r : parse_int s = Some (m, r) -> Rest s r.
Proof.
  destruct s as [|c s]; simpl; [discriminate|].
  destruct (c =? 48)%N.
  - intros E. injection E as _ <-. now exists c, [].
  - destruct (isDigit c); [|discriminate].
    destruct (parse_digits s (c - 48) 1) as [[m' k'] r'] eqn:D.
    intros E. injection E as _ <-.
    apply Rest_cons. eapply parse_digits_rest; eassumption.
Qed.

Lemma parse_frac_rest m s m' k r :
  parse_frac m s = Some (m', k, r) -> exists c, s = c ++ r.
Proof.
  destruct s as [|c s]; simpl.
  - intros E. injection E as _ _ <-. now exists [].
  - destruct (c =? 46)%N.
    + destruct (parse_digits s m 0) as [[m1 k1] r1] eqn:D.
      destruct k1; [discriminate|].
      intros E. injection E as _ _ <-.
      apply parse_digits_rest in D as (d & ->). now exists (c :: d).
    + intros E. injection E as _ _ <-. now exists [].
Qed.

Lemma parse_exp_rest s x r : parse_exp s = Some (x, r) -> exists c, s = c ++ r.
Proof.
  destruct s as [|c s]; simpl.
  - intros E. injection E as _ <-. now exists [].
  - destruct ((c =? 101) || (c =? 69))%N.
    + destruct (match s with
                | [] => (1%Z, s)
                | d :: r' => if (d =? 45)%N then ((-1)%Z, r')
                             else if (d =? 43)%N then (1%Z, r') else (1%Z, s)
                end) as [sgn r0] eqn:S0.
      assert (H0 : exists c0, s = c0 ++ r0).
      { destruct s as [|d s']; [injection S0 as _ <-; now exists []|].
        destruct (d =? 45)%N; [injection S0 as _ <-; now exists [d]|].
        destruct (d =? 43)%N; injection S0 as _ <-; [now exists [d]|now exists []]. }
      destruct (parse_digits r0 0 0) as [[x1 k1] r1] eqn:D.
      destruct k1; [discriminate|].
      intros E. injection E as _ <-.
      apply parse_digits_rest in D as (d & ->). destruct H0 as (c0 & ->).
      exists (c :: c0 ++ d). simpl. now rewrite <- app_assoc.
    + intros E. injection E as _ <-. now exists [].
Qed.

Lemma parse_number_rest s v r : parse_number s = Some (v, r) -> Rest s r.
Proof.
  unfold parse_number.
  destruct (match s with
            | [] => (false, s)
            | c :: r0 => if (c =? 45)%N then (true, r0) else (false, s)
            end) as [neg s0] eqn:S0.
  assert (H0 : exists c0, s = c0 ++ s0).
  { destruct s as [|c s']; [injection S0 as _ <-; now exists []|].
    destruct (c =? 45)%N; injection S0 as _ <-; [now exists [c]|now exists []]. }
  destruct (parse_int s0) as [[m s1]|] eqn:I; [|discriminate].
  destruct (parse_frac m s1) as [[[m' k] s2]|] eqn:F; [|discriminate].
  destruct (parse_exp s2) as [[x s3]|] eqn:X; [|discriminate].
  intros E. injection E as _ <-.
  apply parse_int_rest in I. apply parse_frac_rest in F. apply parse_exp_rest in X.
  destruct H0 as (c0 & ->).
  assert (R : Rest s0 s3) by (eapply Rest_trans; [eapply Rest_trans|]; eassumption).
  destruct R as (y & d & ->). destruct c0 as [|z c0].
  - now exists y, d.
  - exists z, (c0 ++ y :: d). simpl. now rewrite <- app_assoc.
Qed.

Lemma startsWith_skipn s p :
  startsWith s p = true -> s = p ++ skipn (length p) s.
Proof.
  intros H. apply startsWith_split in H as (r & ->).
  now rewrite skipn_app, skipn_all, Nat.sub_diag.
Qed.

Lemma parse_literal_rest s v r : parse_literal s = Some (v, r) -> Rest s r.
Proof.
  unfold parse_literal.
  destruct (startsWith s (str "true")) eqn:T.
  { intros E. injection E as _ <-. apply startsWith_skipn in T.
    rewrite T at 1. now eexists _, _. }
  destruct (startsWith s (str "false")) eqn:F.
  { intros E. injection E as _ <-. apply startsWith_skipn in F.
    rewrite F at 1. now eexists _, _. }
  destruct (startsWith s (str "null")) eqn:U; [|discriminate].
  intros E. injection E as _ <-. apply startsWith_skipn in U.
  rewrite U at 1. now eexists _, _.
Qed.

End ParserFacts.

Section DescentFacts.

Implicit Types s r : jsstring.

Lemma closing_rest s k r : skip_ws s = k :: r -> exists d, s = d ++ k :: r.
Proof.
  intros E. destruct (skip_ws_decomp s) as (w & H & _).
  rewrite E in H. now exists w.
Qed.

Lemma descent_rest f : ValueRest f /\ ElementsRest f /\ MembersRest f.
Proof.
  induction f as [|f (IHv & IHe & IHm)].
  { repeat split; intros s x r H; discriminate H. }
  split; [|split].
  - (* values *)
    intros s v r. simpl. destruct s as [|c s]; [discriminate|].
    destruct (c =? chLBracket)%N.
    { destruct (skip_ws s) as [|d s'] eqn:W; [discriminate|].
      apply closing_rest in W as (w & ->).
      destruct (d =? chRBracket)%N.
      - intros E. injection E as _ <-. now exists c, (w ++ [d]); rewrite <- app_assoc.
      - destruct (parse_elements f (d :: s')) as [[vs rest]|] eqn:P; [|discriminate].
        intros E. injection E as _ <-. apply IHe in P as (e & ->).
        exists c, (w ++ e ++ [chRBracket]). now rewrite <- !app_assoc. }
    destruct (c =? chLBrace)%N.
    { destruct (skip_ws s) as [|d s'] eqn:W; [discriminate|].
      apply closing_rest in W as (w & ->).
      destruct (d =? chRBrace)%N.
      - intros E. injection E as _ <-. now exists c, (w ++ [d]); rewrite <- app_assoc.
      - destruct (parse_members f (d :: s')) as [[ms rest]|] eqn:P; [|discriminate].
        intros E. injection E as _ <-. apply IHm in P as (e & ->).
        exists c, (w ++ e ++ [chRBrace]). now rewrite <- !app_assoc. }
    destruct (c =? chQuote)%N.
    { destruct (parse_chars s) as [[body rest]|] eqn:P; [|discriminate].
      intros E. injection E as _ <-. apply parse_chars_rest in P.
      apply Rest_cons. now apply Rest_weaken. }
    destruct ((c =? 45)%N || isDigit c).
    + apply parse_number_rest.
    + apply parse_literal_rest.
  - (* elements *)
    intros s vs r. simpl.
    destruct (parse_value f s) as [[v r0]|] eqn:P; [|discriminate].
    apply IHv in P. destruct (skip_ws r0) as [|c r1] eqn:W; [discriminate|].
    apply closing_rest in W as (w & ->).
    apply Rest_weaken in P as (p & ->).
    destruct (c =? chComma)%N.
    + destruct (parse_elements f (skip_ws r1)) as [[vs' rest]|] eqn:Q; [|discriminate].
      intros E. injection E as _ <-. apply IHe in Q as (e & H).
      destruct (skip_ws_decomp r1) as (w1 & H1 & _). rewrite H in H1.
      exists (p ++ w ++ c :: w1 ++ e). rewrite H1.
      now rewrite <- !app_assoc; simpl; rewrite <- !app_assoc.
    + destruct (N.eqb_spec c chRBracket) as [->|_]; [|discriminate].
      intros E. injection E as _ <-. exists (p ++ w). now rewrite <- app_assoc.
  - (* members *)
    intros s ms r. simpl. destruct s as [|q s]; [discriminate|].
    destruct (q =? chQuote)%N; [|discriminate].
    destruct (parse_chars s) as [[key r1]|] eqn:K; [|discriminate].
    apply parse_chars_rest, Rest_weaken in K as (k & ->).
    destruct (skip_ws r1) as [|c r2] eqn:W1; [discriminate|].
    apply closing_rest in W1 as (w1 & ->).
    destruct (c =? chColon)%N; [|discriminate].
    destruct (parse_value f (skip_ws r2)) as [[v r3]|] eqn:P; [|discriminate].
    apply IHv, Rest_skip_ws, Rest_weaken in P as (p & ->).
    destruct (skip_ws r3) as [|d r4] eqn:W3; [discriminate|].
    apply closing_rest in W3 as (w3 & ->).
    destruct (d =? chComma)%N.
    + destruct (parse_members f (skip_ws r4)) as [[ms' rest]|] eqn:Q; [|discriminate].
      intros E. injection E as _ <-. apply IHm in Q as (e & H).
      destruct (skip_ws_decomp r4) as (w4 & H4 & _). rewrite H in H4.
      exists (q :: k ++ w1 ++ c :: p ++ w3 ++ d :: w4 ++ e). rewrite H4.
      simpl. now repeat (rewrite <- !app_assoc; simpl).
    + destruct (N.eqb_spec d chRBrace) as [->|_]; [|discriminate].
      intros E. injection E as _ <-.
      exists (q :: k ++ w1 ++ c :: p ++ w3).
      simpl. now repeat (rewrite <- !app_assoc; simpl).
Qed.

Lemma parse_value_rest f s v r : parse_value f s = Some (v, r) -> Rest s r.
Proof. apply descent_rest. Qed.

Lemma parse_value_length f s v r :
  parse_value f s = Some (v, r) -> length r < length s.
Proof. intros H. eapply Rest_length, parse_value_rest, H. Qed.

Lemma parse_elements_rest f s vs r :
  parse_elements f s = Some (vs, r) -> exists c, s = c ++ chRBracket :: r.
Proof. apply descent_rest. Qed.

Lemma parse_members_rest f s ms r :
  parse_members f s = Some (ms, r) -> exists c, s = c ++ chRBrace :: r.
Proof. apply descent_rest. Qed.

(** A text that opens with a bracket parses to an array, and the array's
    closing bracket is the last character read. *)
Lemma parse_value_bracket f s v r :
  parse_value f (chLBracket :: s) = Some (v, r) ->
  isArray v = true /\ exists c, chLBracket :: s = c ++ chRBracket :: r.
Proof.
  destruct f as [|f]; [discriminate|]. simpl.
  destruct (skip_ws s) as [|d s'] eqn:W; [discriminate|].
  apply closing_rest in W as (w & ->).
  destruct (N.eqb_spec d chRBracket) as [->|_].
  - intros E. injection E as <- <-. split; [reflexivity|].
    now exists (chLBracket :: w).
  - destruct (parse_elements f (d :: s')) as [[vs rest]|] eqn:P; [|discriminate].
    intros E. injection E as <- <-. split; [reflexivity|].
    apply parse_elements_rest in P as (e & ->).
    exists (chLBracket :: w ++ e). simpl. now rewrite <- app_assoc.
Qed.

Lemma JSON_parse_bracket s v :
  JSON_parse (chLBracket :: s) = Some v ->
  isArray v = true /\
  exists c w, chLBracket :: s = c ++ chRBracket :: w /\ allJsonWs w.
Proof.
  unfold JSON_parse. rewrite skip_ws_head by reflexivity.
  destruct (parse_value _ _) as [[v' r]|] eqn:P; [|discriminate].
  destruct (skip_ws r) eqn:W; [|discriminate].
  intros E. injection E as <-.
  apply parse_value_bracket in P as (A & c & H). split; [assumption|].
  exists c, r. split; [assumption|now apply skip_ws_nil].
Qed.

(** [JSON.parse] rejects every text that opens with a bracket and ends
    with a closing brace. *)
Lemma JSON_parse_bracket_brace m :
  JSON_parse (chLBracket :: m ++ [chRBrace]) = None.
Proof.
  destruct (JSON_parse _) as [v|] eqn:P; [|reflexivity]. exfalso.
  apply JSON_parse_bracket in P as (_ & c & w & H & Hw).
  change (chLBracket :: m ++ [chRBrace]) with ((chLBracket :: m) ++ [chRBrace]) in H.
  apply (f_equal (@rev _)) in H.
  rewrite !rev_app_distr in H. simpl in H.
  destruct (rev w) as [|x t] eqn:R.
  - simpl in H. discriminate H.
  - assert (I : In x w) by (apply in_rev; rewrite R; now left).
    unfold allJsonWs in Hw. rewrite Forall_forall in Hw. apply Hw in I.
    simpl in H. injection H as <- _. discriminate I.
Qed.

End DescentFacts.

Section FuelFacts.

Implicit Types s r : jsstring.

(** [None] from [JSON_parse] is a syntax error, never an exhausted budget. *)
Lemma fuel_enough f : FuelEnough f.
Proof.
  induction f as [|f IH]; intros f' s.
  { repeat split; intros H; exfalso; lia. }
  destruct f' as [|f'].
  { repeat split; intros _ H; exfalso; lia. }
  split; [|split]; intros Hf Hf'; simpl.
  - (* values *)
    destruct s as [|c s]; [reflexivity|]. simpl length in Hf, Hf'.
    destruct (c =? chLBracket)%N.
    { destruct (skip_ws s) as [|d s'] eqn:W; [reflexivity|].
      destruct (d =? chRBracket)%N; [reflexivity|].
      pose proof (skip_ws_length s) as L. rewrite W in L.
      destruct (IH f' (d :: s')) as (_ & -> & _); [reflexivity|lia|lia]. }
    destruct (c =? chLBrace)%N.
    { destruct (skip_ws s) as [|d s'] eqn:W; [reflexivity|].
      destruct (d =? chRBrace)%N; [reflexivity|].
      pose proof (skip_ws_length s) as L. rewrite W in L.
      destruct (IH f' (d :: s')) as (_ & _ & ->); [reflexivity|lia|lia]. }
    reflexivity.
  - (* elements *)
    destruct (IH f' s) as (<- & _ & _); [|lia|lia].
    destruct (parse_value f s) as [[v r0]|] eqn:P; [|reflexivity].
    apply parse_value_length in P.
    destruct (skip_ws r0) as [|c r1] eqn:W; [reflexivity|].
    apply skip_ws_cons_length in W.
    destruct (c =? chComma)%N; [|reflexivity].
    pose proof (skip_ws_length r1) as L.
    destruct (IH f' (skip_ws r1)) as (_ & -> & _); [reflexivity|lia|lia].
  - (* members *)
    destruct s as [|q s]; [reflexivity|]. simpl length in Hf, Hf'.
    destruct (q =? chQuote)%N; [|reflexivity].
    destruct (parse_chars s) as [[key r1]|] eqn:K; [|reflexivity].
    apply parse_chars_rest, Rest_length in K.
    destruct (skip_ws r1) as [|c r2] eqn:W1; [reflexivity|].
    apply skip_ws_cons_length in W1.
    destruct (c =? chColon)%N; [|reflexivity].
    pose proof (skip_ws_length r2) as L2.
    destruct (IH f' (skip_ws r2)) as (<- & _ & _); [|lia|lia].
    destruct (parse_value f (skip_ws r2)) as [[v r3]|] eqn:P; [|reflexivity].
    apply parse_value_length in P.
    destruct (skip_ws r3) as [|d r4] eqn:W3; [reflexivity|].
    apply skip_ws_cons_length in W3.
    destruct (d =? chComma)%N; [|reflexivity].
    pose proof (skip_ws_length r4) as L4.
    destruct (IH f' (skip_ws r4)) as (_ & _ & ->); [reflexivity|lia|lia].
Qed.

Lemma parse_value_fuel f s :
  parseFuel s <= f ->
  parse_value f (skip_ws s) = parse_value (parseFuel s) (skip_ws s).
Proof.
  intros H. unfold parseFuel in *. pose proof (skip_ws_length s) as L.
  apply fuel_enough; lia.
Qed.

End FuelFacts.

(** ** The response normaliser of the third version *)

Section NormaliserFacts.

Implicit Types s raw text body tail : jsstring.

Lemma JSON_ws_is_white c : isJsonWs c = true -> isWhiteSpace c = true.
Proof.
  unfold isJsonWs, isWhiteSpace. intros H.
  repeat (apply orb_prop in H as [H|H]); apply N.eqb_eq in H; subst c; reflexivity.
Qed.

(** A text that opens with a bracket and whose last character is neither
    a closing bracket nor white space is not JSON. *)
Lemma JSON_parse_bracket_last m z :
  z <> chRBracket -> isJsonWs z = false ->
  JSON_parse (chLBracket :: m ++ [z]) = None.
Proof.
  intros Hz Hw. destruct (JSON_parse _) as [v|] eqn:P; [|reflexivity]. exfalso.
  apply JSON_parse_bracket in P as (_ & c & w & H & Hall).
  change (chLBracket :: m ++ [z]) with ((chLBracket :: m) ++ [z]) in H.
  apply (f_equal (@rev _)) in H.
  rewrite !rev_app_distr in H. simpl in H.
  destruct (rev w) as [|x t] eqn:R.
  - simpl in H. injection H as E _. now apply Hz.
  - assert (I : In x w) by (apply in_rev; rewrite R; now left).
    unfold allJsonWs in Hall. rewrite Forall_forall in Hall. apply Hall in I.
    simpl in H. injection H as <- _. congruence.
Qed.

Lemma startsWith_prefix s p q :
  startsWith s (p ++ q) = true -> startsWith s p = true.
Proof.
  intros H. apply startsWith_split in H as (r & ->).
  rewrite <- app_assoc. apply startsWith_app.
Qed.

(** A text that does not open with a fence is only trimmed. *)
Lemma stripFences_plain raw :
  startsWith (trim raw) V3.fence = false -> V3.stripFences raw = trim raw.
Proof.
  intros H. unfold V3.stripFences.
  destruct (startsWith (trim raw) (str "```json")) eqn:J.
  - apply (startsWith_prefix _ V3.fence (str "json")) in J. congruence.
  - fold V3.fence. now rewrite H.
Qed.

Lemma robustJsonParse_strip a b :
  V3.stripFences a = V3.stripFences b ->
  V3.robustJsonParse a = V3.robustJsonParse b.
Proof. intros H. unfold V3.robustJsonParse. now rewrite H. Qed.

Lemma trimEnd_nil_or_last s :
  trimEnd s = [] \/ exists u z, trimEnd s = u ++ [z] /\ isWhiteSpace z = false.
Proof.
  unfold trimEnd. destruct (trimStart (rev s)) as [|z t] eqn:T; [now left|].
  right. exists (rev t), z. split; [reflexivity|].
  eapply trimStart_nonwhite, T.
Qed.

Lemma trimEnd_not_in c s : ~ In c s -> ~ In c (trimEnd s).
Proof.
  intros H K. apply H. destruct (trimEnd_prefix s) as (w & E & _).
  rewrite E. apply in_or_app. now left.
Qed.

(** The text the repair works on when the response opens with a bracket. *)
Lemma stripFences_bracket body tail :
  V3.stripFences (chLBracket :: body ++ chRBrace :: tail)
  = chLBracket :: body ++ chRBrace :: trimEnd tail.
Proof.
  assert (T : trim (chLBracket :: body ++ chRBrace :: tail)
              = chLBracket :: body ++ chRBrace :: trimEnd tail).
  { unfold trim. rewrite trimStart_head by reflexivity.
    change (chLBracket :: body ++ chRBrace :: tail)
      with ((chLBracket :: body) ++ chRBrace :: tail).
    now rewrite trimEnd_app_last. }
  rewrite stripFences_plain; rewrite T; reflexivity.
Qed.

(** Recovery of a cut array: the complete elements are returned when the
    direct parse fails and no closing brace follows the last of them. *)
Lemma robustJsonParse_truncated body tail objs :
  JSON_parse ((chLBracket :: body ++ [chRBrace]) ++ str "]") = Some (JArray objs) ->
  ~ In chRBrace tail ->
  JSON_parse (V3.stripFences ((chLBracket :: body ++ [chRBrace]) ++ tail)) = None ->
  V3.robustJsonParse ((chLBracket :: body ++ [chRBrace]) ++ tail) = Ok (JArray objs).
Proof.
  intros Hpre Htail Hdirect. unfold V3.robustJsonParse. rewrite Hdirect.
  replace ((chLBracket :: body ++ [chRBrace]) ++ tail)
    with (chLBracket :: body ++ chRBrace :: tail)
    by (simpl; now rewrite <- app_assoc).
  rewrite stripFences_bracket.
  set (t := trimEnd tail). assert (Ht : ~ In chRBrace t) by now apply trimEnd_not_in.
  set (text := chLBracket :: body ++ chRBrace :: t).
  assert (I : indexOf text (str "[") = 0%Z)
    by (apply (indexOf_first [] chLBracket); intros []).
  assert (J : lastIndexOf text (str "}") = len (chLBracket :: body))
    by (apply (lastIndexOf_last (chLBracket :: body) chRBrace t); assumption).
  assert (K : V3.finalAttemptStr text = chLBracket :: body ++ [chRBrace]).
  { unfold V3.finalAttemptStr. rewrite I, J.
    replace (len (chLBracket :: body) + 1)%Z
      with (len [] + len (chLBracket :: body ++ [chRBrace]))%Z.
    2:{ change (chLBracket :: body ++ [chRBrace])
          with ((chLBracket :: body) ++ [chRBrace]).
        rewrite len_app. reflexivity. }
    change 0%Z with (len []) at 1.
    replace text with ([] ++ (chLBracket :: body ++ [chRBrace]) ++ t)
      by (unfold text; simpl; now rewrite <- app_assoc).
    apply substring_middle. }
  unfold V3.potentialJson. rewrite I, J, K.
  pose proof (len_nonneg (chLBracket :: body)) as L.
  destruct (Z.ltb_spec (len (chLBracket :: body)) 0); [lia|].
  simpl (0 =? -1)%Z. cbv iota.
  change (JSON_parse ((chLBracket :: body ++ [chRBrace]) ++ str "]") = Some (JArray objs)) in Hpre.
  now rewrite Hpre.
Qed.

(** The direct parse of a cut array fails as soon as the text does not
    end with a closing bracket. *)
Lemma truncated_not_json body tail :
  ~ In chRBracket tail ->
  JSON_parse (V3.stripFences ((chLBracket :: body ++ [chRBrace]) ++ tail)) = None.
Proof.
  intros H.
  replace ((chLBracket :: body ++ [chRBrace]) ++ tail)
    with (chLBracket :: body ++ chRBrace :: tail)
    by (simpl; now rewrite <- app_assoc).
  rewrite stripFences_bracket.
  destruct (trimEnd_nil_or_last tail) as [->|(u & z & E & Hz)].
  - apply JSON_parse_bracket_last; [discriminate|reflexivity].
  - assert (I : ~ In chRBracket (trimEnd tail)) by now apply trimEnd_not_in.
    rewrite E in *.
    replace (chLBracket :: body ++ chRBrace :: u ++ [z])
      with (chLBracket :: (body ++ chRBrace :: u) ++ [z])
      by (now rewrite <- app_assoc).
    apply JSON_parse_bracket_last.
    + intros ->. apply I, in_or_app. right. now left.
    + destruct (isJsonWs z) eqn:W; [|reflexivity].
      apply JSON_ws_is_white in W. congruence.
Qed.

Lemma app_eq_app_le {A} (a a' x y : list A) :
  a ++ x = a' ++ y -> length a <= length a' ->
  exists m, a' = a ++ m /\ x = m ++ y.
Proof.
  revert a'; induction a as [|h a IH]; intros a' E L.
  - exists a'. now split.
  - destruct a' as [|h' a']; [simpl in L; lia|].
    simpl in E. injection E as <- E. simpl in L.
    destruct (IH a' E) as (m & -> & ->); [lia|]. now exists m.
Qed.

(** The slice from the first bracket through the last brace opens with
    the bracket and ends with the brace. *)
Lemma boundaries text :
  indexOf text (str "[") <> (-1)%Z ->
  (indexOf text (str "[") <= lastIndexOf text (str "}"))%Z ->
  exists m, V3.finalAttemptStr text = chLBracket :: m ++ [chRBrace].
Proof.
  unfold V3.finalAttemptStr.
  change (str "[") with [chLBracket]. change (str "}") with [chRBrace].
  intros Hs Hle.
  destruct (indexOf_present _ _ Hs) as (a & b & E & _ & Ea).
  assert (Hl : lastIndexOf text [chRBrace] <> (-1)%Z).
  { pose proof (len_nonneg a). lia. }
  destruct (lastIndexOf_present _ _ Hl) as (a' & b' & E' & _ & Ea').
  rewrite Ea, Ea' in *.
  assert (L : length a <= length a') by (clear - Hle; unfold len in Hle; lia).
  rewrite E in E'. destruct (app_eq_app_le _ _ _ _ E' L) as (m & -> & Em).
  destruct m as [|x m]; [discriminate Em|].
  injection Em as <- ->. exists m. rewrite E.
  replace (a ++ chLBracket :: m ++ chRBrace :: b')
    with (a ++ (chLBracket :: m ++ [chRBrace]) ++ b')
    by (simpl; now rewrite <- app_assoc).
  replace (len (a ++ chLBracket :: m) + 1)%Z
    with (len a + len (chLBracket :: m ++ [chRBrace]))%Z.
  2:{ change (chLBracket :: m ++ [chRBrace]) with ((chLBracket :: m) ++ [chRBrace]).
      rewrite !len_app. change (len [chRBrace]) with 1%Z. lia. }
  apply substring_middle.
Qed.

(** The last attempt of the repair, on the slice without a closing bracket,
    never succeeds. *)
Lemma final_attempt_fails text :
  indexOf text (str "[") <> (-1)%Z ->
  (indexOf text (str "[") <= lastIndexOf text (str "}"))%Z ->
  JSON_parse (V3.finalAttemptStr text) = None.
Proof.
  intros Hs Hle. destruct (boundaries text Hs Hle) as (m & ->).
  apply JSON_parse_bracket_last; [discriminate|reflexivity].
Qed.

(** The candidate of the repair, when it parses, parses to an array. *)
Lemma candidate_is_array text parsed :
  indexOf text (str "[") <> (-1)%Z ->
  (indexOf text (str "[") <= lastIndexOf text (str "}"))%Z ->
  JSON_parse (V3.potentialJson text) = Some parsed ->
  isArray parsed = true.
Proof.
  intros Hs Hle. unfold V3.potentialJson.
  destruct (boundaries text Hs Hle) as (m & ->).
  intros P. now apply JSON_parse_bracket in P.
Qed.

End NormaliserFacts.

(** ** Claims on the response normaliser *)

(** C1 (as stated, refuted): [Samples.nestedTruncated] is an array cut
    inside its second object after one complete object, yet
    [robustJsonParse] does not return that object: the last closing brace
    belongs to an object nested in the second one, the candidate does not
    parse and the call throws. *)
Lemma C1_counterexample_nested_object :
  JSON_parse ((chLBracket :: Samples.nestedBody ++ [chRBrace]) ++ str "]")
    = Some (JArray [JObject [(str "a", JNumber false 1 0)]])
  /\ JSON_parse (Samples.nestedTruncated ++ Samples.nestedRest)
     = Some (JArray [JObject [(str "a", JNumber false 1 0)];
                     JObject [(str "b", JObject [(str "c", JNumber false 2 0)]);
                              (str "d", JNumber false 3 0)]])
  /\ V3.robustJsonParse Samples.nestedTruncated = Throw (ErrorObj V3.msgMalformed).
Proof. repeat split; vm_compute; reflexivity. Qed.

(** C1 (amended): when the response is an array cut after a complete
    object ([[ body }] followed by [tail]), the direct parse fails and no
    closing brace occurs in [tail], [robustJsonParse] returns exactly the
    elements of the array closed after that object. *)
Theorem C1_truncated_array_recovered (body tail : jsstring) (objs : list json) :
  JSON_parse ((chLBracket :: body ++ [chRBrace]) ++ str "]") = Some (JArray objs) ->
  ~ In chRBrace tail ->
  JSON_parse (V3.stripFences ((chLBracket :: body ++ [chRBrace]) ++ tail)) = None ->
  V3.robustJsonParse ((chLBracket :: body ++ [chRBrace]) ++ tail) = Ok (JArray objs).
Proof. apply robustJsonParse_truncated. Qed.

Lemma C1_witness_spec_example :
  V3.robustJsonParse Samples.truncated = Ok (JArray [Samples.firstRecord]).
Proof.
  apply (C1_truncated_array_recovered Samples.firstBody Samples.cutTail).
  - vm_compute; reflexivity.
  - vm_compute. intuition discriminate.
  - vm_compute; reflexivity.
Defined.

(** The same recovery without the assumption on the direct parse: a tail
    without closing bracket cannot make the text valid. *)
Lemma truncated_array_without_closers body tail objs :
  JSON_parse ((chLBracket :: body ++ [chRBrace]) ++ str "]") = Some (JArray objs) ->
  ~ In chRBrace tail -> ~ In chRBracket tail ->
  V3.robustJsonParse ((chLBracket :: body ++ [chRBrace]) ++ tail) = Ok (JArray objs).
Proof.
  intros H1 H2 H3. apply robustJsonParse_truncated; try assumption.
  now apply truncated_not_json.
Qed.

(** The second version repairs at the last comma and loses the example. *)
Fact V2_truncated_example :
  V2.robustJsonParse Samples.truncated = Throw (ErrorObj V2.msgMalformed).
Proof. vm_compute; reflexivity. Qed.

(** C2 (as stated, refuted): [42] holds no bracket and is returned as the
    number it parses to, not rejected; [[1]] holds a bracket and no brace
    and is returned as the array it parses to, not as the empty array. *)
Lemma C2_counterexample_direct_parse :
  (~ In chLBracket (V3.stripFences (str "42"))
   /\ V3.robustJsonParse (str "42") = Ok (JNumber false 42 0))
  /\ (In chLBracket (V3.stripFences (str "[1]"))
      /\ (lastIndexOf (V3.stripFences (str "[1]")) (str "}")
          < indexOf (V3.stripFences (str "[1]")) (str "["))%Z
      /\ V3.robustJsonParse (str "[1]") = Ok (JArray [JNumber false 1 0])).
Proof.
  split; [split|split; [|split]].
  - vm_compute. intuition discriminate.
  - vm_compute; reflexivity.
  - vm_compute. auto.
  - vm_compute; reflexivity.
  - vm_compute; reflexivity.
Qed.

(** C2 (amended): when the direct parse of the stripped text fails, a text
    without opening bracket is rejected with the not-an-array error, and a
    text whose last closing brace lies before its first opening bracket
    (or is absent) yields the empty array; [[]] parses directly to the
    empty array and [[] is repaired to it. *)
Theorem C2_repair_boundaries (raw : jsstring) :
  JSON_parse (V3.stripFences raw) = None ->
  (~ In chLBracket (V3.stripFences raw) ->
   V3.robustJsonParse raw = Throw (ErrorObj V3.msgNotArray))
  /\ (In chLBracket (V3.stripFences raw) ->
      (lastIndexOf (V3.stripFences raw) (str "}")
       < indexOf (V3.stripFences raw) (str "["))%Z ->
      V3.robustJsonParse raw = Ok (JArray []))
  /\ V3.robustJsonParse (str "[]") = Ok (JArray [])
  /\ V3.robustJsonParse (str "[") = Ok (JArray []).
Proof.
  intros Hd. split; [|split; [|split; vm_compute; reflexivity]].
  - intros Hn. unfold V3.robustJsonParse. rewrite Hd.
    now rewrite (@indexOf_absent _ _ Hn : indexOf _ (str "[") = _).
  - intros Hi Hlt. unfold V3.robustJsonParse. rewrite Hd.
    destruct (Z.eqb_spec (indexOf (V3.stripFences raw) (str "[")) (-1)) as [E|_].
    + apply (indexOf_minus1 _ chLBracket) in E. contradiction.
    + apply Z.ltb_lt in Hlt. now rewrite Hlt.
Qed.

Lemma C2_witness :
  V3.robustJsonParse (str "hello") = Throw (ErrorObj V3.msgNotArray)
  /\ V3.robustJsonParse (str " [ ") = Ok (JArray []).
Proof.
  split.
  - refine (proj1 (C2_repair_boundaries (str "hello") _) _).
    + vm_compute; reflexivity.
    + vm_compute. intuition discriminate.
  - refine (proj1 (proj2 (C2_repair_boundaries (str " [ ") _)) _ _).
    + vm_compute; reflexivity.
    + vm_compute. auto.
    + vm_compute; reflexivity.
Defined.

(** The second version has no such rule: a lone bracket is an error there. *)
Fact V2_lone_bracket :
  V2.robustJsonParse (str "[") = Throw (ErrorObj V2.msgMalformed).
Proof. vm_compute; reflexivity. Qed.

(** C3: when the direct parse of the stripped text fails, the text holds an
    opening bracket with a closing brace after it, and the candidate (the
    slice from the first bracket through the last brace, closed with a
    bracket) does not parse either, [robustJsonParse] throws the
    malformed-response error, which differs from the not-an-array error;
    nothing is returned. *)
Theorem C3_unrecoverable (raw : jsstring) :
  JSON_parse (V3.stripFences raw) = None ->
  In chLBracket (V3.stripFences raw) ->
  (indexOf (V3.stripFences raw) (str "[")
   <= lastIndexOf (V3.stripFences raw) (str "}"))%Z ->
  JSON_parse (V3.potentialJson (V3.stripFences raw)) = None ->
  V3.robustJsonParse raw = Throw (ErrorObj V3.msgMalformed)
  /\ V3.msgMalformed <> V3.msgNotArray.
Proof.
  intros Hd Hi Hle Hc. split; [|vm_compute; discriminate].
  assert (Hs : indexOf (V3.stripFences raw) (str "[") <> (-1)%Z).
  { intros E. apply (indexOf_minus1 _ chLBracket) in E. contradiction. }
  unfold V3.robustJsonParse. rewrite Hd, Hc.
  rewrite final_attempt_fails by assumption.
  destruct (Z.eqb_spec (indexOf (V3.stripFences raw) (str "[")) (-1)); [contradiction|].
  destruct (Z.ltb_spec (lastIndexOf (V3.stripFences raw) (str "}"))
                       (indexOf (V3.stripFences raw) (str "["))); [lia|].
  reflexivity.
Qed.

Lemma C3_witness :
  V3.robustJsonParse Samples.nestedTruncated = Throw (ErrorObj V3.msgMalformed)
  /\ V3.msgMalformed <> V3.msgNotArray.
Proof.
  apply (C3_unrecoverable Samples.nestedTruncated).
  - vm_compute; reflexivity.
  - vm_compute. auto.
  - vm_compute. discriminate.
  - vm_compute; reflexivity.
Defined.

(** C4 (as stated, refuted): the text [```[1]```] normalises to the array
    [[1]]; wrapped in fences once more, with or without the language tag,
    it normalises to the empty array, because only the outer fences are
    removed. *)
Lemma C4_counterexample_fenced_twice :
  V3.robustJsonParse Samples.fencedAlready = Ok (JArray [JNumber false 1 0])
  /\ V3.robustJsonParse (fenced (str "json") Samples.fencedAlready) = Ok (JArray [])
  /\ V3.robustJsonParse (fenced [] Samples.fencedAlready) = Ok (JArray []).
Proof. repeat split; vm_compute; reflexivity. Qed.

Lemma stripFences_fenced_json s : V3.stripFences (fenced (str "json") s) = trim s.
Proof.
  unfold V3.stripFences. cbv zeta.
  assert (T : trim (fenced (str "json") s) = fenced (str "json") s).
  { unfold fenced.
    replace (str "```" ++ str "json" ++ nl ++ s ++ nl ++ str "```")
      with (96%N :: (str "``json" ++ nl ++ s ++ nl ++ str "``") ++ [96%N])
      by (simpl; now rewrite <- !app_assoc).
    now apply trim_fixed. }
  rewrite T.
  assert (E : fenced (str "json") s = str "```json" ++ (nl ++ s ++ nl) ++ V3.fence).
  { unfold fenced. simpl. now rewrite <- !app_assoc. }
  rewrite E.
  rewrite startsWith_app.
  replace (endsWith (str "```json" ++ (nl ++ s ++ nl) ++ V3.fence) V3.fence) with true
    by (symmetry; rewrite app_assoc; apply endsWith_app).
  rewrite (@slice_between (str "```json") (nl ++ s ++ nl) V3.fence 7 (-3))
    by reflexivity.
  apply trim_white; repeat constructor.
Qed.

Lemma stripFences_fenced_plain s : V3.stripFences (fenced [] s) = trim s.
Proof.
  unfold V3.stripFences. cbv zeta.
  assert (T : trim (fenced [] s) = fenced [] s).
  { unfold fenced.
    replace (str "```" ++ [] ++ nl ++ s ++ nl ++ str "```")
      with (96%N :: (str "``" ++ nl ++ s ++ nl ++ str "``") ++ [96%N])
      by (simpl; now rewrite <- !app_assoc).
    now apply trim_fixed. }
  rewrite T.
  assert (J : startsWith (fenced [] s) (str "```json") = false) by reflexivity.
  rewrite J.
  assert (E : fenced [] s = V3.fence ++ (nl ++ s ++ nl) ++ V3.fence).
  { unfold fenced. simpl. now rewrite <- !app_assoc. }
  rewrite E.
  rewrite startsWith_app.
  replace (endsWith (V3.fence ++ (nl ++ s ++ nl) ++ V3.fence) V3.fence) with true
    by (symmetry; rewrite app_assoc; apply endsWith_app).
  rewrite (@slice_between V3.fence (nl ++ s ++ nl) V3.fence 3 (-3))
    by reflexivity.
  apply trim_white; repeat constructor.
Qed.

(** C4 (amended): for every text that does not itself open with a fence
    once trimmed, the text wrapped in fences, with the tag [json] or with
    none, normalises to the same records or the same failure as the text
    itself. *)
Theorem C4_fences_transparent (s : jsstring) :
  startsWith (trim s) V3.fence = false ->
  V3.robustJsonParse (fenced (str "json") s) = V3.robustJsonParse s
  /\ V3.robustJsonParse (fenced [] s) = V3.robustJsonParse s.
Proof.
  intros H. split; apply robustJsonParse_strip.
  - now rewrite stripFences_fenced_json, stripFences_plain.
  - now rewrite stripFences_fenced_plain, stripFences_plain.
Qed.

(** The second version does not trim inside the fences: white space that
    is not JSON white space then breaks the parse. *)
Fact V2_fences_keep_padding :
  V2.robustJsonParse Samples.paddedEmpty = Ok (JArray [])
  /\ V2.robustJsonParse (fenced (str "json") Samples.paddedEmpty)
     = Throw (ErrorObj V2.msgMalformed).
Proof. split; vm_compute; reflexivity. Qed.

Lemma C4_witness :
  V3.robustJsonParse (fenced (str "json") Samples.truncated)
    = V3.robustJsonParse Samples.truncated
  /\ V3.robustJsonParse (fenced [] Samples.truncated)
    = V3.robustJsonParse Samples.truncated.
Proof.
  apply (C4_fences_transparent Samples.truncated). vm_compute; reflexivity.
Defined.

(** ** Runs of the service *)

Section ServiceFacts.

Variable API_KEY : option jsstring.
Variable generateContent : list Part -> result (option jsstring).

Lemma getAiInstance_available w :
  clientAvailable API_KEY w = true ->
  getAiInstance API_KEY w = (Ok tt, mkWorld true (calls w)).
Proof.
  unfold clientAvailable, getAiInstance, bind, getWorld, ret, setAiInstance.
  destruct w as [ready cs]; simpl. destruct ready; [reflexivity|].
  destruct API_KEY as [[|c k]|]; simpl; intros H; try discriminate H. reflexivity.
Qed.

Lemma getAiInstance_unavailable w :
  clientAvailable API_KEY w = false ->
  getAiInstance API_KEY w = (Throw (ErrorObj msgKeyMissing), w).
Proof.
  unfold clientAvailable, getAiInstance, bind, getWorld, ret, setAiInstance.
  destruct w as [ready cs]; simpl. destruct ready; [discriminate|].
  destruct API_KEY as [[|c k]|]; simpl; intros H; try discriminate H; reflexivity.
Qed.

Lemma encodeImages_run imageFiles parts w :
  V3.encodeImages imageFiles parts w
  = (Ok (parts ++ map inlinePartOf imageFiles),
     mkWorld (aiInstance w) (calls w ++ map EvEncode imageFiles)).
Proof.
  revert parts w; induction imageFiles as [|f r IH]; intros parts w.
  - destruct w. simpl. unfold ret. now rewrite !app_nil_r.
  - simpl. unfold bind at 1. unfold fileToGenerativePart, bind, emit, ret.
    rewrite IH. simpl. now rewrite <- !app_assoc.
Qed.

(** The [catch] clause always throws and leaves the state alone. *)
Lemma catchClause_run error w :
  V3.catchClause error w
  = (match error with
     | ErrorObj message =>
         if includes message sigInvalidKey
         then Throw (ErrorObj msgInvalidKey) else Throw error
     | NonError _ => Throw (ErrorObj V3.msgUnknown)
     end, w).
Proof.
  destruct error as [m|v]; simpl; [|reflexivity].
  now destruct (includes m sigInvalidKey).
Qed.





Lemma generateTestCases_rejects prdText figmaLink imageFiles focusPrompt w :
  clientAvailable API_KEY w = true ->
  noInput prdText figmaLink imageFiles = true ->
  V3.generateTestCases API_KEY generateContent prdText figmaLink imageFiles
                       focusPrompt w
  = (Throw (ErrorObj msgNoInput), mkWorld true (calls w)).
Proof.
  intros Ha Hn. unfold V3.generateTestCases, bind.
  rewrite getAiInstance_available by assumption.
  unfold noInput in Hn. now rewrite Hn.
Qed.

Lemma generateTestCases_proceeds prdText figmaLink imageFiles focusPrompt w :
  clientAvailable API_KEY w = true ->
  noInput prdText figmaLink imageFiles = false ->
  V3.generateTestCases API_KEY generateContent prdText figmaLink imageFiles
                       focusPrompt w
  = tryCatch (V3.tryBlock generateContent
                (requestParts prdText figmaLink imageFiles focusPrompt))
             V3.catchClause
             (mkWorld true (calls w ++ map EvEncode imageFiles)).
Proof.
  intros Ha Hn. unfold V3.generateTestCases, bind.
  rewrite getAiInstance_available by assumption.
  unfold noInput in Hn. rewrite Hn.
  rewrite encodeImages_run. reflexivity.
Qed.


Lemma generateTestCases_thrown prdText figmaLink imageFiles focusPrompt w t :
  clientAvailable API_KEY w = true ->
  noInput prdText figmaLink imageFiles = false ->
  generateContent (requestParts prdText figmaLink imageFiles focusPrompt) = Throw t ->
  fst (V3.generateTestCases API_KEY generateContent prdText figmaLink
                            imageFiles focusPrompt w)
  = match t with
    | ErrorObj message =>
        if includes message sigInvalidKey
        then Throw (ErrorObj msgInvalidKey) else Throw t
    | NonError _ => Throw (ErrorObj V3.msgUnknown)
    end.
Proof.
  intros Ha Hn Ht. rewrite generateTestCases_proceeds by assumption.
  unfold tryCatch, V3.tryBlock, bind, emit, liftResult. rewrite Ht. simpl.
  now rewrite catchClause_run.
Qed.

Lemma generateTestCases_not_list prdText figmaLink imageFiles focusPrompt w c t v :
  clientAvailable API_KEY w = true ->
  noInput prdText figmaLink imageFiles = false ->
  generateContent (requestParts prdText figmaLink imageFiles focusPrompt)
    = Ok (Some (c :: t)) ->
  V3.robustJsonParse (c :: t) = Ok v -> isArray v = false ->
  fst (V3.generateTestCases API_KEY generateContent prdText figmaLink
                            imageFiles focusPrompt w)
  = Throw (ErrorObj V3.msgNotList).
Proof.
  intros Ha Hn Hg Hp Hv. rewrite generateTestCases_proceeds by assumption.
  unfold tryCatch, V3.tryBlock, bind, emit, liftResult. rewrite Hg. simpl.
  rewrite Hp, Hv. unfold throwError, throw. now rewrite catchClause_run.
Qed.

End ServiceFacts.

(** ** Claims on records, single objects and the service *)

Lemma getMember_app_other k k' v ms :
  jsstring_eqb k' k = false ->
  getMember k (ms ++ [(k', v)]) = getMember k ms.
Proof.
  intros H. induction ms as [|[k0 v0] ms IH]; simpl.
  - now rewrite H.
  - now rewrite IH.
Qed.

(** C5 (as stated, refuted): the batch with the single record
    [Samples.bareRecord] is normalised to that very record; its domain,
    suite type and type are still absent afterwards. *)
Lemma C5_counterexample_no_defaults :
  V3.robustJsonParse Samples.bareBatch = Ok (JArray [Samples.bareRecord])
  /\ getMember (str "domain") (App.spread Samples.bareRecord) = None
  /\ getMember (str "suiteType") (App.spread Samples.bareRecord) = None
  /\ getMember (str "type") (App.spread Samples.bareRecord) = None.
Proof. repeat split; vm_compute; reflexivity. Qed.

(** C5 (amended): normalisation returns the records as parsed; the defaults
    are applied where a record is used.  For every record of a normalised
    batch, once it has received its status, the worksheet row of the
    export gives domain Functional when the record has no domain, suite
    type Regression when it has no suite type, and type Positive when it
    has no type. *)
Theorem C5_defaults_on_export (raw : jsstring) (items : list json) (tc : json) :
  V3.robustJsonParse raw = Ok (JArray items) ->
  In tc items ->
  (getMember (str "domain") (App.spread tc) = None ->
   App.rowField (str "domain") (App.worksheetRow (App.withStatus tc))
   = Some (JString (str "Functional")))
  /\ (getMember (str "suiteType") (App.spread tc) = None ->
      App.rowField (str "test suite type") (App.worksheetRow (App.withStatus tc))
      = Some (JString (str "Regression")))
  /\ (getMember (str "type") (App.spread tc) = None ->
      App.rowField (str "type") (App.worksheetRow (App.withStatus tc))
      = Some (JString (str "Positive"))).
Proof.
  intros _ _. unfold App.withStatus.
  repeat split; intros H; unfold App.worksheetRow, App.rowField; simpl find;
    cbv beta iota; rewrite getMember_app_other by reflexivity; now rewrite H.
Qed.

Lemma C5_witness :
  App.rowField (str "domain")
    (App.worksheetRow (App.withStatus Samples.bareRecord))
  = Some (JString (str "Functional"))
  /\ App.rowField (str "test suite type")
       (App.worksheetRow (App.withStatus Samples.bareRecord))
     = Some (JString (str "Regression"))
  /\ App.rowField (str "type")
       (App.worksheetRow (App.withStatus Samples.bareRecord))
     = Some (JString (str "Positive")).
Proof.
  assert (P : V3.robustJsonParse Samples.bareBatch = Ok (JArray [Samples.bareRecord]))
    by (vm_compute; reflexivity).
  assert (I : In Samples.bareRecord [Samples.bareRecord]) by (now left).
  destruct (C5_defaults_on_export Samples.bareBatch Samples.bareRecord P I)
    as (D & S & T).
  split; [|split].
  - apply D. vm_compute; reflexivity.
  - apply S. vm_compute; reflexivity.
  - apply T. vm_compute; reflexivity.
Defined.

(** The end-to-end scenario: the response is one record; its type is kept
    and the export supplies the domain and the suite type. *)
Example password_scenario :
  exists tc,
    V3.robustJsonParse Samples.passwordResponse = Ok (JArray [tc])
    /\ getMember (str "testSteps") (App.spread tc)
       = Some (JString (str "1. Navigate to login" ++ nl
                        ++ str "2. Click Forgot Password" ++ nl
                        ++ str "3. Enter valid email"))
    /\ App.rowField (str "type") (App.worksheetRow (App.withStatus tc))
       = Some (JString (str "Positive"))
    /\ App.rowField (str "domain") (App.worksheetRow (App.withStatus tc))
       = Some (JString (str "Functional"))
    /\ App.rowField (str "test suite type") (App.worksheetRow (App.withStatus tc))
       = Some (JString (str "Regression"))
    /\ App.rowField (str "status") (App.worksheetRow (App.withStatus tc))
       = Some (JString (str "Untested")).
Proof. eexists. repeat split; vm_compute; reflexivity. Qed.

(** C6 (as stated, refuted): a response that is a single object is
    returned as that object, not as a sequence of one record, and the
    service then rejects it. *)
Lemma C6_counterexample_single_object :
  V3.robustJsonParse Samples.singleObject = Ok Samples.bareRecord
  /\ V3.robustJsonParse Samples.singleObject <> Ok (JArray [Samples.bareRecord])
  /\ fst (V3.generateTestCases Samples.someKey
            (Samples.answering Samples.singleObject)
            (str "doc") [] [] [] Samples.freshWorld)
     = Throw (ErrorObj V3.msgNotList).
Proof.
  split; [vm_compute; reflexivity|].
  split; [vm_compute; discriminate|vm_compute; reflexivity].
Qed.

(** C6 (amended): an object obtained by the direct parse is returned as it
    is, and [generateTestCases] rejects it with the error of a response
    that is not a list; on the repair path the candidate, when it parses,
    always parses to an array, so that nothing is ever wrapped. *)
Theorem C6_single_object_rejected
    (API_KEY : option jsstring)
    (generateContent : list Part -> result (option jsstring))
    (prdText figmaLink : jsstring) (imageFiles : list File)
    (focusPrompt : jsstring) (w : world)
    (c : char16) (t : jsstring) (members : list (jsstring * json)) :
  JSON_parse (V3.stripFences (c :: t)) = Some (JObject members) ->
  clientAvailable API_KEY w = true ->
  noInput prdText figmaLink imageFiles = false ->
  generateContent (requestParts prdText figmaLink imageFiles focusPrompt)
    = Ok (Some (c :: t)) ->
  V3.robustJsonParse (c :: t) = Ok (JObject members)
  /\ fst (V3.generateTestCases API_KEY generateContent prdText figmaLink
                               imageFiles focusPrompt w)
     = Throw (ErrorObj V3.msgNotList)
  /\ (forall text parsed,
        indexOf text (str "[") <> (-1)%Z ->
        (indexOf text (str "[") <= lastIndexOf text (str "}"))%Z ->
        JSON_parse (V3.potentialJson text) = Some parsed ->
        V3.asArray parsed = parsed).
Proof.
  intros Hp Ha Hn Hg.
  assert (R : V3.robustJsonParse (c :: t) = Ok (JObject members)).
  { unfold V3.robustJsonParse. now rewrite Hp. }
  split; [assumption|split].
  - eapply generateTestCases_not_list; try eassumption. reflexivity.
  - intros text parsed Hs Hle P. unfold V3.asArray.
    now rewrite (candidate_is_array text Hs Hle P).
Qed.

Lemma C6_witness :
  V3.robustJsonParse Samples.singleObject = Ok Samples.bareRecord
  /\ fst (V3.generateTestCases Samples.someKey
            (Samples.answering Samples.singleObject)
            (str "doc") [] [Samples.smallImage] [] Samples.freshWorld)
     = Throw (ErrorObj V3.msgNotList).
Proof.
  assert (H := C6_single_object_rejected Samples.someKey
                 (Samples.answering Samples.singleObject)
                 (str "doc") [] [Samples.smallImage] [] Samples.freshWorld
                 (c := 123%N) (t := tl Samples.singleObject)
                 (members := [ (str "testCaseId", JString (str "TC_001")) ])
                 ltac:(vm_compute; reflexivity) ltac:(reflexivity)
                 ltac:(vm_compute; reflexivity) ltac:(reflexivity)).
  split; [exact (proj1 H)|exact (proj1 (proj2 H))].
Defined.




(** Without a configured key and before the client exists, the same empty
    request fails on the configuration instead. *)
Fact V3_key_checked_first :
  V3.generateTestCases None (Samples.answering (str "[]")) [] [] [] []
    Samples.freshWorld
  = (Throw (ErrorObj msgKeyMissing), Samples.freshWorld).
Proof. vm_compute; reflexivity. Qed.

(** The first version requires the document text, whatever else is given. *)
Fact V1_requires_document generateContent syntaxErrorMessage figmaLink imageFile w :
  V1.generateTestCases generateContent syntaxErrorMessage [] figmaLink imageFile w
  = (Throw (ErrorObj V1.msgNoPrd), w).
Proof. reflexivity. Qed.

(** C9 (as stated, refuted): a thrown value that is not an error object
    does not reach the caller unchanged; an error with a generic message
    is raised in its place. *)
Lemma C9_counterexample_non_error :
  fst (V3.generateTestCases Samples.someKey
         (Samples.failing (NonError (JString (str "boom"))))
         (str "doc") [] [] [] Samples.freshWorld)
  = Throw (ErrorObj V3.msgUnknown)
  /\ Throw (A := json) (ErrorObj V3.msgUnknown)
     <> Throw (NonError (JString (str "boom"))).
Proof. split; [vm_compute; reflexivity|discriminate]. Qed.

(** C9 (amended): when the generation call throws, [generateTestCases]
    raises the clarified invalid-key error if the thrown value is an error
    object whose message contains the signature, re-raises every other
    error object unchanged, and replaces a thrown value that is not an
    error object by an error with a generic message. *)
Theorem C9_error_classification
    (API_KEY : option jsstring)
    (generateContent : list Part -> result (option jsstring))
    (prdText figmaLink : jsstring) (imageFiles : list File)
    (focusPrompt : jsstring) (w : world) (t : thrown) :
  clientAvailable API_KEY w = true ->
  noInput prdText figmaLink imageFiles = false ->
  generateContent (requestParts prdText figmaLink imageFiles focusPrompt) = Throw t ->
  fst (V3.generateTestCases API_KEY generateContent prdText figmaLink
                            imageFiles focusPrompt w)
  = match t with
    | ErrorObj message =>
        if includes message sigInvalidKey
        then Throw (ErrorObj msgInvalidKey) else Throw t
    | NonError _ => Throw (ErrorObj V3.msgUnknown)
    end.
Proof. apply generateTestCases_thrown. Qed.

Lemma C9_witness :
  fst (V3.generateTestCases Samples.someKey
         (Samples.failing (ErrorObj (str "[400] API key not valid. Please pass a valid API key.")))
         (str "doc") [] [] [] Samples.freshWorld)
  = Throw (ErrorObj msgInvalidKey)
  /\ fst (V3.generateTestCases Samples.someKey
            (Samples.failing (ErrorObj (str "fetch failed")))
            (str "doc") [] [] [] Samples.freshWorld)
     = Throw (ErrorObj (str "fetch failed")).
Proof.
  split.
  - exact (C9_error_classification Samples.someKey
             (Samples.failing (ErrorObj (str "[400] API key not valid. Please pass a valid API key.")))
             (str "doc") [] [] [] Samples.freshWorld
             eq_refl eq_refl eq_refl).
  - exact (C9_error_classification Samples.someKey
             (Samples.failing (ErrorObj (str "fetch failed")))
             (str "doc") [] [] [] Samples.freshWorld
             eq_refl eq_refl eq_refl).
Defined.

(** The first version replaces every other error by a generic one. *)
Fact V1_replaces_errors :
  fst (V1.generateTestCases (Samples.failing (ErrorObj (str "fetch failed")))
         (fun _ => str "Unexpected end of JSON input")
         (str "doc") [] None Samples.freshWorld)
  = Throw (ErrorObj V1.msgFailed).
Proof. vm_compute; reflexivity. Qed.

(** ** Claims on the prompt and on image sizes *)

Section SubstringFacts.

Implicit Types s p a b x y : jsstring.

Lemma indexOfFrom_found s p i :
  (0 <= i)%Z -> (0 <= indexOfFrom s p i)%Z -> exists a b, s = a ++ p ++ b.
Proof.
  revert i; induction s as [|c s IH]; intros i Hi; simpl.
  - destruct p as [|q p]; simpl; [|lia]. intros _. now exists [], [].
  - destruct (startsWith (c :: s) p) eqn:S.
    + intros _. apply startsWith_split in S as (r & ->). now exists [], r.
    + intros H. apply IH in H as (a & b & ->); [|lia]. now exists (c :: a), b.
Qed.

Lemma indexOfFrom_inside a p b i :
  (0 <= i)%Z -> (0 <= indexOfFrom (a ++ p ++ b) p i)%Z.
Proof.
  revert i; induction a as [|c a IH]; intros i Hi.
  - simpl app. destruct (p ++ b) as [|c r] eqn:E; simpl.
    + destruct p; [assumption|discriminate E].
    + rewrite <- E, startsWith_app. assumption.
  - simpl. destruct (startsWith (c :: a ++ p ++ b) p); [assumption|].
    apply IH. lia.
Qed.

Lemma includes_iff s p : includes s p = true <-> exists a b, s = a ++ p ++ b.
Proof.
  unfold includes, indexOf. split.
  - intros H. apply Z.leb_le in H. eapply indexOfFrom_found; [|eassumption]. lia.
  - intros (a & b & ->). apply Z.leb_le, indexOfFrom_inside. lia.
Qed.

Lemma includes_head p b : includes (p ++ b) p = true.
Proof. apply includes_iff. now exists [], b. Qed.

Lemma includes_app_r a s p : includes s p = true -> includes (a ++ s) p = true.
Proof.
  rewrite !includes_iff. intros (x & y & ->). exists (a ++ x), y.
  now rewrite <- app_assoc.
Qed.

Lemma includes_app_l s b p : includes s p = true -> includes (s ++ b) p = true.
Proof.
  rewrite !includes_iff. intros (x & y & ->). exists x, (y ++ b).
  now rewrite <- !app_assoc.
Qed.

Lemma startsWith_separator c p x y :
  ~ In c p -> startsWith (x ++ c :: y) p = startsWith x p.
Proof.
  revert x; induction p as [|q p IH]; intros x H; [reflexivity|].
  destruct x as [|h x]; simpl.
  - destruct (N.eqb_spec q c) as [->|_]; [exfalso; apply H; now left|reflexivity].
  - f_equal. apply IH. intros K; apply H; now right.
Qed.

(** No occurrence of a pattern straddles a character the pattern lacks. *)
Lemma countOcc_separator c p x y :
  p <> [] -> ~ In c p ->
  countOcc p (x ++ c :: y) = countOcc p x + countOcc p y.
Proof.
  intros Hp Hc. induction x as [|h x IH].
  - simpl app. cbn [countOcc].
    change (c :: y) with ([] ++ c :: y) at 1.
    rewrite startsWith_separator by assumption.
    destruct p; [contradiction|reflexivity].
  - change ((h :: x) ++ c :: y) with (h :: x ++ c :: y). cbn [countOcc].
    change (h :: x ++ c :: y) with ((h :: x) ++ c :: y).
    rewrite startsWith_separator by assumption. rewrite IH. lia.
Qed.

Lemma countOcc_between c p a x b :
  p <> [] -> ~ In c p ->
  countOcc p (a ++ c :: x ++ c :: b) = countOcc p a + countOcc p x + countOcc p b.
Proof.
  intros Hp Hc. rewrite !countOcc_separator by assumption. lia.
Qed.

End SubstringFacts.

Lemma marker_no_newline : ~ In chLF marker.
Proof. vm_compute. intuition discriminate. Qed.

Lemma marker_nonempty : marker <> [].
Proof. discriminate. Qed.

Lemma includes_prdSection prd : includes (V3.prdSection prd) V3.headPrd = true.
Proof. unfold V3.prdSection. destruct (nonEmpty prd); apply includes_head. Qed.

Lemma includes_figmaSection link : includes (V3.figmaSection link) V3.headFigma = true.
Proof. unfold V3.figmaSection. destruct (nonEmpty link); apply includes_head. Qed.

Lemma includes_imageSection n : includes (V3.imageSection n) V3.headImages = true.
Proof.
  unfold V3.imageSection. destruct (0 <? n)%N; [apply includes_head|].
  apply includes_app_l. reflexivity.
Qed.

Lemma focusSection_count focus :
  countOcc marker (V3.promptIntro ++ V3.focusSection focus ++ V3.promptAnalyze
                   ++ V3.headPrd ++ nl ++ V3.fence)
  = countOcc marker focus.
Proof.
  destruct focus as [|c t]; [vm_compute; reflexivity|].
  unfold V3.focusSection. cbn [nonEmpty].
  replace (V3.promptIntro
           ++ (V3.headFocus ++ nl ++ V3.rule ++ nl ++ (c :: t) ++ nl ++ V3.rule ++ nl)
           ++ V3.promptAnalyze ++ V3.headPrd ++ nl ++ V3.fence)
    with ((V3.promptIntro ++ V3.headFocus ++ nl ++ V3.rule)
          ++ chLF :: (c :: t)
          ++ chLF :: (V3.rule ++ nl ++ V3.promptAnalyze ++ V3.headPrd ++ nl ++ V3.fence))
    by (unfold nl; rewrite <- ?app_assoc; cbn [app]; rewrite <- ?app_assoc; reflexivity).
  rewrite countOcc_between by (apply marker_nonempty || apply marker_no_newline).
  replace (countOcc marker (V3.promptIntro ++ V3.headFocus ++ nl ++ V3.rule)) with 0
    by (vm_compute; reflexivity).
  replace (countOcc marker (V3.rule ++ nl ++ V3.promptAnalyze ++ V3.headPrd ++ nl ++ V3.fence))
    with 0 by (vm_compute; reflexivity).
  lia.
Qed.

Lemma createPrompt_count prd focus :
  prd <> [] ->
  countOcc marker (V3.createPrompt prd [] 0 focus)
  = 2 + countOcc marker prd + countOcc marker focus.
Proof.
  intros Hp. unfold V3.createPrompt, V3.prdSection.
  destruct prd as [|c t]; [contradiction|]. cbn [nonEmpty].
  set (rest := V3.fence ++ nl ++ nl ++ V3.figmaSection [] ++ nl ++ nl
               ++ V3.imageSection 0 ++ V3.promptTask).
  replace (V3.promptIntro ++ V3.focusSection focus ++ V3.promptAnalyze
           ++ (V3.headPrd ++ nl ++ V3.fence ++ nl ++ (c :: t) ++ nl ++ V3.fence)
           ++ nl ++ nl ++ V3.figmaSection [] ++ nl ++ nl
           ++ V3.imageSection 0 ++ V3.promptTask)
    with ((V3.promptIntro ++ V3.focusSection focus ++ V3.promptAnalyze
           ++ V3.headPrd ++ nl ++ V3.fence)
          ++ chLF :: (c :: t) ++ chLF :: rest).
  2:{ unfold rest, nl. rewrite <- ?app_assoc. cbn [app]. rewrite <- ?app_assoc.
      reflexivity. }
  rewrite countOcc_between by (apply marker_nonempty || apply marker_no_newline).
  rewrite focusSection_count.
  replace (countOcc marker rest) with 2 by (vm_compute; reflexivity).
  lia.
Qed.

(** C8 (as stated, refuted): a document text that itself reads
    [Not provided], with no link and no image, gives an instruction text
    with three occurrences of the marker, not two. *)
Lemma C8_counterexample_marker_in_document :
  marker <> []
  /\ countOcc marker (V3.createPrompt marker [] 0 []) = 3.
Proof. split; [discriminate|vm_compute; reflexivity]. Qed.

(** C8 (amended): for all inputs the instruction text holds the heading of
    each of the three materials and the document text verbatim, and each
    empty input has its heading followed by the marker; for a non-empty
    document text with no link and no image, the marker occurs twice in
    addition to its occurrences in the document text and in the focus
    hint, hence exactly twice when neither of them contains it. *)
Theorem C8_prompt_sections (prdText figmaLink : jsstring) (imageCount : N)
    (focusPrompt : jsstring) :
  (includes (V3.createPrompt prdText figmaLink imageCount focusPrompt) V3.headPrd = true
   /\ includes (V3.createPrompt prdText figmaLink imageCount focusPrompt) V3.headFigma = true
   /\ includes (V3.createPrompt prdText figmaLink imageCount focusPrompt) V3.headImages = true
   /\ includes (V3.createPrompt prdText figmaLink imageCount focusPrompt) prdText = true)
  /\ (prdText = [] ->
      includes (V3.createPrompt prdText figmaLink imageCount focusPrompt)
               (V3.headPrd ++ nl ++ V3.notProvided) = true)
  /\ (figmaLink = [] ->
      includes (V3.createPrompt prdText figmaLink imageCount focusPrompt)
               (V3.headFigma ++ nl ++ V3.notProvided) = true)
  /\ (imageCount = 0%N ->
      includes (V3.createPrompt prdText figmaLink imageCount focusPrompt)
               (V3.headImagesNone ++ nl ++ V3.notProvided) = true)
  /\ (prdText <> [] ->
      countOcc marker (V3.createPrompt prdText [] 0 focusPrompt)
      = 2 + countOcc marker prdText + countOcc marker focusPrompt)
  /\ (prdText <> [] -> countOcc marker prdText = 0 -> countOcc marker focusPrompt = 0 ->
      countOcc marker (V3.createPrompt prdText [] 0 focusPrompt) = 2).
Proof.
  unfold V3.createPrompt.
  split; [repeat split|split; [|split; [|split; [|split]]]].
  - do 3 apply includes_app_r. apply includes_app_l, includes_prdSection.
  - do 6 apply includes_app_r. apply includes_app_l, includes_figmaSection.
  - do 9 apply includes_app_r. apply includes_app_l, includes_imageSection.
  - do 3 apply includes_app_r. apply includes_app_l.
    unfold V3.prdSection. destruct prdText as [|c t]; [reflexivity|]. cbn [nonEmpty].
    do 4 apply includes_app_r. apply includes_head.
  - intros ->. do 3 apply includes_app_r. apply includes_app_l. reflexivity.
  - intros ->. do 6 apply includes_app_r. apply includes_app_l. reflexivity.
  - intros ->. do 9 apply includes_app_r. apply includes_app_l. reflexivity.
  - apply createPrompt_count.
  - intros Hp H1 H2. fold (V3.createPrompt prdText [] 0 focusPrompt).
    rewrite createPrompt_count by assumption. lia.
Qed.

Lemma C8_witness :
  countOcc marker
    (V3.createPrompt (str "Users can reset their password via email.") [] 0 [])
  = 2.
Proof.
  refine (proj2 (proj2 (proj2 (proj2 (proj2
            (C8_prompt_sections (str "Users can reset their password via email.")
                                [] 0 []))))) _ _ _).
  - discriminate.
  - vm_compute; reflexivity.
  - reflexivity.
Defined.

(** ** The payload of an image *)









(** ** White space around a JSON text *)

Unset Implicit Arguments.

Section WhiteTail.

Implicit Types s r : jsstring.

Lemma white_cases c :
  isWhiteSpace c = true ->
  ((9 <= c <= 13) \/ c = 32 \/ c = 160 \/ c = 5760 \/ (8192 <= c <= 8202)
   \/ c = 8232 \/ c = 8233 \/ c = 8239 \/ c = 8287 \/ c = 12288 \/ c = 65279)%N.
Proof.
  unfold isWhiteSpace. intros H.
  repeat match type of H with
         | (_ || _) = true => apply orb_prop in H as [H|H]
         | (_ && _) = true => apply andb_prop in H as [? ?]
         end;
    repeat match goal with
           | K : (_ <=? _)%N = true |- _ => apply N.leb_le in K
           | K : (_ =? _)%N = true |- _ => apply N.eqb_eq in K
           end; lia.
Qed.

Lemma nonwhite_intro c :
  ~ ((9 <= c <= 13) \/ c = 32 \/ c = 160 \/ c = 5760 \/ (8192 <= c <= 8202)
     \/ c = 8232 \/ c = 8233 \/ c = 8239 \/ c = 8287 \/ c = 12288 \/ c = 65279)%N ->
  isWhiteSpace c = false.
Proof.
  intros H. destruct (isWhiteSpace c) eqn:W; [|reflexivity].
  apply white_cases in W. contradiction.
Qed.

Lemma white_not_digit c : isWhiteSpace c = true -> isDigit c = false.
Proof.
  intros W. apply white_cases in W. unfold isDigit.
  destruct (N.leb_spec 48 c), (N.leb_spec c 57); try reflexivity. lia.
Qed.

Lemma digit_not_white c : isDigit c = true -> isWhiteSpace c = false.
Proof.
  intros D. destruct (isWhiteSpace c) eqn:W; [|reflexivity].
  apply white_not_digit in W. congruence.
Qed.

Lemma white_neq c k : isWhiteSpace c = true -> isWhiteSpace k = false -> (c =? k)%N = false.
Proof. intros W K. destruct (N.eqb_spec c k) as [->|]; congruence. Qed.

Lemma white_not_hex c : isWhiteSpace c = true -> hexVal c = None.
Proof.
  intros W. unfold hexVal. rewrite (white_not_digit _ W).
  apply white_cases in W.
  destruct (N.leb_spec 97 c), (N.leb_spec c 102), (N.leb_spec 65 c), (N.leb_spec c 70);
    simpl; try reflexivity; lia.
Qed.

Lemma white_not_escape c : isWhiteSpace c = true -> escapeChar c = None.
Proof.
  intros W. unfold escapeChar.
  repeat (rewrite (white_neq _ _ W) by reflexivity). reflexivity.
Qed.

Lemma trimStart_skip_ws s c r :
  skip_ws s = c :: r -> isWhiteSpace c = false -> trimStart s = c :: r.
Proof.
  induction s as [|x s IH]; simpl; [discriminate|].
  destruct (isJsonWs x) eqn:J.
  - rewrite (JSON_ws_is_white _ J). apply IH.
  - intros E. injection E as -> ->. intros W. now rewrite W.
Qed.

Lemma skip_ws_app_nil a b : skip_ws (a ++ b) = [] -> skip_ws a = [].
Proof.
  intros H. apply skip_ws_nil in H. apply Forall_app in H as [Ha _].
  clear -Ha. induction Ha as [|x a Hx _ IH]; simpl; [reflexivity|]. now rewrite Hx.
Qed.

Lemma white_in w c : allWhite w -> In c w -> isWhiteSpace c = true.
Proof. intros Hw H. unfold allWhite in Hw. rewrite Forall_forall in Hw. auto. Qed.

Lemma skip_ws_suffix_white w c r :
  allWhite w -> skip_ws w = c :: r -> isWhiteSpace c = true.
Proof.
  intros Hw E. destruct (skip_ws_decomp w) as (u & H & _).
  apply (white_in _ _ Hw). rewrite H, E. apply in_or_app. right. now left.
Qed.

(** Skipping white space in front of a structural character does not reach
    into the tail. *)
Lemma skip_ws_app_white w s d r :
  allWhite w ->
  skip_ws (s ++ w) = d :: r -> isWhiteSpace d = false ->
  exists r0, skip_ws s = d :: r0 /\ r = r0 ++ w.
Proof.
  intros Hw. induction s as [|x s IH]; simpl.
  - intros E W. apply (skip_ws_suffix_white _ _ _ Hw) in E. congruence.
  - destruct (isJsonWs x); [apply IH|].
    intros E _. injection E as -> <-. now exists s.
Qed.

Lemma parse_digits_drop w s acc k m k' r :
  allWhite w ->
  parse_digits (s ++ w) acc k = (m, k', r) ->
  exists r0, r = r0 ++ w /\ parse_digits s acc k = (m, k', r0).
Proof.
  intros Hw. revert acc k; induction s as [|x s IH]; intros acc k.
  - simpl app. destruct Hw as [|y t Wy _]; simpl.
    + intros H. injection H as <- <- <-. now exists [].
    + rewrite (white_not_digit y Wy).
      intros H. injection H as <- <- <-. now exists [].
  - simpl. destruct (isDigit x); [apply IH|].
    intros H. injection H as <- <- <-. now exists (x :: s).
Qed.

Lemma parse_chars_white w : allWhite w -> parse_chars w = None.
Proof.
  induction 1 as [|x t Hx _ IH]; simpl; [reflexivity|].
  rewrite (white_neq _ chQuote Hx), (white_neq _ chBackslash Hx) by reflexivity.
  destruct (x <? 32)%N; [reflexivity|]. now rewrite IH.
Qed.

Lemma hex4_white a b c d :
  isWhiteSpace a = true \/ isWhiteSpace b = true
  \/ isWhiteSpace c = true \/ isWhiteSpace d = true ->
  hex4 a b c d = None.
Proof.
  unfold hex4. intros [W|[W|[W|W]]]; rewrite (white_not_hex _ W);
    destruct (hexVal a); try reflexivity;
    destruct (hexVal b); try reflexivity;
    destruct (hexVal c); reflexivity.
Qed.

Lemma consChar_drop w c o o0 body r :
  (forall b r', o = Some (b, r') -> exists r0, r' = r0 ++ w /\ o0 = Some (b, r0)) ->
  consChar c o = Some (body, r) ->
  exists r0, r = r0 ++ w /\ consChar c o0 = Some (body, r0).
Proof.
  intros H E. apply consChar_some in E as (b & E & ->).
  destruct (H _ _ E) as (r0 & -> & ->). now exists r0.
Qed.

(** A string literal closes before the tail. *)
Lemma parse_chars_drop w s body r :
  allWhite w ->
  parse_chars (s ++ w) = Some (body, r) ->
  exists r0, r = r0 ++ w /\ parse_chars s = Some (body, r0).
Proof.
  intros Hw. remember (length s) as n eqn:Hn. revert s Hn body r.
  induction n as [n IH] using lt_wf_ind. intros s Hn body r.
  destruct s as [|c s].
  { simpl app. now rewrite parse_chars_white. }
  simpl. destruct (c =? chQuote)%N.
  { intros E. injection E as <- <-. now exists s. }
  destruct (c =? chBackslash)%N.
  { destruct s as [|e s].
    - simpl. destruct Hw as [|e t We _]; [discriminate|].
      rewrite (white_neq _ 117%N We), (white_not_escape _ We) by reflexivity.
      discriminate.
    - simpl. destruct (e =? 117)%N.
      + destruct s as [|h1 [|h2 [|h3 [|h4 s]]]]; simpl.
        * destruct w as [|a [|b [|c0 [|d t]]]]; try discriminate.
          rewrite hex4_white; [discriminate|].
          left. apply (white_in _ _ Hw). now left.
        * destruct w as [|a [|b [|c0 t]]]; try discriminate.
          rewrite hex4_white; [discriminate|].
          right; left. apply (white_in _ _ Hw). now left.
        * destruct w as [|a [|b t]]; try discriminate.
          rewrite hex4_white; [discriminate|].
          right; right; left. apply (white_in _ _ Hw). now left.
        * destruct w as [|a t]; try discriminate.
          rewrite hex4_white; [discriminate|].
          right; right; right. apply (white_in _ _ Hw). now left.
        * destruct (hex4 h1 h2 h3 h4); [|discriminate].
          apply consChar_drop. intros b r'. apply (IH (length s)); [|reflexivity].
          subst n. simpl. lia.
      + destruct (escapeChar e); [|discriminate].
        apply consChar_drop. intros b r'. apply (IH (length s)); [|reflexivity].
        subst n. simpl. lia. }
  destruct (c <? 32)%N; [discriminate|].
  apply consChar_drop. intros b r'. apply (IH (length s)); [|reflexivity].
  subst n. simpl. lia.
Qed.


Lemma parse_int_drop w s m r :
  allWhite w ->
  parse_int (s ++ w) = Some (m, r) ->
  exists r0, r = r0 ++ w /\ parse_int s = Some (m, r0).
Proof.
  intros Hw. destruct s as [|c s]; simpl.
  - destruct Hw as [|y t Wy _]; simpl; [discriminate|].
    rewrite (white_neq _ 48%N Wy), (white_not_digit _ Wy) by reflexivity.
    discriminate.
  - destruct (c =? 48)%N.
    + intros E. injection E as <- <-. now exists s.
    + destruct (isDigit c); [|discriminate].
      destruct (parse_digits (s ++ w) (c - 48) 1) as [[m1 k1] r1] eqn:D.
      intros E. injection E as <- <-.
      apply (parse_digits_drop _ _ _ _ _ _ _ Hw) in D as (r0 & -> & ->).
      now exists r0.
Qed.

Lemma parse_frac_drop w m s m' k r :
  allWhite w ->
  parse_frac m (s ++ w) = Some (m', k, r) ->
  exists r0, r = r0 ++ w /\ parse_frac m s = Some (m', k, r0).
Proof.
  intros Hw. destruct s as [|c s]; simpl.
  - destruct Hw as [|y t Wy _]; simpl.
    + intros E. injection E as <- <- <-. now exists [].
    + rewrite (white_neq _ 46%N Wy) by reflexivity.
      intros E. injection E as <- <- <-. now exists [].
  - destruct (c =? 46)%N.
    + destruct (parse_digits (s ++ w) m 0) as [[m1 k1] r1] eqn:D.
      apply (parse_digits_drop _ _ _ _ _ _ _ Hw) in D as (r0 & -> & ->).
      destruct k1; [discriminate|].
      intros E. injection E as <- <- <-. now exists r0.
    + intros E. injection E as <- <- <-. now exists (c :: s).
Qed.

Lemma parse_exp_drop w s x r :
  allWhite w ->
  parse_exp (s ++ w) = Some (x, r) ->
  exists r0, r = r0 ++ w /\ parse_exp s = Some (x, r0).
Proof.
  intros Hw. destruct s as [|c s]; simpl.
  - destruct Hw as [|y t Wy _]; simpl.
    + intros E. injection E as <- <-. now exists [].
    + rewrite (white_neq _ 101%N Wy), (white_neq _ 69%N Wy) by reflexivity.
      simpl. intros E. injection E as <- <-. now exists [].
  - destruct ((c =? 101) || (c =? 69))%N.
    + destruct s as [|d s]; simpl.
      * destruct Hw as [|y t Wy Wt]; simpl; [discriminate|].
        rewrite (white_neq _ 45%N Wy), (white_neq _ 43%N Wy) by reflexivity.
        cbn [parse_digits]. rewrite (white_not_digit _ Wy). discriminate.
      * destruct (d =? 45)%N.
        { destruct (parse_digits (s ++ w) 0 0) as [[x1 k1] r1] eqn:D.
          apply (parse_digits_drop _ _ _ _ _ _ _ Hw) in D as (r0 & -> & ->).
          destruct k1; [discriminate|].
          intros E. injection E as <- <-. now exists r0. }
        destruct (d =? 43)%N.
        { destruct (parse_digits (s ++ w) 0 0) as [[x1 k1] r1] eqn:D.
          apply (parse_digits_drop _ _ _ _ _ _ _ Hw) in D as (r0 & -> & ->).
          destruct k1; [discriminate|].
          intros E. injection E as <- <-. now exists r0. }
        change (d :: s ++ w) with ((d :: s) ++ w).
        destruct (parse_digits ((d :: s) ++ w) 0 0) as [[x1 k1] r1] eqn:D.
        apply (parse_digits_drop _ _ _ _ _ _ _ Hw) in D as (r0 & -> & ->).
        destruct k1; [discriminate|].
        intros E. injection E as <- <-. now exists r0.
    + intros E. injection E as <- <-. now exists (c :: s).
Qed.

Lemma parse_number_drop w s v r :
  allWhite w ->
  parse_number (s ++ w) = Some (v, r) ->
  exists r0, r = r0 ++ w /\ parse_number s = Some (v, r0).
Proof.
  intros Hw. unfold parse_number.
  assert (G : forall neg s0,
             match parse_int (s0 ++ w) with
             | Some (m, s1) =>
                 match parse_frac m s1 with
                 | Some (m', k, s2) =>
                     match parse_exp s2 with
                     | Some (x, s3) => Some (JNumber neg m' (x - Z.of_nat k), s3)
                     | None => None
                     end
                 | None => None
                 end
             | None => None
             end = Some (v, r) ->
             exists r0, r = r0 ++ w /\
               match parse_int s0 with
               | Some (m, s1) =>
                   match parse_frac m s1 with
                   | Some (m', k, s2) =>
                       match parse_exp s2 with
                       | Some (x, s3) => Some (JNumber neg m' (x - Z.of_nat k), s3)
                       | None => None
                       end
                   | None => None
                   end
               | None => None
               end = Some (v, r0)).
  { intros neg s0.
    destruct (parse_int (s0 ++ w)) as [[m s1]|] eqn:I; [|discriminate].
    apply (parse_int_drop _ _ _ _ Hw) in I as (a & -> & ->).
    destruct (parse_frac m (a ++ w)) as [[[m' k] s2]|] eqn:F; [|discriminate].
    apply (parse_frac_drop _ _ _ _ _ _ Hw) in F as (b & -> & ->).
    destruct (parse_exp (b ++ w)) as [[x s3]|] eqn:X; [|discriminate].
    apply (parse_exp_drop _ _ _ _ Hw) in X as (c & -> & ->).
    intros E. injection E as <- <-. now exists c. }
  destruct s as [|c s].
  - simpl app. destruct Hw as [|y t Wy Wt].
    + exact (G false []).
    + rewrite (white_neq _ 45%N Wy) by reflexivity.
      exact (G false []).
  - simpl app. cbv beta iota. destruct (c =? 45)%N; cbv beta iota.
    + exact (G true s).
    + exact (G false (c :: s)).
Qed.

Lemma startsWith_app_white w s p :
  allWhite w -> Forall (fun c => isWhiteSpace c = false) p ->
  startsWith (s ++ w) p = startsWith s p.
Proof.
  intros Hw Hp. revert s; induction Hp as [|a p Ha _ IH]; intros s; [reflexivity|].
  destruct s as [|b s]; simpl.
  - destruct Hw as [|y t Wy _]; [reflexivity|].
    destruct (N.eqb_spec a y) as [->|_]; [congruence|reflexivity].
  - now rewrite IH.
Qed.

Lemma skipn_startsWith_app w s p :
  startsWith s p = true -> skipn (length p) (s ++ w) = skipn (length p) s ++ w.
Proof.
  intros H. apply startsWith_split in H as (r & ->).
  rewrite <- app_assoc, !skipn_app, !skipn_all, Nat.sub_diag. reflexivity.
Qed.

Lemma parse_literal_drop w s v r :
  allWhite w ->
  parse_literal (s ++ w) = Some (v, r) ->
  exists r0, r = r0 ++ w /\ parse_literal s = Some (v, r0).
Proof.
  intros Hw. unfold parse_literal.
  rewrite !(startsWith_app_white w s) by first [assumption | repeat constructor].
  destruct (startsWith s (str "true")) eqn:T.
  { intros E. injection E as <- <-.
    exists (skipn 4 s). split; [|reflexivity].
    now apply (skipn_startsWith_app w s (str "true")). }
  destruct (startsWith s (str "false")) eqn:F.
  { intros E. injection E as <- <-.
    exists (skipn 5 s). split; [|reflexivity].
    now apply (skipn_startsWith_app w s (str "false")). }
  destruct (startsWith s (str "null")) eqn:U; [|discriminate].
  intros E. injection E as <- <-.
  exists (skipn 4 s). split; [|reflexivity].
  now apply (skipn_startsWith_app w s (str "null")).
Qed.

End WhiteTail.

Section DescentTail.

Implicit Types s r : jsstring.

Lemma parse_value_nil f : parse_value f [] = None.
Proof. now destruct f. Qed.

Lemma parse_elements_nil f : parse_elements f [] = None.
Proof. destruct f; simpl; [reflexivity|]. now rewrite parse_value_nil. Qed.

Lemma parse_members_nil f : parse_members f [] = None.
Proof. now destruct f. Qed.

(** A value opens with a character that is neither white space nor a
    backquote. *)
Lemma parse_value_head f c s v r :
  parse_value f (c :: s) = Some (v, r) -> isWhiteSpace c = false /\ c <> 96%N.
Proof.
  destruct f as [|f]; [discriminate|]. simpl.
  destruct (N.eqb_spec c chLBracket) as [->|_]; [intros _; split; [reflexivity|discriminate]|].
  destruct (N.eqb_spec c chLBrace) as [->|_]; [intros _; split; [reflexivity|discriminate]|].
  destruct (N.eqb_spec c chQuote) as [->|_]; [intros _; split; [reflexivity|discriminate]|].
  destruct (N.eqb_spec c 45) as [->|_]; [intros _; split; [reflexivity|discriminate]|].
  simpl. destruct (isDigit c) eqn:D.
  { intros _. split; [now apply digit_not_white|].
    intros ->. discriminate D. }
  unfold parse_literal.
  destruct (startsWith (c :: s) (str "true")) eqn:T.
  { apply startsWith_split in T as (r0 & T). vm_compute in T. injection T as -> _.
    intros _. split; [reflexivity|discriminate]. }
  destruct (startsWith (c :: s) (str "false")) eqn:F.
  { apply startsWith_split in F as (r0 & F). vm_compute in F. injection F as -> _.
    intros _. split; [reflexivity|discriminate]. }
  destruct (startsWith (c :: s) (str "null")) eqn:U; [|discriminate].
  apply startsWith_split in U as (r0 & U). vm_compute in U. injection U as -> _.
  intros _. split; [reflexivity|discriminate].
Qed.

Lemma parse_elements_head f c s vs r :
  parse_elements f (c :: s) = Some (vs, r) -> isWhiteSpace c = false.
Proof.
  destruct f as [|f]; [discriminate|]. simpl.
  destruct (parse_value f (c :: s)) as [[v r0]|] eqn:P; [|discriminate].
  intros _. now apply parse_value_head in P.
Qed.

Lemma parse_members_head f c s ms r :
  parse_members f (c :: s) = Some (ms, r) -> isWhiteSpace c = false.
Proof.
  destruct f as [|f]; [discriminate|]. simpl.
  destruct (N.eqb_spec c chQuote) as [->|_]; [reflexivity|discriminate].
Qed.

Lemma parse_value_white f w : allWhite w -> parse_value f w = None.
Proof.
  intros [|y t Wy _]; [apply parse_value_nil|].
  destruct (parse_value f (y :: t)) as [[v r]|] eqn:P; [|reflexivity].
  apply parse_value_head in P as [P _]. congruence.
Qed.

(** The three parsers read a value that ends before a tail of white
    space exactly as they read it without the tail. *)
Lemma descent_drop w f :
  allWhite w ->
  (forall s v r, parse_value f (s ++ w) = Some (v, r) ->
     exists r0, r = r0 ++ w /\ parse_value f s = Some (v, r0))
  /\ (forall s vs r, parse_elements f (s ++ w) = Some (vs, r) ->
        exists r0, r = r0 ++ w /\ parse_elements f s = Some (vs, r0))
  /\ (forall s ms r, parse_members f (s ++ w) = Some (ms, r) ->
        exists r0, r = r0 ++ w /\ parse_members f s = Some (ms, r0)).
Proof.
  intros Hw. induction f as [|f (IHv & IHe & IHm)].
  { repeat split; intros s x r H; discriminate H. }
  split; [|split].
  - (* values *)
    intros s v r. destruct s as [|c s].
    { simpl app. now rewrite parse_value_white. }
    simpl. destruct (c =? chLBracket)%N.
    { destruct (skip_ws (s ++ w)) as [|d r'] eqn:W; [discriminate|].
      destruct (d =? chRBracket)%N eqn:Ed.
      - apply N.eqb_eq in Ed. subst d.
        apply (skip_ws_app_white _ _ _ _ Hw) in W as (r0 & -> & ->); [|reflexivity].
        simpl. intros E. injection E as <- <-. now exists r0.
      - destruct (parse_elements f (d :: r')) as [[vs rest]|] eqn:P; [|discriminate].
        pose proof (parse_elements_head _ _ _ _ _ P) as Hd.
        apply (skip_ws_app_white _ _ _ _ Hw) in W as (r0 & -> & ->); [|assumption].
        change (d :: r0 ++ w) with ((d :: r0) ++ w) in P.
        apply IHe in P as (q & -> & ->). rewrite Ed.
        intros E. injection E as <- <-. now exists q. }
    destruct (c =? chLBrace)%N.
    { destruct (skip_ws (s ++ w)) as [|d r'] eqn:W; [discriminate|].
      destruct (d =? chRBrace)%N eqn:Ed.
      - apply N.eqb_eq in Ed. subst d.
        apply (skip_ws_app_white _ _ _ _ Hw) in W as (r0 & -> & ->); [|reflexivity].
        simpl. intros E. injection E as <- <-. now exists r0.
      - destruct (parse_members f (d :: r')) as [[ms rest]|] eqn:P; [|discriminate].
        pose proof (parse_members_head _ _ _ _ _ P) as Hd.
        apply (skip_ws_app_white _ _ _ _ Hw) in W as (r0 & -> & ->); [|assumption].
        change (d :: r0 ++ w) with ((d :: r0) ++ w) in P.
        apply IHm in P as (q & -> & ->). rewrite Ed.
        intros E. injection E as <- <-. now exists q. }
    destruct (c =? chQuote)%N.
    { destruct (parse_chars (s ++ w)) as [[body rest]|] eqn:P; [|discriminate].
      apply (parse_chars_drop _ _ _ _ Hw) in P as (q & -> & ->).
      intros E. injection E as <- <-. now exists q. }
    change (c :: s ++ w) with ((c :: s) ++ w).
    destruct ((c =? 45)%N || isDigit c).
    + now apply parse_number_drop.
    + now apply parse_literal_drop.
  - (* elements *)
    intros s vs r. simpl.
    destruct (parse_value f (s ++ w)) as [[v r1]|] eqn:P; [|discriminate].
    apply IHv in P as (q1 & -> & ->).
    destruct (skip_ws (q1 ++ w)) as [|c r2] eqn:W; [discriminate|].
    destruct (c =? chComma)%N eqn:Ec.
    + apply N.eqb_eq in Ec. subst c.
      apply (skip_ws_app_white _ _ _ _ Hw) in W as (q2 & -> & ->); [|reflexivity].
      simpl.
      destruct (skip_ws (q2 ++ w)) as [|d r3] eqn:W2.
      { now rewrite parse_elements_nil. }
      destruct (parse_elements f (d :: r3)) as [[vs' rest]|] eqn:Q; [|discriminate].
      pose proof (parse_elements_head _ _ _ _ _ Q) as Hd.
      apply (skip_ws_app_white _ _ _ _ Hw) in W2 as (q3 & -> & ->); [|assumption].
      change (d :: q3 ++ w) with ((d :: q3) ++ w) in Q.
      apply IHe in Q as (q & -> & ->).
      intros E. injection E as <- <-. now exists q.
    + destruct (c =? chRBracket)%N eqn:Eb; [|discriminate].
      apply N.eqb_eq in Eb. subst c.
      apply (skip_ws_app_white _ _ _ _ Hw) in W as (q2 & -> & ->); [|reflexivity].
      simpl. intros E. injection E as <- <-. now exists q2.
  - (* members *)
    intros s ms r. destruct s as [|q0 s].
    { simpl app. destruct Hw as [|y t Wy _]; simpl; [discriminate|].
      now rewrite (white_neq _ chQuote Wy) by reflexivity. }
    simpl. destruct (q0 =? chQuote)%N; [|discriminate].
    destruct (parse_chars (s ++ w)) as [[key r1]|] eqn:K; [|discriminate].
    apply (parse_chars_drop _ _ _ _ Hw) in K as (q1 & -> & ->).
    destruct (skip_ws (q1 ++ w)) as [|c r2] eqn:W1; [discriminate|].
    destruct (c =? chColon)%N eqn:Ec; [|discriminate].
    apply N.eqb_eq in Ec. subst c.
    apply (skip_ws_app_white _ _ _ _ Hw) in W1 as (q2 & -> & ->); [|reflexivity].
    simpl.
    destruct (skip_ws (q2 ++ w)) as [|d r3] eqn:W2.
    { now rewrite parse_value_nil. }
    destruct (parse_value f (d :: r3)) as [[v r4]|] eqn:P; [|discriminate].
    pose proof (proj1 (parse_value_head _ _ _ _ _ P)) as Hd.
    apply (skip_ws_app_white _ _ _ _ Hw) in W2 as (q3 & -> & ->); [|assumption].
    change (d :: q3 ++ w) with ((d :: q3) ++ w) in P.
    apply IHv in P as (q4 & -> & ->).
    destruct (skip_ws (q4 ++ w)) as [|e r5] eqn:W4; [discriminate|].
    destruct (e =? chComma)%N eqn:Ee.
    + apply N.eqb_eq in Ee. subst e.
      apply (skip_ws_app_white _ _ _ _ Hw) in W4 as (q5 & -> & ->); [|reflexivity].
      simpl.
      destruct (skip_ws (q5 ++ w)) as [|g r6] eqn:W5.
      { now rewrite parse_members_nil. }
      destruct (parse_members f (g :: r6)) as [[ms' rest]|] eqn:Q; [|discriminate].
      pose proof (parse_members_head _ _ _ _ _ Q) as Hg.
      apply (skip_ws_app_white _ _ _ _ Hw) in W5 as (q6 & -> & ->); [|assumption].
      change (g :: q6 ++ w) with ((g :: q6) ++ w) in Q.
      apply IHm in Q as (q & -> & ->).
      intros E. injection E as <- <-. now exists q.
    + destruct (e =? chRBrace)%N eqn:Eb; [|discriminate].
      apply N.eqb_eq in Eb. subst e.
      apply (skip_ws_app_white _ _ _ _ Hw) in W4 as (q5 & -> & ->); [|reflexivity].
      simpl. intros E. injection E as <- <-. now exists q5.
Qed.

(** Trimming a valid JSON text leaves a text with the same value, and it
    does not open with a backquote. *)
Lemma JSON_parse_trim raw v :
  JSON_parse raw = Some v ->
  JSON_parse (trim raw) = Some v /\ startsWith (trim raw) (str "```") = false.
Proof.
  unfold JSON_parse.
  destruct (parse_value (parseFuel raw) (skip_ws raw)) as [[v' rest]|] eqn:P; [|discriminate].
  destruct (skip_ws rest) eqn:R; [|discriminate].
  intros E. injection E as ->.
  destruct (skip_ws raw) as [|c t] eqn:S; [now rewrite parse_value_nil in P|].
  destruct (parse_value_head _ _ _ _ _ P) as [Wc Hc].
  unfold trim. rewrite (trimStart_skip_ws _ _ _ S Wc).
  destruct (trimEnd_prefix (c :: t)) as (w & Ew & Hw).
  rewrite Ew in P.
  apply (proj1 (descent_drop w _ Hw)) in P as (q & -> & P).
  apply skip_ws_app_nil in R.
  destruct (trimEnd (c :: t)) as [|c' t'] eqn:T; [now rewrite parse_value_nil in P|].
  simpl in Ew. injection Ew as <- Ew.
  assert (J : isJsonWs c = false).
  { destruct (isJsonWs c) eqn:J; [|reflexivity].
    apply JSON_ws_is_white in J. congruence. }
  rewrite (skip_ws_head _ _ J).
  assert (L : length (c :: t') <= length raw).
  { pose proof (skip_ws_length raw) as L. rewrite S, Ew in L.
    simpl in *. rewrite length_app in L. lia. }
  assert (F : parse_value (parseFuel (c :: t')) (c :: t')
              = parse_value (parseFuel raw) (c :: t')).
  { apply fuel_enough; unfold parseFuel; lia. }
  rewrite F, P, R. split; [reflexivity|].
  destruct (startsWith (c :: t') (str "```")) eqn:B; [|reflexivity].
  apply startsWith_split in B as (r0 & B). vm_compute in B.
  injection B as B _. contradiction.
Qed.

End DescentTail.

(** ** Valid responses and the repair of the second version *)

Lemma robustJsonParse3_frame (raw : jsstring) (v : json) :
  JSON_parse raw = Some v -> V3.robustJsonParse raw = Ok v.
Proof.
  intros H. apply JSON_parse_trim in H as [P B].
  unfold V3.robustJsonParse. rewrite stripFences_plain by exact B. now rewrite P.
Qed.

Lemma robustJsonParse2_frame (raw : jsstring) (v : json) :
  JSON_parse raw = Some v -> V2.robustJsonParse raw = Ok v.
Proof.
  intros H. apply JSON_parse_trim in H as [P B].
  unfold V2.robustJsonParse, V2.stripFences. cbv zeta.
  destruct (startsWith (trim raw) (str "```json")) eqn:J.
  - apply (startsWith_prefix _ V3.fence (str "json")) in J.
    change V3.fence with (str "```") in J. congruence.
  - change V2.fence with (str "```"). rewrite B. now rewrite P.
Qed.

(** X1: On every valid JSON text, white space around it included, both
    versions of [robustJsonParse] return what [JSON.parse] returns. *)
Theorem robustJsonParse_valid (raw : jsstring) (v : json) :
  JSON_parse raw = Some v ->
  V3.robustJsonParse raw = Ok v /\ V2.robustJsonParse raw = Ok v.
Proof.
  intros H. split.
  - now apply robustJsonParse3_frame.
  - now apply robustJsonParse2_frame.
Qed.

Lemma robustJsonParse_valid_witness :
  V3.robustJsonParse Cases.paddedArray = Ok Cases.paddedValue
  /\ V2.robustJsonParse Cases.paddedArray = Ok Cases.paddedValue.
Proof.
  apply (robustJsonParse_valid Cases.paddedArray Cases.paddedValue).
  vm_compute; reflexivity.
Defined.

Section SecondRepair.

Implicit Types s a b : jsstring.

Lemma lastIndexOfFrom_range s c i best :
  (best < i)%Z ->
  (best <= lastIndexOfFrom s [c] i best < i + len s)%Z.
Proof.
  revert i best; induction s as [|x s IH]; intros i best H.
  - simpl. unfold len; simpl. lia.
  - cbn [lastIndexOfFrom]. rewrite startsWith_char.
    assert (L : len (x :: s) = (1 + len s)%Z) by (unfold len; simpl length; lia).
    destruct (c =? x)%N.
    + specialize (IH (i + 1)%Z i). lia.
    + specialize (IH (i + 1)%Z best). lia.
Qed.

Lemma lastIndexOf_lt s c : (lastIndexOf s [c] < len s)%Z.
Proof.
  unfold lastIndexOf. pose proof (lastIndexOfFrom_range s c 0 (-1)). lia.
Qed.

Lemma lastIndexOfFrom_app_absent a b c i best :
  ~ In c b ->
  lastIndexOfFrom (a ++ b) [c] i best = lastIndexOfFrom a [c] i best.
Proof.
  intros H. revert i best; induction a as [|x a IH]; intros i best.
  - simpl app. rewrite lastIndexOfFrom_absent by assumption. reflexivity.
  - simpl app. cbn [lastIndexOfFrom]. rewrite !startsWith_char. apply IH.
Qed.

Lemma lastIndexOf_app_absent a b c :
  ~ In c b -> lastIndexOf (a ++ b) [c] = lastIndexOf a [c].
Proof. apply lastIndexOfFrom_app_absent. Qed.

Lemma substring_prefix a b :
  substring (a ++ b) 0 (len a) = a.
Proof.
  pose proof (substring_middle [] a b) as H. simpl app in H.
  change (len []) with 0%Z in H. now rewrite Z.add_0_l in H.
Qed.

(** The text the second version works on when the response opens with a
    bracket. *)
Lemma stripFences2_bracket body tail :
  V2.stripFences (chLBracket :: body ++ tail)
  = trimEnd (chLBracket :: body ++ tail).
Proof.
  unfold V2.stripFences. cbv zeta.
  assert (T : trim (chLBracket :: body ++ tail) = trimEnd (chLBracket :: body ++ tail)).
  { unfold trim. now rewrite trimStart_head by reflexivity. }
  rewrite T.
  assert (N : startsWith (trimEnd (chLBracket :: body ++ tail)) V2.fence = false).
  { destruct (trimEnd_prefix (chLBracket :: body ++ tail)) as (u & E & _).
    destruct (trimEnd (chLBracket :: body ++ tail)) as [|x t]; [reflexivity|].
    simpl in E. injection E as <- _. reflexivity. }
  destruct (startsWith (trimEnd (chLBracket :: body ++ tail)) (str "```json")) eqn:J.
  - apply (startsWith_prefix _ V2.fence (str "json")) in J. congruence.
  - now rewrite N.
Qed.

End SecondRepair.

(** X2: The second version recovers an array cut after a complete object when
    what follows that object is at most one comma followed by text that
    holds no comma, no closing brace and no closing bracket. *)
Theorem robustJsonParse2_truncated (body rest : jsstring) (comma : bool) (v : json) :
  JSON_parse ((chLBracket :: body ++ [chRBrace]) ++ str "]") = Some v ->
  ~ In chComma rest -> ~ In chRBrace rest -> ~ In chRBracket rest ->
  V2.robustJsonParse
    ((chLBracket :: body ++ [chRBrace])
     ++ (if comma then [chComma] else []) ++ rest)
  = Ok v.
Proof.
  intros Hpre Hc Hb Hk.
  set (pre := chLBracket :: body ++ [chRBrace]).
  change (JSON_parse (pre ++ str "]") = Some v) in Hpre.
  set (t := trimEnd rest).
  assert (Htc : ~ In chComma t) by now apply trimEnd_not_in.
  assert (Htb : ~ In chRBrace t) by now apply trimEnd_not_in.
  assert (Htk : ~ In chRBracket t) by now apply trimEnd_not_in.
  assert (S : V2.stripFences (pre ++ (if comma then [chComma] else []) ++ rest)
              = pre ++ (if comma then [chComma] else []) ++ t).
  { unfold pre.
    replace ((chLBracket :: body ++ [chRBrace]) ++ (if comma then [chComma] else []) ++ rest)
      with (chLBracket :: body ++ chRBrace :: (if comma then [chComma] else []) ++ rest)
      by (simpl; now rewrite <- app_assoc).
    rewrite stripFences2_bracket.
    change (chLBracket :: body ++ chRBrace :: (if comma then [chComma] else []) ++ rest)
      with ((chLBracket :: body) ++ chRBrace :: (if comma then [chComma] else []) ++ rest).
    rewrite trimEnd_app_last by reflexivity.
    replace ((chLBracket :: body ++ [chRBrace]) ++ (if comma then [chComma] else []) ++ t)
      with ((chLBracket :: body) ++ chRBrace :: (if comma then [chComma] else []) ++ t)
      by (simpl; now rewrite <- app_assoc).
    do 2 f_equal.
    destruct comma; cbn [app]; [|reflexivity].
    change (chComma :: rest) with ([] ++ chComma :: rest).
    now rewrite trimEnd_app_last by reflexivity. }
  assert (D : JSON_parse (pre ++ (if comma then [chComma] else []) ++ t) = None).
  { destruct (trimEnd_nil_or_last rest) as [E|(u & z & E & Hz)]; fold t in E.
    - rewrite E, app_nil_r. destruct comma.
      + unfold pre.
        change ((chLBracket :: body ++ [chRBrace]) ++ [chComma])
          with (chLBracket :: (body ++ [chRBrace]) ++ [chComma]).
        apply JSON_parse_bracket_last; [discriminate|reflexivity].
      + rewrite app_nil_r. apply JSON_parse_bracket_last; [discriminate|reflexivity].
    - rewrite E.
      replace (pre ++ (if comma then [chComma] else []) ++ u ++ [z])
        with (chLBracket
              :: ((body ++ [chRBrace]) ++ (if comma then [chComma] else []) ++ u)
              ++ [z])
        by (unfold pre; simpl; now rewrite <- !app_assoc).
      apply JSON_parse_bracket_last.
      + intros ->. apply Htk. fold t. rewrite E. apply in_or_app. right. now left.
      + destruct (isJsonWs z) eqn:W; [|reflexivity].
        apply JSON_ws_is_white in W. congruence. }
  unfold V2.robustJsonParse. rewrite S, D.
  change (str ",") with [chComma]. change (str "}") with [chRBrace].
  assert (B : lastIndexOf (pre ++ (if comma then [chComma] else []) ++ t) [chRBrace]
              = len (chLBracket :: body)).
  { unfold pre.
    replace ((chLBracket :: body ++ [chRBrace]) ++ (if comma then [chComma] else []) ++ t)
      with ((chLBracket :: body) ++ chRBrace :: (if comma then [chComma] else []) ++ t)
      by (simpl; now rewrite <- app_assoc).
    apply lastIndexOf_last. intros K. apply in_app_or in K as [K|K]; [|contradiction].
    destruct comma; [destruct K as [K|[]]; discriminate K|destruct K]. }
  assert (P : len pre = (len (chLBracket :: body) + 1)%Z).
  { unfold pre. change (chLBracket :: body ++ [chRBrace])
      with ((chLBracket :: body) ++ [chRBrace]). now rewrite len_app. }
  rewrite B. destruct comma.
  - assert (C : lastIndexOf (pre ++ [chComma] ++ t) [chComma] = len pre)
      by (now apply lastIndexOf_last).
    rewrite C. destruct (Z.ltb_spec (len pre) (len (chLBracket :: body))); [lia|].
    now rewrite substring_prefix, Hpre.
  - cbn [app].
    assert (C : (lastIndexOf (pre ++ t) [chComma] < len (chLBracket :: body))%Z).
    { rewrite lastIndexOf_app_absent by assumption. unfold pre.
      change (chLBracket :: body ++ [chRBrace])
        with ((chLBracket :: body) ++ [chRBrace]).
      rewrite lastIndexOf_app_absent by (intros [K|[]]; discriminate K).
      apply lastIndexOf_lt. }
    destruct (Z.ltb_spec (lastIndexOf (pre ++ t) [chComma]) (len (chLBracket :: body)));
      [|lia].
    rewrite <- P. now rewrite substring_prefix, Hpre.
Qed.

Lemma robustJsonParse2_truncated_witness :
  V2.robustJsonParse ((chLBracket :: Cases.cutBody ++ [chRBrace])
                      ++ [chComma] ++ str "{" ++ dq ++ str "b")
  = Ok Cases.paddedValue
  /\ V2.robustJsonParse ((chLBracket :: Cases.cutBody ++ [chRBrace]) ++ [] ++ str " ")
     = Ok Cases.paddedValue.
Proof.
  split.
  - apply (robustJsonParse2_truncated Cases.cutBody (str "{" ++ dq ++ str "b") true).
    + vm_compute; reflexivity.
    + vm_compute. intuition discriminate.
    + vm_compute. intuition discriminate.
    + vm_compute. intuition discriminate.
  - apply (robustJsonParse2_truncated Cases.cutBody (str " ") false).
    + vm_compute; reflexivity.
    + vm_compute. intuition discriminate.
    + vm_compute. intuition discriminate.
    + vm_compute. intuition discriminate.
Defined.

(** ** Outcomes of the service *)

Section Outcomes.

Variable API_KEY : option jsstring.
Variable generateContent : list Part -> result (option jsstring).

Lemma robustJsonParse_throws text e :
  V3.robustJsonParse text = Throw e ->
  e = ErrorObj V3.msgNotArray \/ e = ErrorObj V3.msgMalformed.
Proof.
  unfold V3.robustJsonParse.
  destruct (JSON_parse (V3.stripFences text)); [discriminate|].
  destruct (_ =? _)%Z; [intros E; injection E as <-; now left|].
  destruct (_ <? _)%Z; [discriminate|].
  destruct (JSON_parse (V3.potentialJson _)); [discriminate|].
  destruct (JSON_parse (V3.finalAttemptStr _)); [discriminate|].
  intros E; injection E as <-; now right.
Qed.

Lemma generateTestCases_run prdText figmaLink imageFiles focusPrompt w :
  clientAvailable API_KEY w = true ->
  noInput prdText figmaLink imageFiles = false ->
  V3.generateTestCases API_KEY generateContent prdText figmaLink imageFiles
                       focusPrompt w
  = (match generateContent (requestParts prdText figmaLink imageFiles focusPrompt) with
     | Throw t =>
         match t with
         | ErrorObj message =>
             if includes message sigInvalidKey
             then Throw (ErrorObj msgInvalidKey) else Throw t
         | NonError _ => Throw (ErrorObj V3.msgUnknown)
         end
     | Ok (Some (c :: t)) =>
         match V3.robustJsonParse (c :: t) with
         | Ok v => if isArray v then Ok v else Throw (ErrorObj V3.msgNotList)
         | Throw e => Throw e
         end
     | Ok _ => Throw (ErrorObj msgEmptyResponse)
     end,
     mkWorld true (calls w ++ map EvEncode imageFiles
                   ++ [EvGenerate (requestParts prdText figmaLink imageFiles
                                                focusPrompt)])).
Proof.
  intros Ha Hn. rewrite generateTestCases_proceeds by assumption.
  unfold tryCatch, V3.tryBlock, bind, emit, liftResult, throwError, throw, ret.
  cbn [aiInstance calls]. rewrite <- app_assoc.
  destruct (generateContent _) as [[[|c t]|]|e]; try reflexivity.
  - destruct (V3.robustJsonParse (c :: t)) as [v|e] eqn:P.
    + destruct (isArray v); reflexivity.
    + rewrite catchClause_run.
      destruct (robustJsonParse_throws _ _ P) as [->| ->]; reflexivity.
  - now rewrite catchClause_run.
Qed.

End Outcomes.

(** X3: When the model answers with a valid JSON array, white space around it
    included, [generateTestCases] returns that array, after encoding the
    images and issuing one generation call. *)
Theorem generateTestCases_returns_array
    (API_KEY : option jsstring)
    (generateContent : list Part -> result (option jsstring))
    (prdText figmaLink : jsstring) (imageFiles : list File)
    (focusPrompt : jsstring) (w : world) (text : jsstring) (items : list json) :
  clientAvailable API_KEY w = true ->
  noInput prdText figmaLink imageFiles = false ->
  generateContent (requestParts prdText figmaLink imageFiles focusPrompt)
    = Ok (Some text) ->
  JSON_parse text = Some (JArray items) ->
  V3.generateTestCases API_KEY generateContent prdText figmaLink imageFiles
                       focusPrompt w
  = (Ok (JArray items),
     mkWorld true (calls w ++ map EvEncode imageFiles
                   ++ [EvGenerate (requestParts prdText figmaLink imageFiles
                                                focusPrompt)])).
Proof.
  intros Ha Hn Hg Hp. rewrite generateTestCases_run by assumption. rewrite Hg.
  destruct text as [|c t]; [discriminate Hp|].
  now rewrite (robustJsonParse3_frame _ _ Hp).
Qed.

Lemma generateTestCases_returns_array_witness :
  V3.generateTestCases Samples.someKey (Samples.answering Cases.paddedArray)
    (str "doc") [] [Samples.smallImage] [] Samples.freshWorld
  = (Ok Cases.paddedValue,
     mkWorld true [ EvEncode Samples.smallImage;
                    EvGenerate (requestParts (str "doc") [] [Samples.smallImage] []) ]).
Proof.
  exact (generateTestCases_returns_array Samples.someKey
           (Samples.answering Cases.paddedArray) (str "doc") []
           [Samples.smallImage] [] Samples.freshWorld Cases.paddedArray
           [JObject [(str "a", JNumber false 1 0)]]
           eq_refl eq_refl eq_refl ltac:(vm_compute; reflexivity)).
Defined.

(** X4: A response without text, absent or empty, makes [generateTestCases]
    throw the empty-response error, after the generation call. *)
Theorem generateTestCases_empty_response
    (API_KEY : option jsstring)
    (generateContent : list Part -> result (option jsstring))
    (prdText figmaLink : jsstring) (imageFiles : list File)
    (focusPrompt : jsstring) (w : world) :
  clientAvailable API_KEY w = true ->
  noInput prdText figmaLink imageFiles = false ->
  generateContent (requestParts prdText figmaLink imageFiles focusPrompt) = Ok None
  \/ generateContent (requestParts prdText figmaLink imageFiles focusPrompt)
     = Ok (Some []) ->
  V3.generateTestCases API_KEY generateContent prdText figmaLink imageFiles
                       focusPrompt w
  = (Throw (ErrorObj msgEmptyResponse),
     mkWorld true (calls w ++ map EvEncode imageFiles
                   ++ [EvGenerate (requestParts prdText figmaLink imageFiles
                                                focusPrompt)])).
Proof.
  intros Ha Hn Hg. rewrite generateTestCases_run by assumption.
  now destruct Hg as [-> | ->].
Qed.

Lemma generateTestCases_empty_response_witness :
  fst (V3.generateTestCases Samples.someKey (Samples.answering [])
         (str "doc") [] [] [] Samples.freshWorld)
  = Throw (ErrorObj msgEmptyResponse).
Proof.
  exact (f_equal fst
           (generateTestCases_empty_response Samples.someKey (Samples.answering [])
              (str "doc") [] [] [] Samples.freshWorld eq_refl eq_refl
              (or_intror eq_refl))).
Defined.

(** X5: A response that cannot be normalised makes [generateTestCases] throw
    the very error of [robustJsonParse], which is the not-an-array error
    or the malformed-response error. *)
Theorem generateTestCases_parse_error
    (API_KEY : option jsstring)
    (generateContent : list Part -> result (option jsstring))
    (prdText figmaLink : jsstring) (imageFiles : list File)
    (focusPrompt : jsstring) (w : world) (c : char16) (t : jsstring) (e : thrown) :
  clientAvailable API_KEY w = true ->
  noInput prdText figmaLink imageFiles = false ->
  generateContent (requestParts prdText figmaLink imageFiles focusPrompt)
    = Ok (Some (c :: t)) ->
  V3.robustJsonParse (c :: t) = Throw e ->
  fst (V3.generateTestCases API_KEY generateContent prdText figmaLink imageFiles
                            focusPrompt w) = Throw e
  /\ (e = ErrorObj V3.msgNotArray \/ e = ErrorObj V3.msgMalformed).
Proof.
  intros Ha Hn Hg Hp. rewrite generateTestCases_run by assumption.
  rewrite Hg, Hp. split; [reflexivity|]. eapply robustJsonParse_throws, Hp.
Qed.

Lemma generateTestCases_parse_error_witness :
  fst (V3.generateTestCases Samples.someKey (Samples.answering (str "I cannot help"))
         (str "doc") [] [] [] Samples.freshWorld)
  = Throw (ErrorObj V3.msgNotArray).
Proof.
  exact (proj1 (generateTestCases_parse_error Samples.someKey
                  (Samples.answering (str "I cannot help")) (str "doc") [] [] []
                  Samples.freshWorld 73%N (str " cannot help")
                  (ErrorObj V3.msgNotArray)
                  eq_refl eq_refl eq_refl ltac:(vm_compute; reflexivity))).
Defined.

(** X6: [getAiInstance] either finds or creates the client, and from then on
    succeeds whatever the key, or it throws the configuration error and
    changes nothing, which happens exactly when no client exists and the
    key is absent or empty. *)
Theorem getAiInstance_cached (API_KEY : option jsstring) (w : world) :
  (clientAvailable API_KEY w = true ->
   getAiInstance API_KEY w = (Ok tt, mkWorld true (calls w))
   /\ forall other, getAiInstance other (mkWorld true (calls w))
                    = (Ok tt, mkWorld true (calls w)))
  /\ (clientAvailable API_KEY w = false ->
      getAiInstance API_KEY w = (Throw (ErrorObj msgKeyMissing), w)
      /\ aiInstance w = false /\ (API_KEY = None \/ API_KEY = Some [])).
Proof.
  split; intros H.
  - split; [now apply getAiInstance_available|].
    intros other.
    exact (@getAiInstance_available other (mkWorld true (calls w)) eq_refl).
  - split; [now apply getAiInstance_unavailable|].
    unfold clientAvailable in H. apply orb_false_elim in H as [H1 H2].
    split; [assumption|]. destruct API_KEY as [[|c k]|]; auto. discriminate H2.
Qed.

Lemma getAiInstance_cached_witness :
  getAiInstance Samples.someKey Samples.freshWorld = (Ok tt, Cases.readyWorld)
  /\ getAiInstance None Cases.readyWorld = (Ok tt, Cases.readyWorld)
  /\ getAiInstance (Some []) Samples.freshWorld
     = (Throw (ErrorObj msgKeyMissing), Samples.freshWorld).
Proof.
  split; [|split].
  - exact (proj1 (proj1 (getAiInstance_cached Samples.someKey Samples.freshWorld) eq_refl)).
  - exact (proj2 (proj1 (getAiInstance_cached Samples.someKey Samples.freshWorld) eq_refl) None).
  - exact (proj1 (proj2 (getAiInstance_cached (Some []) Samples.freshWorld) eq_refl)).
Defined.

(** X7: Without a client and without a key, the second and third versions
    throw the configuration error whatever the inputs, with no image
    encoded, no generation call and the state unchanged. *)
Theorem generateTestCases_needs_key
    (API_KEY : option jsstring)
    (generateContent : list Part -> result (option jsstring))
    (prdText figmaLink focusPrompt : jsstring)
    (imageFile : option File) (imageFiles : list File) (w : world) :
  clientAvailable API_KEY w = false ->
  V3.generateTestCases API_KEY generateContent prdText figmaLink imageFiles
                       focusPrompt w
  = (Throw (ErrorObj msgKeyMissing), w)
  /\ V2.generateTestCases API_KEY generateContent prdText figmaLink imageFile w
     = (Throw (ErrorObj msgKeyMissing), w).
Proof.
  intros H. unfold V3.generateTestCases, V2.generateTestCases, bind.
  now rewrite getAiInstance_unavailable by assumption.
Qed.

Lemma generateTestCases_needs_key_witness :
  V3.generateTestCases None (Samples.answering Cases.paddedArray) (str "doc") []
    [Samples.smallImage] [] Samples.freshWorld
  = (Throw (ErrorObj msgKeyMissing), Samples.freshWorld)
  /\ V2.generateTestCases None (Samples.answering Cases.paddedArray) (str "doc") []
       (Some Samples.smallImage) Samples.freshWorld
     = (Throw (ErrorObj msgKeyMissing), Samples.freshWorld).
Proof.
  exact (generateTestCases_needs_key None (Samples.answering Cases.paddedArray)
           (str "doc") [] [] (Some Samples.smallImage) [Samples.smallImage]
           Samples.freshWorld eq_refl).
Defined.

(** ** Outcomes of the first version *)

Section FirstVersion.

Variable generateContent : list Part -> result (option jsstring).
Variable syntaxErrorMessage : jsstring -> jsstring.

Lemma catchClause1_run error w :
  V1.catchClause error w
  = (Throw (ErrorObj (match error with
                      | ErrorObj message =>
                          if includes message sigInvalidKey
                          then msgInvalidKey else V1.msgFailed
                      | NonError _ => V1.msgFailed
                      end)), w).
Proof.
  destruct error as [m|v]; simpl; [|reflexivity].
  now destruct (includes m sigInvalidKey).
Qed.

Lemma tryCatch1_run parts w :
  tryCatch (V1.tryBlock generateContent syntaxErrorMessage parts) V1.catchClause w
  = (match generateContent parts with
     | Throw t =>
         Throw (ErrorObj (match t with
                          | ErrorObj message =>
                              if includes message sigInvalidKey
                              then msgInvalidKey else V1.msgFailed
                          | NonError _ => V1.msgFailed
                          end))
     | Ok (Some (c :: t)) =>
         match JSON_parse (c :: t) with
         | Some v => Ok v
         | None =>
             Throw (ErrorObj (if includes (syntaxErrorMessage (c :: t)) sigInvalidKey
                              then msgInvalidKey else V1.msgFailed))
         end
     | Ok _ => Throw (ErrorObj V1.msgFailed)
     end,
     mkWorld (aiInstance w) (calls w ++ [EvGenerate parts])).
Proof.
  unfold tryCatch, V1.tryBlock, bind, emit, liftResult, throwError, throw, ret.
  destruct (generateContent parts) as [[[|c t]|]|e]; cbn [aiInstance calls];
    try (rewrite catchClause1_run; reflexivity).
  destruct (JSON_parse (c :: t)); [reflexivity|].
  now rewrite catchClause1_run.
Qed.

(** The content parts of the single-image versions. *)
Lemma generateTestCases1_run prdText figmaLink imageFile w :
  trim prdText <> [] ->
  match imageFile with
  | Some f => (fileSize f <= maxImageSize)%N
  | None => True
  end ->
  V1.generateTestCases generateContent syntaxErrorMessage prdText figmaLink
                       imageFile w
  = tryCatch (V1.tryBlock generateContent syntaxErrorMessage
                (singleParts (V1.createPrompt prdText figmaLink
                                (match imageFile with Some _ => true | None => false end))
                             imageFile))
             V1.catchClause
             (mkWorld (aiInstance w)
                      (calls w ++ match imageFile with
                                  | Some f => [EvEncode f]
                                  | None => []
                                  end)).
Proof.
  intros Hp Hs. unfold V1.generateTestCases.
  destruct (trim prdText) as [|c t]; [contradiction|]. cbn [nonEmpty negb].
  destruct imageFile as [f|].
  - apply N.leb_le in Hs. rewrite N.leb_antisym in Hs.
    apply negb_true_iff in Hs. unfold bind at 1. rewrite Hs.
    unfold fileToGenerativePart, bind, emit, ret. reflexivity.
  - unfold bind, ret. destruct w. cbn [aiInstance calls]. now rewrite app_nil_r.
Qed.

End FirstVersion.

(** X8: The first version never lets an error of the model or of the parse
    through: whatever it throws is one of four fixed messages. *)
Theorem generateTestCases1_errors
    (generateContent : list Part -> result (option jsstring))
    (syntaxErrorMessage : jsstring -> jsstring)
    (prdText figmaLink : jsstring) (imageFile : option File) (w : world)
    (t : thrown) :
  fst (V1.generateTestCases generateContent syntaxErrorMessage prdText figmaLink
                            imageFile w) = Throw t ->
  t = ErrorObj V1.msgNoPrd \/ t = ErrorObj msgImageTooLarge
  \/ t = ErrorObj msgInvalidKey \/ t = ErrorObj V1.msgFailed.
Proof.
  destruct (trim prdText) as [|c0 t0] eqn:Hp.
  { unfold V1.generateTestCases. rewrite Hp. cbn. intros E. injection E as <-. auto. }
  assert (Hne : trim prdText <> []) by (rewrite Hp; discriminate).
  destruct imageFile as [f|].
  - destruct (N.leb_spec (fileSize f) maxImageSize) as [Hs|Hs].
    + rewrite (generateTestCases1_run generateContent syntaxErrorMessage
                 prdText figmaLink (Some f) w Hne Hs).
      rewrite tryCatch1_run. cbn [fst].
      destruct (generateContent _) as [[[|c t1]|]|[m|v]];
        try (intros E; injection E as <-; auto; fail).
      * destruct (JSON_parse (c :: t1)); [discriminate|].
        destruct (includes _ _); intros E; injection E as <-; auto.
      * destruct (includes _ _); intros E; injection E as <-; auto.
    + apply N.ltb_lt in Hs. unfold V1.generateTestCases. rewrite Hp.
      cbn [nonEmpty negb]. unfold bind at 1. rewrite Hs. cbn.
      intros E. injection E as <-. auto.
  - rewrite (generateTestCases1_run generateContent syntaxErrorMessage
               prdText figmaLink None w Hne I).
    rewrite tryCatch1_run. cbn [fst].
    destruct (generateContent _) as [[[|c t1]|]|[m|v]];
      try (intros E; injection E as <-; auto; fail).
    * destruct (JSON_parse (c :: t1)); [discriminate|].
      destruct (includes _ _); intros E; injection E as <-; auto.
    * destruct (includes _ _); intros E; injection E as <-; auto.
Qed.

Lemma generateTestCases1_errors_witness :
  fst (V1.generateTestCases (Samples.failing (ErrorObj (str "fetch failed")))
         (fun s => s) (str "doc") [] None Samples.freshWorld)
  = Throw (ErrorObj V1.msgFailed)
  /\ (ErrorObj V1.msgFailed = ErrorObj V1.msgNoPrd
      \/ ErrorObj V1.msgFailed = ErrorObj msgImageTooLarge
      \/ ErrorObj V1.msgFailed = ErrorObj msgInvalidKey
      \/ ErrorObj V1.msgFailed = ErrorObj V1.msgFailed).
Proof.
  assert (E : fst (V1.generateTestCases
                     (Samples.failing (ErrorObj (str "fetch failed")))
                     (fun s => s) (str "doc") [] None Samples.freshWorld)
              = Throw (ErrorObj V1.msgFailed)) by (vm_compute; reflexivity).
  split; [exact E|].
  exact (generateTestCases1_errors
           (Samples.failing (ErrorObj (str "fetch failed"))) (fun s => s)
           (str "doc") [] None Samples.freshWorld (ErrorObj V1.msgFailed) E).
Defined.

(** X9: With a document text that is not blank and an image of at most
    [4 * 1024 * 1024] bytes or none, the first version returns the value of
    every valid JSON response, array or not, and turns an absent or empty
    response into the generic failure. *)
Theorem generateTestCases1_returns_parse
    (generateContent : list Part -> result (option jsstring))
    (syntaxErrorMessage : jsstring -> jsstring)
    (prdText figmaLink : jsstring) (imageFile : option File) (w : world) :
  trim prdText <> [] ->
  match imageFile with
  | Some f => (fileSize f <= maxImageSize)%N
  | None => True
  end ->
  (forall text v,
     generateContent
       (singleParts (V1.createPrompt prdText figmaLink
                       (match imageFile with Some _ => true | None => false end))
                    imageFile) = Ok (Some text) ->
     JSON_parse text = Some v ->
     fst (V1.generateTestCases generateContent syntaxErrorMessage prdText
                               figmaLink imageFile w) = Ok v)
  /\ (generateContent
        (singleParts (V1.createPrompt prdText figmaLink
                        (match imageFile with Some _ => true | None => false end))
                     imageFile) = Ok None
      \/ generateContent
           (singleParts (V1.createPrompt prdText figmaLink
                           (match imageFile with Some _ => true | None => false end))
                        imageFile) = Ok (Some []) ->
      fst (V1.generateTestCases generateContent syntaxErrorMessage prdText
                                figmaLink imageFile w)
      = Throw (ErrorObj V1.msgFailed)).
Proof.
  intros Hp Hs. rewrite generateTestCases1_run by assumption.
  rewrite tryCatch1_run. cbn [fst]. split.
  - intros text v Hg Hv. rewrite Hg.
    destruct text as [|c t]; [discriminate Hv|]. now rewrite Hv.
  - intros [-> | ->]; reflexivity.
Qed.

Lemma generateTestCases1_returns_parse_witness :
  fst (V1.generateTestCases (Samples.answering Samples.singleObject) (fun s => s)
         (str "doc") [] (Some Cases.exactImage) Samples.freshWorld)
  = Ok Samples.bareRecord.
Proof.
  refine (proj1 (generateTestCases1_returns_parse
                   (Samples.answering Samples.singleObject) (fun s => s)
                   (str "doc") [] (Some Cases.exactImage) Samples.freshWorld _ _)
                Samples.singleObject Samples.bareRecord eq_refl _).
  - vm_compute. discriminate.
  - vm_compute. discriminate.
  - vm_compute; reflexivity.
Defined.
(** ** The table copied as TSV *)

Section SheetFacts.

Variable numberToText : bool -> N -> Z -> jsstring.

Lemma some_eq {A} (a b : A) : Some a = Some b -> a = b.
Proof. congruence. Qed.

Lemma traverse_spec {A B} (f : A -> option B) l ys :
  Sheet.traverse f l = Some ys -> Forall2 (fun x y => f x = Some y) l ys.
Proof.
  revert ys. induction l as [|x l IH]; simpl; intros ys H.
  - injection H as <-. constructor.
  - destruct (f x) eqn:F; [|discriminate].
    destruct (Sheet.traverse f l); [|discriminate].
    injection H as <-. constructor; auto.
Qed.

Lemma traverse_total {A B} (f : A -> option B) l :
  Forall (fun x => exists y, f x = Some y) l -> exists ys, Sheet.traverse f l = Some ys.
Proof.
  induction 1 as [|x l [y Hy] _ [ys IH]]; simpl.
  - now exists [].
  - rewrite Hy, IH. now eexists.
Qed.

Lemma traverse_fails {A B} (f : A -> option B) l x :
  In x l -> f x = None -> Sheet.traverse f l = None.
Proof.
  induction l as [|a l IH]; simpl; [easy|].
  intros [->|Hin] Hx.
  - now rewrite Hx.
  - rewrite (IH Hin Hx). now destruct (f a).
Qed.

Lemma count_join c sep parts :
  count_occ N.eq_dec (Sheet.join sep parts) c
  = list_sum (map (fun p => count_occ N.eq_dec p c) parts)
    + (length parts - 1) * count_occ N.eq_dec sep c.
Proof.
  induction parts as [|p [|q rest] IH].
  - reflexivity.
  - simpl. lia.
  - change (Sheet.join sep (p :: q :: rest))
      with (p ++ sep ++ Sheet.join sep (q :: rest)).
    rewrite !count_occ_app. unfold char16 in *.
    rewrite IH. cbn [length map list_sum].
    rewrite !Nat.sub_succ, !Nat.sub_0_r. cbn [Nat.mul].
    unfold list_sum. cbn [fold_right]. lia.
Qed.

Lemma replaceTabs_no_tab text : ~ In Sheet.chTab (Sheet.replaceTabs text).
Proof.
  unfold Sheet.replaceTabs. intros H. apply in_map_iff in H as (c & E & _).
  destruct (c =? Sheet.chTab)%N eqn:T.
  - discriminate E.
  - apply N.eqb_neq in T. congruence.
Qed.

Lemma needsQuotes_false cell :
  Sheet.needsQuotes cell = false -> ~ In chQuote cell /\ ~ In chLF cell.
Proof.
  unfold Sheet.needsQuotes. intros H.
  split; intros Hin;
    (assert (X : existsb (fun c => (c =? chQuote)%N || (c =? chLF)%N) cell = true)
      by (apply existsb_exists; eexists; split; [exact Hin|];
          rewrite ?N.eqb_refl, ?orb_true_r; reflexivity));
    congruence.
Qed.

Lemma doubleQuotes_count cell :
  count_occ N.eq_dec (Sheet.doubleQuotes cell) chQuote = 2 * count_occ N.eq_dec cell chQuote.
Proof.
  induction cell as [|c cell IH]; [reflexivity|].
  unfold Sheet.doubleQuotes in *. cbn [flat_map].
  rewrite count_occ_app. unfold char16 in *. rewrite IH.
  destruct (c =? chQuote)%N eqn:Q.
  - apply N.eqb_eq in Q. subst c. rewrite count_occ_cons_eq by reflexivity.
    simpl. lia.
  - apply N.eqb_neq in Q. rewrite (count_occ_cons_neq _ _ Q).
    simpl. destruct (N.eq_dec c chQuote); [contradiction|]. lia.
Qed.

Lemma doubleQuotes_in c cell :
  In c (Sheet.doubleQuotes cell) -> In c cell.
Proof.
  unfold Sheet.doubleQuotes. intros H. apply in_flat_map in H as (x & Hx & Hc).
  destruct (x =? chQuote)%N eqn:Q.
  - apply N.eqb_eq in Q. subst x. destruct Hc as [<-|[<-|[]]]; exact Hx.
  - destruct Hc as [<-|[]]. exact Hx.
Qed.

(** Doubling the quotes loses nothing. *)
Lemma doubleQuotes_inj a b :
  Sheet.doubleQuotes a = Sheet.doubleQuotes b -> a = b.
Proof.
  revert b. unfold Sheet.doubleQuotes.
  induction a as [|x a IH]; intros [|y b]; cbn [flat_map]; intros H.
  - reflexivity.
  - destruct (y =? chQuote)%N; discriminate H.
  - destruct (x =? chQuote)%N; discriminate H.
  - destruct (x =? chQuote)%N eqn:X, (y =? chQuote)%N eqn:Y.
    + apply N.eqb_eq in X, Y. subst. simpl in H. injection H as H.
      f_equal. now apply IH.
    + apply N.eqb_eq in X. apply N.eqb_neq in Y. subst x.
      simpl in H. injection H as E _. congruence.
    + apply N.eqb_neq in X. apply N.eqb_eq in Y. subst y.
      simpl in H. injection H as E _. congruence.
    + simpl in H. injection H as -> H. f_equal. now apply IH.
Qed.

Lemma formatCell_cases cellData cell :
  Sheet.formatCell numberToText cellData = Some cell ->
  exists text,
    Sheet.toText numberToText (orElse cellData (JString [])) = Some text
    /\ ((Sheet.needsQuotes (Sheet.replaceTabs text) = false
         /\ cell = Sheet.replaceTabs text)
        \/ (Sheet.needsQuotes (Sheet.replaceTabs text) = true
            /\ cell = dq ++ Sheet.doubleQuotes (Sheet.replaceTabs text) ++ dq)).
Proof.
  unfold Sheet.formatCell.
  destruct (Sheet.toText numberToText _) as [text|]; [|discriminate].
  cbv zeta. destruct (Sheet.needsQuotes _) eqn:Q; intros H; injection H as <-;
    exists text; split; auto.
Qed.

Lemma formatCell_tabs cellData cell :
  Sheet.formatCell numberToText cellData = Some cell ->
  count_occ N.eq_dec cell Sheet.chTab = 0.
Proof.
  intros H. apply formatCell_cases in H as (text & _ & [[_ ->]|[_ ->]]);
    apply count_occ_not_In.
  - apply replaceTabs_no_tab.
  - intros Hin. apply in_app_or in Hin as [Hin|Hin].
    + destruct Hin as [E|[]]. discriminate E.
    + apply in_app_or in Hin as [Hin|Hin].
      * apply doubleQuotes_in in Hin. revert Hin. apply replaceTabs_no_tab.
      * destruct Hin as [E|[]]. discriminate E.
Qed.

Lemma formatCell_quotes cellData cell :
  Sheet.formatCell numberToText cellData = Some cell ->
  Nat.even (count_occ N.eq_dec cell chQuote) = true.
Proof.
  intros H. apply formatCell_cases in H as (text & _ & [[Q ->]|[_ ->]]).
  - apply needsQuotes_false in Q as [Q _].
    apply (count_occ_not_In N.eq_dec) in Q. now rewrite Q.
  - rewrite !count_occ_app, doubleQuotes_count.
    change (count_occ N.eq_dec dq chQuote) with 1.
    replace (1 + (2 * count_occ N.eq_dec (Sheet.replaceTabs text) chQuote + 1))
      with (2 * (1 + count_occ N.eq_dec (Sheet.replaceTabs text) chQuote)) by lia.
    rewrite Nat.even_mul. reflexivity.
Qed.

Lemma cells_sum c cells (row : list (option json)) :
  Forall2 (fun x y => Sheet.formatCell numberToText x = Some y) row cells ->
  (forall x y, Sheet.formatCell numberToText x = Some y -> count_occ N.eq_dec y c = 0) ->
  list_sum (map (fun p => count_occ N.eq_dec p c) cells) = 0.
Proof.
  intros F H. induction F as [|x y row cells Hxy _ IH]; [reflexivity|].
  simpl. now rewrite (H _ _ Hxy), IH.
Qed.

Lemma formatRow_tabs tc line :
  Sheet.formatRow numberToText tc = Some line -> count_occ N.eq_dec line Sheet.chTab = 10.
Proof.
  unfold Sheet.formatRow.
  destruct (Sheet.traverse _ _) as [cells|] eqn:T; [|discriminate].
  intros H. injection H as <-. apply traverse_spec in T.
  rewrite count_join, (cells_sum _ _ _ T formatCell_tabs).
  apply Forall2_length in T. rewrite <- T. reflexivity.
Qed.

Lemma even_sum l :
  Forall (fun n => Nat.even n = true) l -> Nat.even (list_sum l) = true.
Proof.
  induction 1 as [|n l Hn _ IH]; [reflexivity|].
  simpl. rewrite Nat.even_add, Hn, IH. reflexivity.
Qed.

Lemma formatRow_quotes tc line :
  Sheet.formatRow numberToText tc = Some line ->
  Nat.even (count_occ N.eq_dec line chQuote) = true.
Proof.
  unfold Sheet.formatRow.
  destruct (Sheet.traverse _ _) as [cells|] eqn:T; [|discriminate].
  intros H. injection H as <-. apply traverse_spec in T.
  rewrite count_join. change (count_occ N.eq_dec Sheet.tab chQuote) with 0.
  rewrite Nat.mul_0_r, Nat.add_0_r. apply even_sum.
  induction T as [|x y row cells Hxy _ IH]; constructor; auto.
  exact (formatCell_quotes _ _ Hxy).
Qed.

Lemma toText_string_member k tc :
  Sheet.allStrings tc ->
  forall v, getMember k tc = Some v -> exists s, v = JString s.
Proof.
  induction 1 as [|[k0 v0] tc [s Hs] _ IH]; simpl; intros v H; [discriminate|].
  destruct (getMember k tc) as [u|] eqn:G.
  - injection H as <-. now apply IH.
  - destruct (jsstring_eqb k0 k); [|discriminate].
    injection H as <-. now exists s.
Qed.

Lemma formatCell_string_member k tc :
  Sheet.allStrings tc ->
  exists cell, Sheet.formatCell numberToText (getMember k tc) = Some cell.
Proof.
  intros A. unfold Sheet.formatCell.
  assert (T : exists s, orElse (getMember k tc) (JString []) = JString s).
  { destruct (getMember k tc) as [v|] eqn:G; [|now exists []].
    destruct (toText_string_member k tc A v G) as [s ->].
    destruct s; simpl; now eexists. }
  destruct T as [s ->]. simpl.
  destruct (Sheet.needsQuotes _); now eexists.
Qed.

Lemma formatCell_string_default k tc d :
  Sheet.allStrings tc ->
  exists cell,
    Sheet.formatCell numberToText (Some (orElse (getMember k tc) (JString d)))
    = Some cell.
Proof.
  intros A. unfold Sheet.formatCell.
  assert (T : exists s,
             orElse (Some (orElse (getMember k tc) (JString d))) (JString [])
             = JString s).
  { destruct (getMember k tc) as [v|] eqn:G.
    - destruct (toText_string_member k tc A v G) as [s ->].
      destruct s; simpl; [destruct d|]; simpl; now eexists.
    - simpl. destruct d; now eexists. }
  destruct T as [s ->]. simpl.
  destruct (Sheet.needsQuotes _); now eexists.
Qed.

Lemma formatRow_strings tc :
  Sheet.allStrings tc -> exists line, Sheet.formatRow numberToText tc = Some line.
Proof.
  intros A. unfold Sheet.formatRow.
  destruct (traverse_total (Sheet.formatCell numberToText) (Sheet.dataRow tc))
    as [cells ->]; [|now eexists].
  unfold Sheet.dataRow.
  repeat constructor;
    first [ apply formatCell_string_member; exact A
          | apply formatCell_string_default; exact A ].
Qed.

End SheetFacts.

(** X10: a formatted cell holds no tab and an even number of double quotes,
    and a cell with a line feed or a double quote in it is enclosed in
    double quotes. *)
Theorem formatCell_shape
    (numberToText : bool -> N -> Z -> jsstring)
    (cellData : option json) (cell : jsstring) :
  Sheet.formatCell numberToText cellData = Some cell ->
  ~ In Sheet.chTab cell
  /\ Nat.even (count_occ N.eq_dec cell chQuote) = true
  /\ (In chLF cell \/ In chQuote cell -> exists inner, cell = dq ++ inner ++ dq).
Proof.
  intros H. split; [|split].
  - apply (count_occ_not_In N.eq_dec). exact (formatCell_tabs _ _ _ H).
  - exact (formatCell_quotes _ _ _ H).
  - apply formatCell_cases in H as (text & _ & [[Q ->]|[_ ->]]).
    + apply needsQuotes_false in Q as [Q1 Q2]. intros [X|X]; contradiction.
    + intros _. now eexists.
Qed.

Lemma formatCell_shape_witness :
  ~ In Sheet.chTab (dq ++ str "a b" ++ dq ++ dq ++ dq)
  /\ Nat.even (count_occ N.eq_dec (dq ++ str "a b" ++ dq ++ dq ++ dq) chQuote) = true
  /\ (In chLF (dq ++ str "a b" ++ dq ++ dq ++ dq)
      \/ In chQuote (dq ++ str "a b" ++ dq ++ dq ++ dq) ->
      exists inner, dq ++ str "a b" ++ dq ++ dq ++ dq = dq ++ inner ++ dq).
Proof.
  exact (formatCell_shape (fun _ _ _ => [])
           (Some (JString (str "a" ++ Sheet.tab ++ str "b" ++ dq)))
           (dq ++ str "a b" ++ dq ++ dq ++ dq) eq_refl).
Defined.

(** X11: two cell values are formatted alike exactly when their texts,
    taken by [String(cellData || '')], agree once tabs are replaced by
    spaces: the quoting and the doubling of quotes lose nothing.  (Values
    of the same text, such as the falsy ones, whose text is empty, are
    formatted alike.) *)
Theorem formatCell_faithful
    (numberToText : bool -> N -> Z -> jsstring)
    (a b : option json) (ta tb : jsstring) :
  Sheet.toText numberToText (orElse a (JString [])) = Some ta ->
  Sheet.toText numberToText (orElse b (JString [])) = Some tb ->
  (Sheet.formatCell numberToText a = Sheet.formatCell numberToText b
   <-> Sheet.replaceTabs ta = Sheet.replaceTabs tb).
Proof.
  intros Ha Hb. split.
  - intros E.
    destruct (Sheet.formatCell numberToText a) as [cell|] eqn:Fa.
    2:{ unfold Sheet.formatCell in Fa. rewrite Ha in Fa. cbv zeta in Fa.
        destruct (Sheet.needsQuotes _); discriminate Fa. }
    symmetry in E. rename E into Fb.
    apply formatCell_cases in Fa as (ta' & Ea & Ca).
    apply formatCell_cases in Fb as (tb' & Eb & Cb).
    rewrite Ha in Ea. apply some_eq in Ea. subst ta'.
    rewrite Hb in Eb. apply some_eq in Eb. subst tb'.
    destruct Ca as [[Qa Ea]|[Qa Ea]], Cb as [[Qb Eb]|[Qb Eb]].
    + congruence.
    + apply needsQuotes_false in Qa as [Qa _]. exfalso. apply Qa.
      rewrite <- Ea, Eb. now left.
    + apply needsQuotes_false in Qb as [Qb _]. exfalso. apply Qb.
      rewrite <- Eb, Ea. now left.
    + rewrite Ea in Eb. injection Eb as Eb. apply app_inv_tail in Eb.
      now apply doubleQuotes_inj.
  - intros E. unfold Sheet.formatCell. rewrite Ha, Hb. cbv zeta.
    now rewrite E.
Qed.

Lemma formatCell_faithful_witness :
  Sheet.formatCell (fun _ _ _ => [])
    (Some (JString (str "x" ++ Sheet.tab ++ str "y" ++ dq)))
  = Sheet.formatCell (fun _ _ _ => []) (Some (JString (str "x y" ++ dq)))
  /\ Sheet.replaceTabs (str "x" ++ dq) <> Sheet.replaceTabs (str "x").
Proof.
  split.
  - apply (proj2 (formatCell_faithful (fun _ _ _ => [])
                    (Some (JString (str "x" ++ Sheet.tab ++ str "y" ++ dq)))
                    (Some (JString (str "x y" ++ dq)))
                    (str "x" ++ Sheet.tab ++ str "y" ++ dq) (str "x y" ++ dq)
                    eq_refl eq_refl)).
    reflexivity.
  - intros E.
    apply (proj2 (formatCell_faithful (fun _ _ _ => [])
                    (Some (JString (str "x" ++ dq))) (Some (JString (str "x")))
                    (str "x" ++ dq) (str "x") eq_refl eq_refl)) in E.
    vm_compute in E. discriminate E.
Defined.

(** X12: the copied text has ten tabs for the header line and ten for every
    test case, an even number of double quotes, and begins with the header
    line. *)
Theorem formatTestCasesAsTsv_shape
    (numberToText : bool -> N -> Z -> jsstring)
    (testCases : list Sheet.record) (out : jsstring) :
  Sheet.formatTestCasesAsTsv numberToText testCases = Some out ->
  count_occ N.eq_dec out Sheet.chTab = 10 * (1 + length testCases)
  /\ Nat.even (count_occ N.eq_dec out chQuote) = true
  /\ startsWith out (Sheet.join Sheet.tab Sheet.headers) = true.
Proof.
  unfold Sheet.formatTestCasesAsTsv.
  destruct (Sheet.traverse _ _) as [rows|] eqn:T; [|discriminate].
  intros H. apply some_eq in H. subst out. apply traverse_spec in T.
  split; [|split].
  - rewrite count_join. change (count_occ N.eq_dec nl Sheet.chTab) with 0.
    rewrite Nat.mul_0_r, Nat.add_0_r.
    cbn [map]. simpl list_sum.
    change (count_occ N.eq_dec (Sheet.join Sheet.tab Sheet.headers) Sheet.chTab)
      with 10.
    assert (S : list_sum (map (fun p => count_occ N.eq_dec p Sheet.chTab) rows)
                = 10 * length testCases).
    { induction T as [|x y l rows' Hxy _ IH]; [reflexivity|].
      cbn [map length]. simpl list_sum.
      rewrite (formatRow_tabs _ _ _ Hxy), IH. lia. }
    rewrite S. lia.
  - rewrite count_join. change (count_occ N.eq_dec nl chQuote) with 0.
    rewrite Nat.mul_0_r, Nat.add_0_r. apply even_sum.
    constructor; [reflexivity|].
    induction T as [|x y l rows' Hxy _ IH]; constructor; auto.
    exact (formatRow_quotes _ _ _ Hxy).
  - destruct rows as [|r rows].
    + vm_compute. reflexivity.
    + change (Sheet.join nl (Sheet.join Sheet.tab Sheet.headers :: r :: rows))
        with (Sheet.join Sheet.tab Sheet.headers
              ++ nl ++ Sheet.join nl (r :: rows)).
      apply startsWith_app.
Qed.

Lemma formatTestCasesAsTsv_shape_witness :
  exists out,
    Sheet.formatTestCasesAsTsv (fun _ _ _ => []) [App.withStatus Samples.firstRecord]
    = Some out
    /\ count_occ N.eq_dec out Sheet.chTab = 20.
Proof.
  eexists. split; [vm_compute; reflexivity|].
  exact (proj1 (formatTestCasesAsTsv_shape (fun _ _ _ => [])
                  [App.withStatus Samples.firstRecord] _ eq_refl)).
Defined.

(** X13: when every member of every test case is a string, as the edits of
    the table make them, the copy succeeds. *)
Theorem formatTestCasesAsTsv_strings
    (numberToText : bool -> N -> Z -> jsstring) (testCases : list Sheet.record) :
  Forall Sheet.allStrings testCases ->
  exists out, Sheet.formatTestCasesAsTsv numberToText testCases = Some out.
Proof.
  intros A. unfold Sheet.formatTestCasesAsTsv.
  destruct (traverse_total (Sheet.formatRow numberToText) testCases)
    as [rows ->]; [|now eexists].
  eapply Forall_impl; [|exact A]. intros tc. apply formatRow_strings.
Qed.

Lemma formatTestCasesAsTsv_strings_witness :
  exists out,
    Sheet.formatTestCasesAsTsv (fun _ _ _ => [])
      [ [(str "testCaseId", JString (str "TC_001"))] ] = Some out.
Proof.
  apply (formatTestCasesAsTsv_strings (fun _ _ _ => [])
           [ [(str "testCaseId", JString (str "TC_001"))] ]).
  repeat constructor. simpl. now eexists.
Defined.

(** X14: a test case one of whose copied members is an object with a member
    named toString makes the copy throw. *)
Theorem formatTestCasesAsTsv_throws
    (numberToText : bool -> N -> Z -> jsstring)
    (testCases : list Sheet.record) (tc : Sheet.record)
    (ms : list (jsstring * json)) :
  In tc testCases ->
  getMember (str "testData") tc = Some (JObject ms) ->
  Sheet.hasOwn (str "toString") ms = true ->
  Sheet.formatTestCasesAsTsv numberToText testCases = None.
Proof.
  intros Hin Hm Ho. unfold Sheet.formatTestCasesAsTsv.
  rewrite (traverse_fails (Sheet.formatRow numberToText) testCases tc Hin);
    [reflexivity|].
  unfold Sheet.formatRow.
  rewrite (traverse_fails (Sheet.formatCell numberToText) (Sheet.dataRow tc)
             (getMember (str "testData") tc)); [reflexivity| |].
  - unfold Sheet.dataRow. simpl. tauto.
  - rewrite Hm. unfold Sheet.formatCell. simpl. now rewrite Ho.
Qed.

Lemma formatTestCasesAsTsv_throws_witness :
  Sheet.formatTestCasesAsTsv (fun _ _ _ => [])
    [ [(str "testData", JObject [(str "toString", JNull)])] ] = None.
Proof.
  apply (formatTestCasesAsTsv_throws (fun _ _ _ => [])
           [ [(str "testData", JObject [(str "toString", JNull)])] ]
           [(str "testData", JObject [(str "toString", JNull)])]
           [(str "toString", JNull)]).
  - now left.
  - reflexivity.
  - reflexivity.
Defined.

(** ** The input area *)

Lemma jsstring_eqb_refl (a : jsstring) : jsstring_eqb a a = true.
Proof.
  unfold jsstring_eqb. rewrite Nat.eqb_refl. simpl.
  rewrite <- (app_nil_r a) at 1. apply startsWith_app.
Qed.

Lemma jsstring_eqb_eq (a b : jsstring) : jsstring_eqb a b = true <-> a = b.
Proof.
  split.
  - unfold jsstring_eqb. intros H. apply andb_prop in H as [L S].
    apply Nat.eqb_eq in L. apply startsWith_split in S as [r ->].
    rewrite length_app in L. destruct r; [apply app_nil_r|simpl in L; lia].
  - intros ->. apply jsstring_eqb_refl.
Qed.

Lemma jsstring_eqb_neq (a b : jsstring) : jsstring_eqb a b = false <-> a <> b.
Proof.
  split.
  - intros H E. apply jsstring_eqb_eq in E. congruence.
  - intros H. destruct (jsstring_eqb a b) eqn:E; [|reflexivity].
    apply jsstring_eqb_eq in E. contradiction.
Qed.

Lemma sameFile_refl (file : NamedFile) : Inputs.sameFile file file = true.
Proof. unfold Inputs.sameFile. now rewrite jsstring_eqb_refl, N.eqb_refl. Qed.

(** X15: adding the same files a second time adds nothing. *)
Theorem handleImageFiles_idempotent (images files : list NamedFile) :
  fst (Inputs.handleImageFiles (fst (Inputs.handleImageFiles images files)) files)
  = fst (Inputs.handleImageFiles images files).
Proof.
  unfold Inputs.handleImageFiles. cbn [fst].
  set (added := filter (Inputs.accepted images) files).
  assert (E : filter (Inputs.accepted (images ++ added)) files = []).
  { assert (G : forall f, In f files ->
                  Inputs.accepted (images ++ added) f = false).
    { intros f Hin. unfold Inputs.accepted.
      destruct (Inputs.isImage f) eqn:I; [|reflexivity]. simpl.
      apply negb_false_iff. rewrite existsb_app.
      destruct (existsb (fun e => Inputs.sameFile e f) images) eqn:X;
        [reflexivity|]. simpl.
      apply existsb_exists. exists f. split; [|apply sameFile_refl].
      apply filter_In. split; [exact Hin|].
      unfold Inputs.accepted. now rewrite I, X. }
    clearbody added. induction files as [|f files IH]; [reflexivity|].
    simpl. rewrite (G f (or_introl eq_refl)). apply IH.
    intros g Hg. apply G. now right. }
  rewrite E. apply app_nil_r.
Qed.

Lemma canGenerate_noInput prdText figmaLink (images : list NamedFile) :
  Inputs.canGenerate prdText figmaLink images
  = negb (noInput prdText figmaLink (map fileBody images)).
Proof.
  unfold Inputs.canGenerate, noInput. rewrite length_map.
  destruct (nonEmpty (trim prdText)), (nonEmpty (trim figmaLink)),
    images; reflexivity.
Qed.



(** ** Test cases and history of the application component *)

Import Workspace.

Section ObjectFacts.

Implicit Types (objs fresh : list record) (r : ref) (ms tc : record).

Lemma hasOwn_true k ms :
  Sheet.hasOwn k ms = true <-> exists v, getMember k ms = Some v.
Proof.
  unfold Sheet.hasOwn. destruct (getMember k ms) as [v|]; split;
    try discriminate; eauto. intros [v H]. discriminate H.
Qed.

Lemma getMember_snoc_same k v ms : getMember k (ms ++ [(k, v)]) = Some v.
Proof.
  induction ms as [|[k0 v0] ms IH]; simpl.
  - now rewrite jsstring_eqb_refl.
  - now rewrite IH.
Qed.

Lemma getMember_replace_same field v ms :
  getMember field
    (map (fun kv => if jsstring_eqb (fst kv) field then (fst kv, v) else kv) ms)
  = match getMember field ms with Some _ => Some v | None => None end.
Proof.
  induction ms as [|[k0 v0] ms IH]; [reflexivity|].
  cbn [map fst]. destruct (jsstring_eqb k0 field) eqn:E; cbn [getMember];
    rewrite IH; destruct (getMember field ms); rewrite ?E; reflexivity.
Qed.

Lemma getMember_replace_other field k v ms :
  k <> field ->
  getMember k
    (map (fun kv => if jsstring_eqb (fst kv) field then (fst kv, v) else kv) ms)
  = getMember k ms.
Proof.
  intros N. induction ms as [|[k0 v0] ms IH]; [reflexivity|].
  cbn [map fst]. destruct (jsstring_eqb k0 field) eqn:E; cbn [getMember];
    rewrite IH; [|reflexivity].
  apply jsstring_eqb_eq in E. subst k0.
  assert (F : jsstring_eqb field k = false) by (apply jsstring_eqb_neq; congruence).
  now rewrite F.
Qed.

Lemma setText_same field value ms :
  Sheet.hasOwn field ms = true \/ field <> str "__proto__" ->
  getMember field (setText field value ms) = Some (JString value).
Proof.
  intros H. unfold setText. destruct (Sheet.hasOwn field ms) eqn:O.
  - rewrite getMember_replace_same. apply hasOwn_true in O as [v ->]. reflexivity.
  - destruct H as [H|H]; [discriminate H|].
    apply jsstring_eqb_neq in H. rewrite H. apply getMember_snoc_same.
Qed.

Lemma setText_other field value k ms :
  k <> field -> getMember k (setText field value ms) = getMember k ms.
Proof.
  intros N. unfold setText. destruct (Sheet.hasOwn field ms).
  - now apply getMember_replace_other.
  - destruct (jsstring_eqb field (str "__proto__")); [reflexivity|].
    apply getMember_app_other. apply jsstring_eqb_neq. congruence.
Qed.

Lemma updateObject_length r f objs :
  length (updateObject r f objs) = length objs.
Proof.
  revert r; induction objs as [|o objs IH]; intros [|r]; simpl; auto.
Qed.

Lemma updateObject_same r f objs :
  r < length objs -> deref (updateObject r f objs) r = f (deref objs r).
Proof.
  unfold deref. revert r; induction objs as [|o objs IH]; intros [|r]; simpl;
    intros H; try lia; [reflexivity|]. apply IH. lia.
Qed.

Lemma updateObject_other r r' f objs :
  r' <> r -> deref (updateObject r f objs) r' = deref objs r'.
Proof.
  unfold deref. revert r r'; induction objs as [|o objs IH];
    intros [|r] [|r']; simpl; intros H; try reflexivity; try congruence.
  apply IH. congruence.
Qed.

Lemma deref_old objs fresh r :
  r < length objs -> deref (objs ++ fresh) r = deref objs r.
Proof. intros H. unfold deref. now apply app_nth1. Qed.

Lemma deref_fresh objs fresh i :
  deref (objs ++ fresh) (length objs + i) = nth i fresh [].
Proof.
  unfold deref. rewrite app_nth2 by lia. f_equal. lia.
Qed.

Lemma map_deref_fresh objs fresh :
  map (deref (objs ++ fresh)) (seq (length objs) (length fresh)) = fresh.
Proof.
  revert objs; induction fresh as [|x fresh IH]; intros objs; [reflexivity|].
  cbn [length seq map]. f_equal.
  - rewrite <- (Nat.add_0_r (length objs)). apply deref_fresh.
  - specialize (IH (objs ++ [x])). rewrite <- app_assoc in IH.
    rewrite length_app in IH. cbn [length app] in IH.
    rewrite Nat.add_1_r in IH. exact IH.
Qed.

Lemma map_deref_old objs fresh (refs : list ref) :
  Forall (fun r => r < length objs) refs ->
  map (deref (objs ++ fresh)) refs = map (deref objs) refs.
Proof.
  induction 1 as [|r refs Hr _ IH]; [reflexivity|].
  simpl. now rewrite IH, deref_old.
Qed.

Lemma map_deref_updated r f objs (refs : list ref) :
  ~ In r refs ->
  map (deref (updateObject r f objs)) refs = map (deref objs) refs.
Proof.
  induction refs as [|x refs IH]; [reflexivity|].
  intros N. simpl. rewrite IH by (intros H; apply N; now right).
  rewrite updateObject_other; [reflexivity|]. intros ->. apply N. now left.
Qed.

Lemma seq_bound a n : Forall (fun r => r < a + n) (seq a n).
Proof.
  apply Forall_forall. intros r H. apply in_seq in H. lia.
Qed.

Lemma Forall_lt_le (refs : list ref) a b :
  a <= b -> Forall (fun r => r < a) refs -> Forall (fun r => r < b) refs.
Proof.
  intros L. apply Forall_impl. intros r. lia.
Qed.

Lemma truthy_orElse a d :
  truthy (Some d) = true -> truthy (Some (orElse a d)) = true.
Proof.
  intros D. unfold orElse. destruct a as [v|]; [|exact D].
  destruct (truthy (Some v)) eqn:T; [exact T|exact D].
Qed.

Lemma keepStatus_status tc :
  truthy (getMember (str "status") (keepStatus tc)) = true.
Proof.
  unfold keepStatus. rewrite getMember_snoc_same. now apply truthy_orElse.
Qed.

(** The entries whose cases are in use keep their values when objects are
    added. *)
Lemma valueOfEntry_old objs fresh (h : list (HistoryEntry ref)) :
  Forall (fun r => r < length objs) (flat_map (fun e => entryCases e) h) ->
  map (valueOfEntry (objs ++ fresh)) h = map (valueOfEntry objs) h.
Proof.
  induction h as [|e h IH]; [reflexivity|].
  cbn [flat_map]. intros H. apply Forall_app in H as [He Hh].
  cbn [map]. rewrite (IH Hh). f_equal.
  unfold valueOfEntry. now rewrite map_deref_old.
Qed.

Lemma valueOfEntry_updated r f objs (h : list (HistoryEntry ref)) :
  ~ In r (flat_map (fun e => entryCases e) h) ->
  map (valueOfEntry (updateObject r f objs)) h = map (valueOfEntry objs) h.
Proof.
  induction h as [|e h IH]; [reflexivity|].
  cbn [flat_map]. intros N. cbn [map].
  rewrite IH by (intros H; apply N; apply in_or_app; now right).
  f_equal. unfold valueOfEntry.
  rewrite map_deref_updated; [reflexivity|].
  intros H. apply N. apply in_or_app. now left.
Qed.

Lemma wellFormed_intro st :
  Forall (fun r => r < length (objects st)) (testCases st) ->
  Forall (fun r => r < length (objects st))
         (flat_map (fun e => entryCases e) (history st)) ->
  NoDup (testCases st) ->
  wellFormed st.
Proof.
  intros A B C. split; [|exact C]. unfold heldBy. apply Forall_app. now split.
Qed.

Lemma wellFormed_elim st :
  wellFormed st ->
  Forall (fun r => r < length (objects st)) (testCases st)
  /\ Forall (fun r => r < length (objects st))
            (flat_map (fun e => entryCases e) (history st))
  /\ NoDup (testCases st).
Proof.
  intros [A C]. unfold heldBy in A. apply Forall_app in A as [A B].
  split; [exact A|]. split; [exact B|exact C].
Qed.

End ObjectFacts.

Section GenerateFacts.

Variable API_KEY : option jsstring.
Variable generateContent : list Part -> result (option jsstring).
Variable fileToBase64 : NamedFile -> result jsstring.
Variable now : Z.
Variable notIterable : jsstring.

(** Every value the third version throws is an [Error]. *)
Lemma generateTestCases_throws_error prdText figmaLink imageFiles focusPrompt w err :
  fst (V3.generateTestCases API_KEY generateContent prdText figmaLink imageFiles
         focusPrompt w) = Throw err ->
  exists message, err = ErrorObj message.
Proof.
  destruct (clientAvailable API_KEY w) eqn:Ha.
  - destruct (noInput prdText figmaLink imageFiles) eqn:Hn.
    + rewrite generateTestCases_rejects by assumption. cbn [fst].
      intros H. injection H as <-. now eexists.
    + rewrite generateTestCases_run by assumption. cbn [fst].
      destruct (generateContent _) as [[[|c t]|]|[m|v]].
      * intros H. injection H as <-. now eexists.
      * destruct (V3.robustJsonParse (c :: t)) as [v|e] eqn:P.
        -- destruct (isArray v); [discriminate|].
           intros H. injection H as <-. now eexists.
        -- intros H. injection H as <-.
           destruct (robustJsonParse_throws _ _ P) as [->| ->]; now eexists.
      * intros H. injection H as <-. now eexists.
      * destruct (includes m sigInvalidKey); intros H; injection H as <-;
          now eexists.
      * intros H. injection H as <-. now eexists.
  - unfold V3.generateTestCases, bind.
    rewrite getAiInstance_unavailable by assumption. cbn [fst].
    intros H. injection H as <-. now eexists.
Qed.

Lemma handleGenerate_throw st w stored err :
  fst (V3.generateTestCases API_KEY generateContent (prdText st) (figmaLink st)
         (map fileBody (images st)) (focusPrompt st) w) = Throw err ->
  handleGenerate API_KEY generateContent fileToBase64 now notIterable st w stored
  = (withError err st,
     snd (V3.generateTestCases API_KEY generateContent (prdText st) (figmaLink st)
            (map fileBody (images st)) (focusPrompt st) w)).
Proof.
  unfold handleGenerate.
  destruct (V3.generateTestCases _ _ _ _ _ _ _) as [[v|e] w']; cbn [fst snd];
    intros H; [discriminate H|]. now injection H as ->.
Qed.

Variables (st : AppState) (w : world) (text : jsstring) (items : list json).
Variable datas : list (jsstring * jsstring).
Variable stored : result unit.

Hypothesis Ha : clientAvailable API_KEY w = true.
Hypothesis Hc : Inputs.canGenerate (prdText st) (figmaLink st) (images st) = true.
Hypothesis Hg :
  generateContent (requestParts (prdText st) (figmaLink st)
                     (map fileBody (images st)) (focusPrompt st))
  = Ok (Some text).
Hypothesis Hp : JSON_parse text = Some (JArray items).
Hypothesis Hr : readImages fileToBase64 (images st) = Ok datas.

(** The state after a generation whose answer is an array and whose
    images are read: the cases are shown, the history is set, and the
    write is made or its refusal shown. *)
Lemma handleGenerate_run :
  fst (handleGenerate API_KEY generateContent fileToBase64 now notIterable
         st w stored)
  = match currentUser st with
    | None =>
        mkApp (currentUser st) (theme st) (prdText st) (figmaLink st)
              (focusPrompt st) (images st)
              (seq (length (objects st)) (length items)) false None
              (exportStatus st) (copyStatus st) false (history st)
              (objects st ++ map App.withStatus items) (writes st)
    | Some email =>
        mkApp (currentUser st) (theme st) (prdText st) (figmaLink st)
              (focusPrompt st) (images st)
              (seq (length (objects st)) (length items)) false
              (match stored with
               | Ok _ => None
               | Throw err => Some (messageOf err)
               end)
              (exportStatus st) (copyStatus st) false
              (newEntryOf now st datas (seq (length (objects st)) (length items))
               :: history st)
              (objects st ++ map App.withStatus items)
              (match stored with
               | Ok _ =>
                   writes st
                   ++ [SetHistory (historyKey email)
                         (map (valueOfEntry (objects st ++ map App.withStatus items))
                              (newEntryOf now st datas
                                 (seq (length (objects st)) (length items))
                               :: history st))]
               | Throw _ => writes st
               end)
    end.
Proof.
  unfold handleGenerate.
  rewrite canGenerate_noInput in Hc. apply negb_true_iff in Hc.
  rewrite (generateTestCases_run _ _ _ _ _ _ _ Ha Hc), Hg.
  destruct text as [|c t]; [discriminate Hp|].
  rewrite (robustJsonParse3_frame _ _ Hp). cbn [isArray].
  rewrite Hr. unfold allocate, saveHistory, saveHistoryFor.
  cbn [fst snd currentUser]. rewrite length_map.
  destruct (currentUser st) as [email|]; [|reflexivity].
  destruct stored as [u|err]; reflexivity.
Qed.

End GenerateFacts.

Section Preservation.

Lemma wellFormed_saveHistoryFor user stored h st :
  wellFormed st ->
  Forall (fun r => r < length (objects st)) (flat_map (fun e => entryCases e) h) ->
  wellFormed (snd (saveHistoryFor user stored h st)).
Proof.
  intros W H. unfold saveHistoryFor. destruct user as [email|]; [|exact W].
  apply wellFormed_elim in W as (A & _ & C).
  destruct stored; now apply wellFormed_intro.
Qed.

Lemma objects_saveHistoryFor user stored h st :
  objects (snd (saveHistoryFor user stored h st)) = objects st.
Proof.
  unfold saveHistoryFor. destruct user; [|reflexivity].
  destruct stored; reflexivity.
Qed.

Lemma flat_map_filter_bound (p : HistoryEntry ref -> bool) h n :
  Forall (fun r => r < n) (flat_map (fun e => entryCases e) h) ->
  Forall (fun r => r < n) (flat_map (fun e => entryCases e) (filter p h)).
Proof.
  induction h as [|e h IH]; [trivial|].
  cbn [flat_map filter]. intros H. apply Forall_app in H as [He Hh].
  destruct (p e); [|now apply IH].
  cbn [flat_map]. apply Forall_app. split; [exact He|now apply IH].
Qed.

Lemma wellFormed_showResults items st :
  wellFormed st -> wellFormed (snd (showResults items st)).
Proof.
  intros W. apply wellFormed_elim in W as (_ & B & _).
  unfold showResults, allocate. cbn [fst snd].
  apply wellFormed_intro; cbn [testCases objects history].
  - rewrite length_app. apply seq_bound.
  - rewrite length_app. eapply Forall_lt_le; [|exact B]. lia.
  - apply seq_NoDup.
Qed.

Lemma refs_showResults items st :
  Forall (fun r => r < length (objects (snd (showResults items st))))
         (fst (showResults items st)).
Proof.
  unfold showResults, allocate. cbn [fst snd objects].
  rewrite length_app. apply seq_bound.
Qed.

Lemma objects_showResults items st :
  length (objects st) <= length (objects (snd (showResults items st))).
Proof.
  unfold showResults, allocate. cbn [fst snd objects]. rewrite length_app. lia.
Qed.

Lemma wellFormed_handleSelectHistory base64ToFile id st :
  wellFormed st -> wellFormed (handleSelectHistory base64ToFile id st).
Proof.
  intros W. unfold handleSelectHistory.
  destruct (find _ (history st)) as [entry|]; [|exact W].
  apply wellFormed_elim in W as (_ & B & _).
  unfold allocate. cbn [fst snd].
  apply wellFormed_intro; cbn [testCases objects history].
  - rewrite length_app. apply seq_bound.
  - rewrite length_app. eapply Forall_lt_le; [|exact B]. lia.
  - apply seq_NoDup.
Qed.

Lemma objects_handleSelectHistory base64ToFile id st :
  length (objects st) <= length (objects (handleSelectHistory base64ToFile id st)).
Proof.
  unfold handleSelectHistory. destruct (find _ (history st)); [|lia].
  unfold allocate. cbn [fst snd objects]. rewrite length_app. lia.
Qed.

Lemma wellFormed_updateTestCase index field value st :
  wellFormed st -> wellFormed (updateTestCase index field value st).
Proof.
  intros W. unfold updateTestCase.
  destruct (nth_error (testCases st) index) as [r|]; [|exact W].
  apply wellFormed_elim in W as (A & B & C).
  apply wellFormed_intro; cbn [testCases objects history];
    rewrite ?updateObject_length; assumption.
Qed.

Lemma objects_updateTestCase index field value st :
  length (objects (updateTestCase index field value st)) = length (objects st).
Proof.
  unfold updateTestCase. destruct (nth_error (testCases st) index); [|reflexivity].
  cbn [objects]. apply updateObject_length.
Qed.

Lemma wellFormed_handleDeleteHistory id stored st :
  wellFormed st -> wellFormed (snd (handleDeleteHistory id stored st)).
Proof.
  intros W. unfold handleDeleteHistory, saveHistory.
  apply wellFormed_saveHistoryFor; [exact W|].
  apply flat_map_filter_bound. now apply wellFormed_elim in W.
Qed.

Lemma wellFormed_handleClearHistory confirmed stored st :
  wellFormed st -> wellFormed (snd (handleClearHistory confirmed stored st)).
Proof.
  intros W. unfold handleClearHistory, saveHistory.
  destruct confirmed; [|exact W].
  apply wellFormed_saveHistoryFor; [exact W|]. constructor.
Qed.

Lemma wellFormed_emptied st (st' : AppState) :
  testCases st' = [] -> history st' = [] \/ history st' = history st ->
  objects st' = objects st ->
  wellFormed st -> wellFormed st'.
Proof.
  intros T H O W. apply wellFormed_elim in W as (_ & B & _).
  apply wellFormed_intro; rewrite ?T, ?O.
  - constructor.
  - destruct H as [-> | ->]; [constructor|exact B].
  - constructor.
Qed.

Lemma loadEntries_grows h objs :
  length objs <= length (snd (loadEntries h objs)).
Proof.
  revert objs; induction h as [|e h IH]; intros objs; cbn [loadEntries snd];
    [lia|].
  unfold allocate. cbn [fst snd]. etransitivity; [|apply IH].
  rewrite length_app. lia.
Qed.

Lemma loadEntries_bound h objs :
  Forall (fun r => r < length (snd (loadEntries h objs)))
         (flat_map (fun e => entryCases e) (fst (loadEntries h objs))).
Proof.
  revert objs; induction h as [|e h IH]; intros objs;
    cbn [loadEntries fst snd flat_map]; [constructor|].
  unfold allocate. cbn [fst snd entryCases]. apply Forall_app. split.
  - eapply Forall_lt_le; [|apply seq_bound].
    etransitivity; [|apply loadEntries_grows]. rewrite length_app. lia.
  - apply IH.
Qed.

Lemma wellFormed_loadEffect saved st :
  wellFormed st -> wellFormed (loadEffect saved st).
Proof.
  intros W. unfold loadEffect. destruct (currentUser st); [|exact W].
  destruct saved as [| |h]; try exact W.
  - apply wellFormed_elim in W as (A & _ & C).
    apply wellFormed_intro; cbn; auto.
  - apply wellFormed_elim in W as (A & _ & C).
    apply wellFormed_intro; cbn [testCases objects history].
    + eapply Forall_lt_le; [apply loadEntries_grows|exact A].
    + apply loadEntries_bound.
    + exact C.
Qed.

Lemma objects_loadEffect saved st :
  length (objects st) <= length (objects (loadEffect saved st)).
Proof.
  unfold loadEffect. destruct (currentUser st); [|lia].
  destruct saved as [| |h]; cbn [objects]; try lia. apply loadEntries_grows.
Qed.

Lemma wellFormed_handleGenerate
    API_KEY generateContent fileToBase64 now notIterable st w stored :
  wellFormed st ->
  wellFormed (fst (handleGenerate API_KEY generateContent fileToBase64 now
                     notIterable st w stored)).
Proof.
  intros W. unfold handleGenerate.
  destruct (V3.generateTestCases _ _ _ _ _ _ _) as [[v|e] w']; [|exact W].
  destruct v; try exact W. cbn [fst].
  pose proof (wellFormed_showResults items (generateStart st) W) as W1.
  pose proof (refs_showResults items (generateStart st)) as R1.
  unfold showResults, allocate, generateStart in W1, R1.
  cbn [fst snd objects] in W1, R1.
  unfold allocate. cbn [fst snd].
  destruct (readImages fileToBase64 (images st)) as [ds|e]; cbn [fst].
  - match goal with
    | |- context [saveHistory ?s ?h ?x] =>
        pose proof (wellFormed_saveHistoryFor (currentUser x) s h x) as S;
        change (saveHistoryFor (currentUser x) s h x) with (saveHistory s h x) in S;
        destruct (saveHistory s h x) as [[u|err] saved]
    end; cbn [fst snd] in *; apply S.
    + exact W1.
    + cbn [objects flat_map newEntryOf entryCases]. apply Forall_app.
      split; [exact R1|].
      apply wellFormed_elim in W as (_ & B & _).
      rewrite length_app. eapply Forall_lt_le; [|exact B]. lia.
    + exact W1.
    + cbn [objects flat_map newEntryOf entryCases]. apply Forall_app.
      split; [exact R1|].
      apply wellFormed_elim in W as (_ & B & _).
      rewrite length_app. eapply Forall_lt_le; [|exact B]. lia.
  - exact W1.
Qed.

End Preservation.

Section SessionFacts.

Variable API_KEY : option jsstring.
Variable notIterable : jsstring.
Variable base64ToFile : jsstring -> jsstring -> NamedFile.

Lemma holdsInUse_le n m g : n <= m -> holdsInUse n g -> holdsInUse m g.
Proof.
  intros L [A B]. split.
  - eapply Forall_lt_le; eassumption.
  - destruct (shown g); [|exact I]. eapply Forall_lt_le; eassumption.
Qed.

Lemma pending_le n m (gs : list Generation) :
  n <= m -> Forall (holdsInUse n) gs -> Forall (holdsInUse m) gs.
Proof.
  intros L. apply Forall_impl. intros g. now apply holdsInUse_le.
Qed.

Lemma Forall_removeAt {A} (P : A -> Prop) k l :
  Forall P l -> Forall P (removeAt k l).
Proof.
  intros H. revert k; induction H as [|x l Hx Hl IH]; intros [|k]; simpl;
    auto.
Qed.

Lemma Forall_replaceAt {A} (P : A -> Prop) k y l :
  P y -> Forall P l -> Forall P (replaceAt k y l).
Proof.
  intros Hy H. revert k; induction H as [|x l Hx Hl IH]; intros [|k]; simpl;
    auto.
Qed.

Lemma Forall_nth_error {A} (P : A -> Prop) k l x :
  Forall P l -> nth_error l k = Some x -> P x.
Proof.
  intros H E. apply nth_error_In in E. rewrite Forall_forall in H. auto.
Qed.

Lemma steady_same ss (st' : AppState) :
  steady ss -> wellFormed st' ->
  length (objects (component ss)) <= length (objects st') ->
  steady (mkSession st' (pending ss)).
Proof.
  intros [W P] W' L. split; [exact W'|]. cbn [component pending].
  eapply pending_le; eassumption.
Qed.

Lemma wellFormed_generateFinish g fileToBase64 now stored st :
  wellFormed st -> holdsInUse (length (objects st)) g ->
  wellFormed (generateFinish notIterable g fileToBase64 now stored st)
  /\ length (objects st)
     <= length (objects (generateFinish notIterable g fileToBase64 now stored st)).
Proof.
  intros W [Hh Hs]. unfold generateFinish.
  destruct (outcome g) as [v|err]; [|split; [exact W|cbn; lia]].
  destruct v; try (split; [exact W|cbn; lia]).
  set (cases := match shown g with
                | Some refs => (refs, st)
                | None => showResults items st
                end).
  assert (C : wellFormed (snd cases)
              /\ length (objects st) <= length (objects (snd cases))
              /\ Forall (fun r => r < length (objects (snd cases))) (fst cases)).
  { unfold cases. destruct (shown g) as [refs|]; cbn [fst snd].
    - split; [exact W|]. split; [lia|exact Hs].
    - split; [now apply wellFormed_showResults|].
      split; [apply objects_showResults|apply refs_showResults]. }
  destruct C as (W1 & L1 & R1). clearbody cases.
  destruct (readImages fileToBase64 (images (startedIn g))) as [ds|err];
    [|split; [exact W1|exact L1]].
  pose proof (wellFormed_saveHistoryFor (currentUser (startedIn g)) stored
                (newEntryOf now (startedIn g) ds (fst cases)
                 :: history (startedIn g)) (snd cases) W1) as S.
  pose proof (objects_saveHistoryFor (currentUser (startedIn g)) stored
                (newEntryOf now (startedIn g) ds (fst cases)
                 :: history (startedIn g)) (snd cases)) as O.
  destruct (saveHistoryFor _ _ _ _) as [[u|err] saved]; cbn [fst snd] in *;
    (split; [apply S|cbn [objects loaded failed]; rewrite O; exact L1]);
    cbn [flat_map newEntryOf entryCases]; apply Forall_app;
    (split; [exact R1|eapply Forall_lt_le; eassumption]).
Qed.

Lemma steady_step a ss :
  steady ss -> steady (step API_KEY notIterable base64ToFile a ss).
Proof.
  intros S. pose proof S as [W P].
  destruct a; cbn [step].
  - (* Mount *) apply steady_same; [exact S|exact W|cbn; lia].
  - (* ThemeEffect *)
    destruct stored; (apply steady_same; [exact S|exact W|cbn; lia]).
  - (* ToggleTheme *) apply steady_same; [exact S|exact W|cbn; lia].
  - (* Login *)
    destruct stored; (apply steady_same; [exact S|exact W|cbn; lia]).
  - (* Logout *)
    apply steady_same; [exact S| |cbn; lia].
    apply (wellFormed_emptied (component ss)); auto.
  - (* LoadHistory *)
    apply steady_same; [exact S|now apply wellFormed_loadEffect|].
    apply objects_loadEffect.
  - (* SetPrdText *) apply steady_same; [exact S|exact W|cbn; lia].
  - (* SetFigmaLink *) apply steady_same; [exact S|exact W|cbn; lia].
  - (* SetFocusPrompt *) apply steady_same; [exact S|exact W|cbn; lia].
  - (* SetImages *) apply steady_same; [exact S|exact W|cbn; lia].
  - (* GenerateStart *)
    split; [exact W|]. cbn [component pending generateStart objects].
    apply Forall_app. split; [exact P|]. constructor; [|constructor].
    split; [|exact I]. cbn [startedIn]. now apply wellFormed_elim in W.
  - (* GenerateShow *)
    destruct (nth_error (pending ss) k) as [[inputs [v|err] [refs|]]|] eqn:N;
      try exact S; destruct v; try exact S.
    split; cbn [component pending].
    + now apply wellFormed_showResults.
    + apply Forall_replaceAt.
      * pose proof (Forall_nth_error _ _ _ _ P N) as [Hh _].
        split; cbn [startedIn shown] in *.
        -- eapply Forall_lt_le; [apply objects_showResults|exact Hh].
        -- apply refs_showResults.
      * eapply pending_le; [apply objects_showResults|exact P].
  - (* GenerateFinish *)
    destruct (nth_error (pending ss) k) as [g|] eqn:N; [|exact S].
    pose proof (Forall_nth_error _ _ _ _ P N) as G.
    destruct (wellFormed_generateFinish g fileToBase64 now stored (component ss) W G)
      as [W' L].
    split; cbn [component pending]; [exact W'|].
    apply Forall_removeAt. eapply pending_le; eassumption.
  - (* Refresh *)
    apply steady_same; [exact S| |cbn; lia].
    apply (wellFormed_emptied (component ss)); auto.
  - (* SelectHistory *)
    apply steady_same; [exact S|now apply wellFormed_handleSelectHistory|].
    apply objects_handleSelectHistory.
  - (* DeleteHistory *)
    apply steady_same; [exact S|now apply wellFormed_handleDeleteHistory|].
    unfold handleDeleteHistory, saveHistory. rewrite objects_saveHistoryFor. lia.
  - (* ClearHistory *)
    apply steady_same; [exact S|now apply wellFormed_handleClearHistory|].
    unfold handleClearHistory, saveHistory. destruct confirmed; [|cbn; lia].
    rewrite objects_saveHistoryFor. lia.
  - (* UpdateTestCase *)
    apply steady_same; [exact S|now apply wellFormed_updateTestCase|].
    rewrite objects_updateTestCase. lia.
  - (* Clear *)
    destruct confirmed; cbn [handleClear];
      (apply steady_same; [exact S| |cbn; lia]); [|exact W].
    apply (wellFormed_emptied (component ss)); auto.
  - (* SetExportStatus *) apply steady_same; [exact S|exact W|cbn; lia].
  - (* SetCopyStatus *) apply steady_same; [exact S|exact W|cbn; lia].
  - (* SetShowSheetsCopyMessage *) apply steady_same; [exact S|exact W|cbn; lia].
Qed.

(** [handleGenerate] run to its end is its beginning followed by its end,
    with no event in between. *)
Lemma handleGenerate_steps generateContent fileToBase64 now st w stored :
  component (step API_KEY notIterable base64ToFile
         (GenerateFinish 0 fileToBase64 now stored)
         (step API_KEY notIterable base64ToFile
            (GenerateStart generateContent w) (mkSession st [])))
  = fst (handleGenerate API_KEY generateContent fileToBase64 now notIterable
           st w stored).
Proof.
  cbn [step component pending List.app nth_error].
  unfold generateFinish, handleGenerate.
  cbn [outcome shown startedIn].
  destruct (V3.generateTestCases _ _ _ _ _ _ _) as [[v|e] w']; cbn [fst];
    [|reflexivity].
  destruct v; try reflexivity.
  unfold showResults, allocate, generateStart, saveHistory.
  cbn [fst snd objects images currentUser history].
  destruct (readImages fileToBase64 (images st)) as [ds|e]; [|reflexivity].
  unfold saveHistoryFor, newEntryOf. cbn [currentUser prdText figmaLink focusPrompt].
  destruct (currentUser st) as [email|]; [|reflexivity].
  destruct stored; reflexivity.
Qed.

End SessionFacts.

(** X17: whatever the events of the component and their order, the
    generations under way included, every test case held by the table, by
    the history or by a generation under way is an object in use, and the
    cases of the table are distinct objects. *)
Theorem wellFormed_invariant
    (API_KEY : option jsstring) (notIterable : jsstring)
    (base64ToFile : jsstring -> jsstring -> NamedFile)
    (actions : list action) :
  steady (run API_KEY notIterable base64ToFile actions start).
Proof.
  assert (S : steady start) by (repeat split; constructor).
  revert S. unfold run. generalize start.
  induction actions as [|a actions IH]; intros ss S; [exact S|].
  cbn [fold_left]. apply IH. now apply steady_step.
Qed.

Lemma wellFormed_invariant_witness :
  currentUser (component (run Samples.someKey [] Sessions.decodes
                            Sessions.visit start)) = Some Sessions.user
  /\ length (history (component (run Samples.someKey [] Sessions.decodes
                                   Sessions.visit start))) = 2
  /\ length (testCases (component (run Samples.someKey [] Sessions.decodes
                                     Sessions.visit start))) = 1
  /\ steady (run Samples.someKey [] Sessions.decodes Sessions.visit start).
Proof.
  split; [vm_compute; reflexivity|].
  split; [vm_compute; reflexivity|].
  split; [vm_compute; reflexivity|].
  exact (wellFormed_invariant Samples.someKey [] Sessions.decodes Sessions.visit).
Defined.

(** X18: whatever the service throws is shown by its own message; the table,
    the history and the storage stay as they were. *)
Theorem handleGenerate_failure
    (API_KEY : option jsstring)
    (generateContent : list Part -> result (option jsstring))
    (fileToBase64 : NamedFile -> result jsstring) (now : Z)
    (notIterable : jsstring) (st : AppState) (w : world)
    (stored : result unit) (err : thrown) :
  fst (V3.generateTestCases API_KEY generateContent (prdText st) (figmaLink st)
         (map fileBody (images st)) (focusPrompt st) w) = Throw err ->
  exists message,
    err = ErrorObj message
    /\ error (fst (handleGenerate API_KEY generateContent fileToBase64 now
                     notIterable st w stored)) = Some message
    /\ isLoading (fst (handleGenerate API_KEY generateContent fileToBase64 now
                         notIterable st w stored)) = false
    /\ shownCases (fst (handleGenerate API_KEY generateContent fileToBase64 now
                          notIterable st w stored)) = shownCases st
    /\ history (fst (handleGenerate API_KEY generateContent fileToBase64 now
                       notIterable st w stored)) = history st
    /\ writes (fst (handleGenerate API_KEY generateContent fileToBase64 now
                      notIterable st w stored)) = writes st.
Proof.
  intros H. destruct (generateTestCases_throws_error _ _ _ _ _ _ _ _ H)
    as [message ->].
  exists message. rewrite (handleGenerate_throw _ _ _ _ _ _ _ _ _ H).
  repeat split.
Qed.

Lemma handleGenerate_failure_witness :
  exists message,
    ErrorObj msgEmptyResponse = ErrorObj message
    /\ error (fst (handleGenerate Samples.someKey (Samples.answering [])
                     Sessions.encodes 1 [] Sessions.typed Samples.freshWorld
                     (Ok tt)))
       = Some message
    /\ isLoading (fst (handleGenerate Samples.someKey (Samples.answering [])
                         Sessions.encodes 1 [] Sessions.typed Samples.freshWorld
                         (Ok tt)))
       = false
    /\ shownCases (fst (handleGenerate Samples.someKey (Samples.answering [])
                          Sessions.encodes 1 [] Sessions.typed Samples.freshWorld
                          (Ok tt)))
       = shownCases Sessions.typed
    /\ history (fst (handleGenerate Samples.someKey (Samples.answering [])
                       Sessions.encodes 1 [] Sessions.typed Samples.freshWorld
                       (Ok tt)))
       = history Sessions.typed
    /\ writes (fst (handleGenerate Samples.someKey (Samples.answering [])
                      Sessions.encodes 1 [] Sessions.typed Samples.freshWorld
                      (Ok tt)))
       = writes Sessions.typed.
Proof.
  exact (handleGenerate_failure Samples.someKey (Samples.answering [])
           Sessions.encodes 1 [] Sessions.typed Samples.freshWorld (Ok tt)
           (ErrorObj msgEmptyResponse) ltac:(vm_compute; reflexivity)).
Defined.

(** X19: without a client and a key, or with nothing to generate from, the
    component shows the error of the service, no call is made and the
    table, the history and the storage stay as they were. *)
Theorem handleGenerate_rejected
    (API_KEY : option jsstring)
    (generateContent : list Part -> result (option jsstring))
    (fileToBase64 : NamedFile -> result jsstring) (now : Z)
    (notIterable : jsstring) (st : AppState) (w : world)
    (stored : result unit) :
  clientAvailable API_KEY w = false
  \/ Inputs.canGenerate (prdText st) (figmaLink st) (images st) = false ->
  handleGenerate API_KEY generateContent fileToBase64 now notIterable st w stored
  = (withError (ErrorObj (if clientAvailable API_KEY w
                          then msgNoInput else msgKeyMissing)) st,
     if clientAvailable API_KEY w then mkWorld true (calls w) else w).
Proof.
  intros H. unfold handleGenerate.
  destruct (clientAvailable API_KEY w) eqn:Ha.
  - destruct H as [H|H]; [discriminate H|].
    rewrite canGenerate_noInput in H. apply negb_false_iff in H.
    now rewrite (generateTestCases_rejects _ _ _ _ _ _ _ Ha H).
  - unfold V3.generateTestCases, bind.
    now rewrite getAiInstance_unavailable by assumption.
Qed.

Lemma handleGenerate_rejected_witness :
  handleGenerate None (Samples.answering Sessions.answer) Sessions.encodes 1 []
                 Sessions.typed Samples.freshWorld (Ok tt)
  = (withError (ErrorObj msgKeyMissing) Sessions.typed, Samples.freshWorld).
Proof.
  exact (handleGenerate_rejected None (Samples.answering Sessions.answer)
           Sessions.encodes 1 [] Sessions.typed Samples.freshWorld (Ok tt)
           (or_introl eq_refl)).
Defined.

(** X20: for a signed-in user, a generation whose answer is an array and
    whose images are read shows the cases of the answer, each with the
    status Untested, and puts a new entry with these cases before the
    history, whose earlier entries stay as they were.  When the storage
    takes the write, the whole history is stored under the key of the user
    and no error is shown; when it refuses, the message of what it throws
    is shown and nothing is stored. *)
Theorem handleGenerate_success
    (API_KEY : option jsstring)
    (generateContent : list Part -> result (option jsstring))
    (fileToBase64 : NamedFile -> result jsstring) (now : Z)
    (notIterable : jsstring) (st : AppState) (w : world)
    (stored : result unit)
    (email text : jsstring) (items : list json)
    (datas : list (jsstring * jsstring)) :
  currentUser st = Some email ->
  wellFormed st ->
  clientAvailable API_KEY w = true ->
  Inputs.canGenerate (prdText st) (figmaLink st) (images st) = true ->
  generateContent (requestParts (prdText st) (figmaLink st)
                     (map fileBody (images st)) (focusPrompt st))
  = Ok (Some text) ->
  JSON_parse text = Some (JArray items) ->
  readImages fileToBase64 (images st) = Ok datas ->
  forall st',
    st' = fst (handleGenerate API_KEY generateContent fileToBase64 now
                 notIterable st w stored) ->
    shownCases st' = map App.withStatus items
    /\ isLoading st' = false
    /\ map (valueOfEntry (objects st')) (history st')
       = mkEntry now (prdText st) (figmaLink st) (Some (focusPrompt st))
                 (match datas with [] => None | _ :: _ => Some datas end)
                 (map App.withStatus items)
         :: map (valueOfEntry (objects st)) (history st)
    /\ match stored with
       | Ok _ =>
           error st' = None
           /\ writes st'
              = writes st ++ [SetHistory (historyKey email)
                                (map (valueOfEntry (objects st')) (history st'))]
       | Throw err =>
           error st' = Some (messageOf err) /\ writes st' = writes st
       end.
Proof.
  intros Hu W Ha Hc Hg Hp Hr st' ->.
  rewrite (handleGenerate_run _ _ _ _ _ _ _ _ _ _ _ Ha Hc Hg Hp Hr).
  rewrite Hu. unfold shownCases.
  cbn [testCases objects error isLoading history writes map].
  assert (F : map (deref (objects st ++ map App.withStatus items))
                  (seq (length (objects st)) (length items))
              = map App.withStatus items).
  { rewrite <- (length_map App.withStatus items) at 1. apply map_deref_fresh. }
  apply wellFormed_elim in W as (_ & B & _).
  split; [exact F|]. split; [reflexivity|]. split.
  - unfold valueOfEntry at 1, newEntryOf.
    cbn [entryId entryPrd entryLink entryFocus entryImages entryCases].
    rewrite F. f_equal. now apply valueOfEntry_old.
  - destruct stored; split; reflexivity.
Qed.

Lemma handleGenerate_success_witness :
  (shownCases (fst (handleGenerate Samples.someKey
                      (Samples.answering Sessions.answer) Sessions.encodes 1 []
                      Sessions.typed Samples.freshWorld (Ok tt)))
   = [App.withStatus Samples.firstRecord]
   /\ writes (fst (handleGenerate Samples.someKey
                     (Samples.answering Sessions.answer) Sessions.encodes 1 []
                     Sessions.typed Samples.freshWorld (Ok tt)))
      = [SetHistory (historyKey Sessions.user)
           [mkEntry 1 (str "doc") [] (Some []) None
                    [App.withStatus Samples.firstRecord]]])
  /\ (error (fst (handleGenerate Samples.someKey
                    (Samples.answering Sessions.answer) Sessions.encodes 1 []
                    Sessions.typed Samples.freshWorld
                    (Throw (ErrorObj (str "quota")))))
      = Some (str "quota")
      /\ writes (fst (handleGenerate Samples.someKey
                        (Samples.answering Sessions.answer) Sessions.encodes 1 []
                        Sessions.typed Samples.freshWorld
                        (Throw (ErrorObj (str "quota")))))
         = []).
Proof.
  split.
  - pose proof (handleGenerate_success Samples.someKey
                  (Samples.answering Sessions.answer) Sessions.encodes 1 []
                  Sessions.typed Samples.freshWorld (Ok tt) Sessions.user
                  Sessions.answer [Samples.firstRecord] []
                  eq_refl ltac:(split; constructor) eq_refl eq_refl eq_refl
                  ltac:(vm_compute; reflexivity) eq_refl _ eq_refl)
      as (A & _ & B & _ & C).
    split; [exact A|]. rewrite C, B. reflexivity.
  - pose proof (handleGenerate_success Samples.someKey
                  (Samples.answering Sessions.answer) Sessions.encodes 1 []
                  Sessions.typed Samples.freshWorld
                  (Throw (ErrorObj (str "quota"))) Sessions.user
                  Sessions.answer [Samples.firstRecord] []
                  eq_refl ltac:(split; constructor) eq_refl eq_refl eq_refl
                  ltac:(vm_compute; reflexivity) eq_refl _ eq_refl)
      as (_ & _ & _ & A & B).
    split; [exact A|exact B].
Defined.

(** X21: the table and the new entry of the history share their cases: an
    edit made after a generation changes the entry held by the component,
    and nothing is stored, so that the stored entry keeps the old text. *)
Theorem updateTestCase_reaches_history
    (API_KEY : option jsstring)
    (generateContent : list Part -> result (option jsstring))
    (fileToBase64 : NamedFile -> result jsstring) (now : Z)
    (notIterable : jsstring) (st : AppState) (w : world)
    (stored : result unit)
    (text : jsstring) (items : list json) (datas : list (jsstring * jsstring))
    (index : nat) (field value : jsstring) :
  clientAvailable API_KEY w = true ->
  Inputs.canGenerate (prdText st) (figmaLink st) (images st) = true ->
  generateContent (requestParts (prdText st) (figmaLink st)
                     (map fileBody (images st)) (focusPrompt st))
  = Ok (Some text) ->
  JSON_parse text = Some (JArray items) ->
  readImages fileToBase64 (images st) = Ok datas ->
  currentUser st <> None ->
  index < length items ->
  field <> str "__proto__" ->
  forall st1 st2,
    st1 = fst (handleGenerate API_KEY generateContent fileToBase64 now
                 notIterable st w stored) ->
    st2 = updateTestCase index field value st1 ->
    exists e rest tc,
      history st2 = e :: rest
      /\ nth_error (entryCases (valueOfEntry (objects st2) e)) index = Some tc
      /\ getMember field tc = Some (JString value)
      /\ writes st2 = writes st1.
Proof.
  intros Ha Hc Hg Hp Hr Hu Hi Hf st1 st2 -> ->.
  rewrite (handleGenerate_run _ _ _ _ _ _ _ _ _ _ _ Ha Hc Hg Hp Hr).
  destruct (currentUser st) as [email|]; [clear Hu|contradiction].
  unfold updateTestCase. cbn [testCases].
  assert (N : nth_error (seq (length (objects st)) (length items)) index
              = Some (length (objects st) + index)).
  { rewrite nth_error_nth' with (d := 0) by now rewrite length_seq.
    now rewrite seq_nth. }
  unfold ref in *. rewrite N. cbn [history objects writes].
  eexists _, _, _. split; [reflexivity|]. split; [|split; [|reflexivity]].
  - unfold valueOfEntry, newEntryOf. cbn [entryCases]. rewrite nth_error_map.
    unfold ref in *. rewrite N. reflexivity.
  - rewrite updateObject_same
      by (rewrite length_app, length_map; lia).
    apply setText_same. now right.
Qed.

Lemma updateTestCase_reaches_history_witness :
  exists e rest tc,
    history (updateTestCase 0 (str "testScenario") (str "b")
               (fst (handleGenerate Samples.someKey
                       (Samples.answering Sessions.answer) Sessions.encodes 1 []
                       Sessions.typed Samples.freshWorld (Ok tt))))
    = e :: rest
    /\ nth_error
         (entryCases
            (valueOfEntry
               (objects (updateTestCase 0 (str "testScenario") (str "b")
                           (fst (handleGenerate Samples.someKey
                                   (Samples.answering Sessions.answer)
                                   Sessions.encodes 1 []
                                   Sessions.typed Samples.freshWorld (Ok tt)))))
               e)) 0 = Some tc
    /\ getMember (str "testScenario") tc = Some (JString (str "b"))
    /\ writes (updateTestCase 0 (str "testScenario") (str "b")
                 (fst (handleGenerate Samples.someKey
                         (Samples.answering Sessions.answer) Sessions.encodes 1 []
                         Sessions.typed Samples.freshWorld (Ok tt))))
       = writes (fst (handleGenerate Samples.someKey
                        (Samples.answering Sessions.answer) Sessions.encodes 1 []
                        Sessions.typed Samples.freshWorld (Ok tt))).
Proof.
  exact (updateTestCase_reaches_history Samples.someKey
           (Samples.answering Sessions.answer) Sessions.encodes 1 []
           Sessions.typed Samples.freshWorld (Ok tt) Sessions.answer
           [Samples.firstRecord] [] 0 (str "testScenario") (str "b")
           eq_refl eq_refl eq_refl ltac:(vm_compute; reflexivity) eq_refl
           ltac:(discriminate) ltac:(simpl; lia) ltac:(discriminate)
           _ _ eq_refl eq_refl).
Defined.

(** X22: an edit of a case of the table is read back in its field, and
    leaves the other fields of the case and the other cases as they were. *)
Theorem updateTestCase_edits
    (st : AppState) (index : nat) (field value : jsstring) (tc : record) :
  wellFormed st ->
  nth_error (shownCases st) index = Some tc ->
  field <> str "__proto__" ->
  exists tc',
    nth_error (shownCases (updateTestCase index field value st)) index = Some tc'
    /\ getMember field tc' = Some (JString value)
    /\ (forall k, k <> field -> getMember k tc' = getMember k tc)
    /\ (forall j, j <> index ->
          nth_error (shownCases (updateTestCase index field value st)) j
          = nth_error (shownCases st) j).
Proof.
  intros W Hn Hf. apply wellFormed_elim in W as (A & _ & C).
  unfold shownCases in *. rewrite nth_error_map in Hn.
  destruct (nth_error (testCases st) index) as [r|] eqn:R; [|discriminate Hn].
  cbn in Hn. injection Hn as <-.
  assert (L : r < length (objects st)).
  { apply nth_error_In in R. rewrite Forall_forall in A. now apply A. }
  unfold updateTestCase. rewrite R. cbn [objects testCases].
  exists (setText field value (deref (objects st) r)).
  split; [|split; [|split]].
  - rewrite nth_error_map, R. cbn. now rewrite updateObject_same.
  - apply setText_same. now right.
  - intros k Hk. now apply setText_other.
  - intros j Hj. rewrite !nth_error_map.
    destruct (nth_error (testCases st) j) as [r'|] eqn:R'; [|reflexivity].
    cbn. f_equal. apply updateObject_other. intros ->.
    apply Hj. rewrite NoDup_nth_error in C. apply C.
    + apply nth_error_Some. congruence.
    + congruence.
Qed.

Lemma updateTestCase_edits_witness :
  exists tc',
    nth_error (shownCases (updateTestCase 0 (str "status") (str "Pass")
                             (handleSelectHistory Sessions.decodes 7
                                                  Sessions.earlier))) 0
    = Some tc'
    /\ getMember (str "status") tc' = Some (JString (str "Pass")).
Proof.
  destruct (updateTestCase_edits
              (handleSelectHistory Sessions.decodes 7 Sessions.earlier)
              0 (str "status") (str "Pass")
              (keepStatus [(str "testCaseId", JString (str "TC_001"))])
              ltac:(split; repeat constructor; simpl; intuition lia)
              eq_refl ltac:(discriminate))
    as (tc' & A & B & _).
  exists tc'. now split.
Defined.

(** X23: choosing an entry of the history shows copies of its cases, each
    with a status, and no edit of the table afterwards changes an entry of
    the history. *)
Theorem handleSelectHistory_copies
    (base64ToFile : jsstring -> jsstring -> NamedFile)
    (st : AppState) (id : Z) (entry : HistoryEntry ref) :
  wellFormed st ->
  find (fun item => (entryId item =? id)%Z) (history st) = Some entry ->
  forall st1,
    st1 = handleSelectHistory base64ToFile id st ->
    shownCases st1
    = map keepStatus (entryCases (valueOfEntry (objects st) entry))
    /\ Forall (fun tc => truthy (getMember (str "status") tc) = true)
              (shownCases st1)
    /\ prdText st1 = entryPrd entry
    /\ figmaLink st1 = entryLink entry
    /\ forall index field value,
         map (valueOfEntry (objects (updateTestCase index field value st1)))
             (history (updateTestCase index field value st1))
         = map (valueOfEntry (objects st)) (history st).
Proof.
  intros W F st1 ->. unfold handleSelectHistory. rewrite F.
  unfold allocate. cbn [fst snd]. rewrite length_map.
  unfold shownCases. cbn [testCases objects prdText figmaLink].
  set (fresh := map (fun r => keepStatus (deref (objects st) r))
                    (entryCases entry)).
  assert (E : map (deref (objects st ++ fresh))
                  (seq (length (objects st)) (length (entryCases entry)))
              = fresh).
  { replace (length (entryCases entry)) with (length fresh)
      by (unfold fresh; apply length_map).
    apply map_deref_fresh. }
  apply wellFormed_elim in W as (_ & B & _).
  split; [|split; [|split; [|split]]]; try reflexivity.
  - rewrite E. unfold fresh, valueOfEntry. cbn [entryCases].
    now rewrite map_map.
  - rewrite E. unfold fresh. apply Forall_forall. intros tc Hin.
    apply in_map_iff in Hin as (r & <- & _). apply keepStatus_status.
  - intros index field value. unfold updateTestCase. cbn [testCases].
    destruct (nth_error _ index) as [r|] eqn:R; cbn [objects history].
    + apply nth_error_In, in_seq in R.
      rewrite valueOfEntry_updated.
      * now apply valueOfEntry_old.
      * intros Hin. rewrite Forall_forall in B. apply B in Hin. lia.
    + now apply valueOfEntry_old.
Qed.

Lemma handleSelectHistory_copies_witness :
  shownCases (handleSelectHistory Sessions.decodes 7 Sessions.earlier)
  = [keepStatus [(str "testCaseId", JString (str "TC_001"))]]
  /\ map (valueOfEntry
            (objects (updateTestCase 0 (str "testCaseId") (str "TC_9")
                        (handleSelectHistory Sessions.decodes 7 Sessions.earlier))))
         (history (updateTestCase 0 (str "testCaseId") (str "TC_9")
                     (handleSelectHistory Sessions.decodes 7 Sessions.earlier)))
     = map (valueOfEntry (objects Sessions.earlier)) (history Sessions.earlier).
Proof.
  destruct (handleSelectHistory_copies Sessions.decodes Sessions.earlier 7
              (mkEntry 7 (str "doc") [] None None [0])
              ltac:(split; repeat constructor) eq_refl _ eq_refl)
    as (A & _ & _ & _ & B).
  split; [exact A|]. exact (B 0 (str "testCaseId") (str "TC_9")).
Defined.

(** X24: for a signed-in user, deleting an entry keeps the other entries
    in their order and leaves the table alone, and the deleted entry can
    no longer be chosen.  When the storage takes the write, the history
    that is left is stored under the key of the user; when it refuses,
    the handler throws what the storage throws and nothing is stored. *)
Theorem handleDeleteHistory_removes
    (base64ToFile : jsstring -> jsstring -> NamedFile)
    (st : AppState) (id : Z) (email : jsstring) (stored : result unit) :
  currentUser st = Some email ->
  forall st1,
    st1 = snd (handleDeleteHistory id stored st) ->
    history st1 = filter (fun item => negb (entryId item =? id)%Z) (history st)
    /\ (forall e, In e (history st1) <-> In e (history st) /\ entryId e <> id)
    /\ shownCases st1 = shownCases st
    /\ handleSelectHistory base64ToFile id st1 = st1
    /\ match stored with
       | Ok _ =>
           fst (handleDeleteHistory id stored st) = Ok tt
           /\ writes st1
              = writes st ++ [SetHistory (historyKey email)
                                (map (valueOfEntry (objects st1)) (history st1))]
       | Throw err =>
           fst (handleDeleteHistory id stored st) = Throw err
           /\ writes st1 = writes st
       end.
Proof.
  intros Hu st1 ->.
  assert (H : history (snd (handleDeleteHistory id stored st))
              = filter (fun item => negb (entryId item =? id)%Z) (history st)).
  { unfold handleDeleteHistory, saveHistory, saveHistoryFor. rewrite Hu.
    destruct stored; reflexivity. }
  split; [exact H|]. split; [|split; [|split]].
  - intros e. rewrite H, filter_In, negb_true_iff, Z.eqb_neq. reflexivity.
  - unfold handleDeleteHistory, saveHistory, saveHistoryFor. rewrite Hu.
    destruct stored; reflexivity.
  - unfold handleSelectHistory. rewrite H.
    destruct (find _ (filter _ (history st))) as [entry|] eqn:F; [|reflexivity].
    apply find_some in F as [Hin E]. apply filter_In in Hin as [_ N].
    rewrite E in N. discriminate N.
  - unfold handleDeleteHistory, saveHistory, saveHistoryFor. rewrite Hu.
    destruct stored as [[]|err]; split; reflexivity.
Qed.

Lemma handleDeleteHistory_removes_witness :
  (history (snd (handleDeleteHistory 7 (Ok tt) Sessions.earlier)) = []
   /\ writes (snd (handleDeleteHistory 7 (Ok tt) Sessions.earlier))
      = [SetHistory (historyKey Sessions.user) []])
  /\ (history (snd (handleDeleteHistory 7 (Throw (ErrorObj (str "quota")))
                      Sessions.earlier)) = []
      /\ writes (snd (handleDeleteHistory 7 (Throw (ErrorObj (str "quota")))
                        Sessions.earlier)) = []).
Proof.
  split.
  - destruct (handleDeleteHistory_removes Sessions.decodes Sessions.earlier 7
                Sessions.user (Ok tt) eq_refl _ eq_refl)
      as (A & _ & _ & _ & _ & B).
    split; [exact A|]. rewrite B, A. reflexivity.
  - destruct (handleDeleteHistory_removes Sessions.decodes Sessions.earlier 7
                Sessions.user (Throw (ErrorObj (str "quota"))) eq_refl _ eq_refl)
      as (A & _ & _ & _ & _ & B).
    split; [exact A|exact B].
Defined.

(** X25: every event of the component adds at most one operation to those
    made on the storage.  A history is written under the key of the user
    of the render the writing handler was made in (for the end of a
    generation, the render it began in), with the value of the history the
    component holds right after; a history is removed only by a load that
    does not parse, under the key of the current user; the current user
    is set by a login and removed by a logout or by a mount whose item
    does not parse; the theme is set by its effect. *)
Theorem writes_for_user
    (API_KEY : option jsstring) (notIterable : jsstring)
    (base64ToFile : jsstring -> jsstring -> NamedFile)
    (a : action) (ss : Session) :
  exists added,
    writes (component (step API_KEY notIterable base64ToFile a ss))
    = writes (component ss) ++ added
    /\ length added <= 1
    /\ forall op, In op added ->
         match op with
         | SetHistory key value =>
             (exists email,
                writerOf a ss = Some email /\ key = historyKey email)
             /\ value
                = map (valueOfEntry
                         (objects (component (step API_KEY notIterable
                                                base64ToFile a ss))))
                      (history (component (step API_KEY notIterable
                                             base64ToFile a ss)))
         | RemoveHistory key =>
             a = LoadHistory Unparsable
             /\ exists email,
                  currentUser (component ss) = Some email
                  /\ key = historyKey email
         | SetCurrentUser email => exists stored, a = Login email stored
         | RemoveCurrentUser =>
             a = Logout \/ exists savedTheme prefersDark,
                             a = Mount Unparsable savedTheme prefersDark
         | SetTheme t =>
             t = theme (component ss) /\ exists stored, a = ThemeEffect stored
         end.
Proof.
  assert (Z0 : forall (st st' : AppState),
             writes st' = writes st ->
             exists added : list storageOp,
               writes st' = writes st ++ added /\ length added <= 1
               /\ forall op, In op added -> False).
  { intros st st' E. exists []. rewrite app_nil_r.
    split; [exact E|]. split; [simpl; lia|]. intros op []. }
  assert (S : forall user stored h st,
             exists added,
               writes (snd (saveHistoryFor user stored h st)) = writes st ++ added
               /\ length added <= 1
               /\ forall op, In op added ->
                    exists email,
                      user = Some email
                      /\ op = SetHistory (historyKey email)
                                (map (valueOfEntry
                                        (objects (snd (saveHistoryFor user stored h st))))
                                     (history (snd (saveHistoryFor user stored h st))))).
  { intros user stored h st. unfold saveHistoryFor.
    destruct user as [email|].
    - destruct stored; cbn [snd writes].
      + eexists. split; [reflexivity|]. split; [simpl; lia|].
        intros op [<-|[]]. now exists email.
      + exists []. rewrite app_nil_r. split; [reflexivity|].
        split; [simpl; lia|]. intros op [].
    - exists []. rewrite app_nil_r. split; [reflexivity|].
      split; [simpl; lia|]. intros op []. }
  destruct a; cbn [step component].
  - (* Mount *)
    destruct savedUser as [| |email]; cbn [mountEffect writes].
    + destruct (Z0 (component ss) (component ss) eq_refl) as (ad & E & L & F).
      exists ad. split; [exact E|]. split; [exact L|].
      intros op Hin. destruct (F op Hin).
    + exists [RemoveCurrentUser]. split; [reflexivity|]. split; [simpl; lia|].
      intros op [<-|[]]. right. now eexists _, _.
    + destruct (Z0 (component ss) (component ss) eq_refl) as (ad & E & L & F).
      exists ad. split; [exact E|]. split; [exact L|].
      intros op Hin. destruct (F op Hin).
  - (* ThemeEffect *)
    destruct stored; cbn [themeEffect snd writes].
    + exists [SetTheme (theme (component ss))]. split; [reflexivity|].
      split; [simpl; lia|]. intros op [<-|[]]. split; [reflexivity|].
      now eexists.
    + destruct (Z0 (component ss) (component ss) eq_refl) as (ad & E & L & F).
      exists ad. split; [exact E|]. split; [exact L|].
      intros op Hin. destruct (F op Hin).
  - (* ToggleTheme *)
    destruct (Z0 (component ss) (component ss) eq_refl) as (ad & E & L & F).
    exists ad. split; [exact E|]. split; [exact L|].
    intros op Hin. destruct (F op Hin).
  - (* Login *)
    destruct stored; cbn [handleLogin snd writes].
    + exists [SetCurrentUser email]. split; [reflexivity|].
      split; [simpl; lia|]. intros op [<-|[]]. now eexists.
    + destruct (Z0 (component ss) (component ss) eq_refl) as (ad & E & L & F).
      exists ad. split; [exact E|]. split; [exact L|].
      intros op Hin. destruct (F op Hin).
  - (* Logout *)
    exists [RemoveCurrentUser]. split; [reflexivity|]. split; [simpl; lia|].
    intros op [<-|[]]. now left.
  - (* LoadHistory *)
    unfold loadEffect. destruct (currentUser (component ss)) as [email|] eqn:U.
    + destruct saved as [| |h]; cbn [writes].
      * destruct (Z0 (component ss) (component ss) eq_refl) as (ad & E & L & F).
        exists ad. split; [exact E|]. split; [exact L|].
        intros op Hin. destruct (F op Hin).
      * exists [RemoveHistory (historyKey email)]. split; [reflexivity|].
        split; [simpl; lia|]. intros op [<-|[]]. split; [reflexivity|].
        now exists email.
      * destruct (Z0 (component ss) (component ss) eq_refl) as (ad & E & L & F).
        exists ad. split; [exact E|]. split; [exact L|].
        intros op Hin. destruct (F op Hin).
    + destruct (Z0 (component ss) (component ss) eq_refl) as (ad & E & L & F).
      exists ad. split; [exact E|]. split; [exact L|].
      intros op Hin. destruct (F op Hin).
  - destruct (Z0 (component ss) (component ss) eq_refl) as (ad & E & L & F).
    exists ad. split; [exact E|]. split; [exact L|].
    intros op Hin. destruct (F op Hin).
  - destruct (Z0 (component ss) (component ss) eq_refl) as (ad & E & L & F).
    exists ad. split; [exact E|]. split; [exact L|].
    intros op Hin. destruct (F op Hin).
  - destruct (Z0 (component ss) (component ss) eq_refl) as (ad & E & L & F).
    exists ad. split; [exact E|]. split; [exact L|].
    intros op Hin. destruct (F op Hin).
  - destruct (Z0 (component ss) (component ss) eq_refl) as (ad & E & L & F).
    exists ad. split; [exact E|]. split; [exact L|].
    intros op Hin. destruct (F op Hin).
  - (* GenerateStart *)
    destruct (Z0 (component ss) (component ss) eq_refl) as (ad & E & L & F).
    exists ad. split; [exact E|]. split; [exact L|].
    intros op Hin. destruct (F op Hin).
  - (* GenerateShow *)
    destruct (nth_error (pending ss) k) as [[inputs [v|err] [refs|]]|];
      try destruct v;
      destruct (Z0 (component ss) (component ss) eq_refl) as (ad & E & L & F);
      exists ad; (split; [exact E|]); (split; [exact L|]);
      intros op Hin; destruct (F op Hin).
  - (* GenerateFinish *)
    cbn [writerOf].
    destruct (nth_error (pending ss) k) as [g|]; cbn [component].
    + unfold generateFinish.
      destruct (outcome g) as [v|err].
      * destruct v;
          try (destruct (Z0 (component ss) (component ss) eq_refl)
                 as (ad & E & L & F);
               exists ad; (split; [exact E|]); (split; [exact L|]);
               intros op Hin; destruct (F op Hin)).
        set (cases := match shown g with
                      | Some refs => (refs, component ss)
                      | None => showResults items (component ss)
                      end).
        assert (C : writes (snd cases) = writes (component ss))
          by (unfold cases; destruct (shown g); reflexivity).
        clearbody cases.
        destruct (readImages fileToBase64 (images (startedIn g))) as [ds|err].
        -- destruct (S (currentUser (startedIn g)) stored
                       (newEntryOf now (startedIn g) ds (fst cases)
                        :: history (startedIn g)) (snd cases))
             as (ad & E & L & F).
           exists ad.
           destruct (saveHistoryFor _ _ _ _) as [[u|err] saved];
             cbn [snd fst loaded failed writes objects history] in *;
             (split; [now rewrite E, C|]); (split; [exact L|]);
             intros op Hin; destruct (F op Hin) as (email & U & ->);
             (split; [now exists email|reflexivity]).
        -- destruct (Z0 (component ss) (failed err (snd cases)) C)
             as (ad & E & L & F).
           exists ad. split; [exact E|]. split; [exact L|].
           intros op Hin. destruct (F op Hin).
      * destruct (Z0 (component ss) (component ss) eq_refl) as (ad & E & L & F).
        exists ad. split; [exact E|]. split; [exact L|].
        intros op Hin. destruct (F op Hin).
    + destruct (Z0 (component ss) (component ss) eq_refl) as (ad & E & L & F).
      exists ad. split; [exact E|]. split; [exact L|].
      intros op Hin. destruct (F op Hin).
  - (* Refresh *)
    destruct (Z0 (component ss) (component ss) eq_refl) as (ad & E & L & F).
    exists ad. split; [exact E|]. split; [exact L|].
    intros op Hin. destruct (F op Hin).
  - (* SelectHistory *)
    unfold handleSelectHistory. destruct (find _ _);
      destruct (Z0 (component ss) (component ss) eq_refl) as (ad & E & L & F);
      exists ad; (split; [exact E|]); (split; [exact L|]);
      intros op Hin; destruct (F op Hin).
  - (* DeleteHistory *)
    unfold handleDeleteHistory, saveHistory. cbn [writerOf].
    destruct (S (currentUser (component ss)) stored
                (filter (fun item => negb (entryId item =? id)%Z)
                        (history (component ss))) (component ss))
      as (ad & E & L & F).
    exists ad. split; [exact E|]. split; [exact L|].
    intros op Hin. destruct (F op Hin) as (email & U & ->).
    split; [now exists email|reflexivity].
  - (* ClearHistory *)
    unfold handleClearHistory, saveHistory. cbn [writerOf].
    destruct confirmed.
    + destruct (S (currentUser (component ss)) stored [] (component ss))
        as (ad & E & L & F).
      exists ad. split; [exact E|]. split; [exact L|].
      intros op Hin. destruct (F op Hin) as (email & U & ->).
      split; [now exists email|reflexivity].
    + destruct (Z0 (component ss) (component ss) eq_refl) as (ad & E & L & F).
      exists ad. split; [exact E|]. split; [exact L|].
      intros op Hin. destruct (F op Hin).
  - (* UpdateTestCase *)
    unfold updateTestCase. destruct (nth_error _ _);
      destruct (Z0 (component ss) (component ss) eq_refl) as (ad & E & L & F);
      exists ad; (split; [exact E|]); (split; [exact L|]);
      intros op Hin; destruct (F op Hin).
  - (* Clear *)
    destruct confirmed;
      destruct (Z0 (component ss) (component ss) eq_refl) as (ad & E & L & F);
      exists ad; (split; [exact E|]); (split; [exact L|]);
      intros op Hin; destruct (F op Hin).
  - destruct (Z0 (component ss) (component ss) eq_refl) as (ad & E & L & F).
    exists ad. split; [exact E|]. split; [exact L|].
    intros op Hin. destruct (F op Hin).
  - destruct (Z0 (component ss) (component ss) eq_refl) as (ad & E & L & F).
    exists ad. split; [exact E|]. split; [exact L|].
    intros op Hin. destruct (F op Hin).
  - destruct (Z0 (component ss) (component ss) eq_refl) as (ad & E & L & F).
    exists ad. split; [exact E|]. split; [exact L|].
    intros op Hin. destruct (F op Hin).
Qed.

Lemma writes_for_user_witness :
  (exists added,
     writes (component
               (step Samples.someKey [] Sessions.decodes
                  (GenerateFinish 0 Sessions.encodes 1 (Ok tt))
                  (run Samples.someKey [] Sessions.decodes Sessions.lateFinish
                       start)))
     = writes (component (run Samples.someKey [] Sessions.decodes
                              Sessions.lateFinish start))
       ++ added
     /\ length added <= 1)
  /\ writerOf (GenerateFinish 0 Sessions.encodes 1 (Ok tt))
              (run Samples.someKey [] Sessions.decodes Sessions.lateFinish start)
     = Some Sessions.user
  /\ currentUser (component (run Samples.someKey [] Sessions.decodes
                                 Sessions.lateFinish start)) = None.
Proof.
  split.
  - destruct (writes_for_user Samples.someKey [] Sessions.decodes
                (GenerateFinish 0 Sessions.encodes 1 (Ok tt))
                (run Samples.someKey [] Sessions.decodes Sessions.lateFinish
                     start))
      as (added & E & L & _).
    exists added. split; assumption.
  - split; vm_compute; reflexivity.
Defined.

